(** * AI Chat to Markdown: the normalization pipeline of [AIChatConverter]

    A shallow embedding of [src/app.js], lines 119-637: [parseConversations],
    the per-format parsers, [parseMapping], [parseMessage] and
    [parseTimestamp], with the part of the JavaScript run time they rely on;
    and of lines 660-950, the export: the file count, the groups, the file
    names and the Markdown text.

    Representation choices, fixed once for the whole development:
    - a JavaScript value read from [JSON.parse] is a [value]; [VUndef] is what
      a missing property reads as;
    - a number is an integer ([Z]): the doubles that hold an integer.
      Fractional numbers and rounding are outside the model;
    - a string is a [string] that holds the UTF-8 encoding of its text, a
      surrogate that stands alone in the three-byte form of its code
      unit. Lengths and positions count UTF-16 code units, white space is
      the white space of ECMAScript; [toLowerCase] acts on the ASCII
      letters only;
    - [ToString], [ToPropertyKey] and [ToNumber] of an object throw a
      [TypeError] when the object has an own property [toString]: no
      value read from [JSON.parse] is callable, so the conversion finds
      no method that returns a primitive value;
    - an object is the list of its own properties in the order
      [Object.keys] enumerates them; a property read returns the first
      binding. Property reads see own properties (and [length] and the
      indices of arrays and strings), which is what every fixed property
      name of the program resolves to; members inherited from a prototype
      are not modelled;
    - a [Date] is its time value, in milliseconds, or [None] for an invalid
      date;
    - what the host decides ([Date.parse], the clock, the order in which
      [Array.prototype.sort] leaves nodes, [ToNumber] of a string) is a
      field of [Host]. A sort of two or more elements is taken to hand
      each of them to its comparator at least once. *)

From Stdlib Require Import List String Ascii ZArith NArith Bool Lia Arith.
From Stdlib Require Import Permutation DecimalString DecimalN DecimalPos.
Import ListNotations.
Local Open Scope list_scope.
Local Open Scope string_scope.

Set Warnings "-register-all".

(** ** Values *)

Inductive value : Type :=
| VUndef
| VNull
| VBool (b : bool)
| VNum (n : Z)
| VStr (s : string)
| VArr (items : list value)
| VObj (fields : list (string * value)).

(** A [Date] object: its time value, [None] when it is NaN. *)
Record JsDate : Type := MkDate { getTime : option Z }.

(** The three ways a call can end. [NoFuel] is the outcome of a loop that
    was cut off; it is shown never to happen. *)
Inductive outcome (A : Type) : Type :=
| Ok (a : A)
| TypeError
| NoFuel.

Arguments Ok {A} a.
Arguments TypeError {A}.
Arguments NoFuel {A}.

Definition obind {A B} (o : outcome A) (k : A -> outcome B) : outcome B :=
  match o with
  | Ok a => k a
  | TypeError => TypeError
  | NoFuel => NoFuel
  end.

Notation "'let*' x ':=' e 'in' k" := (obind e (fun x => k))
  (at level 10, x name, e at level 200, k at level 200).

(** ** The JavaScript run time, as far as the program uses it *)

Module JS.

(** *** Strings *)

Definition string_of_N (n : N) : string :=
  NilZero.string_of_uint (N.to_uint n).

Definition string_of_nat (n : nat) : string := string_of_N (N.of_nat n).

Definition string_of_Z (n : Z) : string :=
  NilZero.string_of_int (Z.to_int n).

Definition is_upper (c : ascii) : bool :=
  let n := nat_of_ascii c in (65 <=? n)%nat && (n <=? 90)%nat.

Definition lower_char (c : ascii) : ascii :=
  if is_upper c then ascii_of_nat (nat_of_ascii c + 32) else c.

Fixpoint lower (s : string) : string :=
  match s with
  | EmptyString => EmptyString
  | String c r => String (lower_char c) (lower r)
  end.

(** A byte that continues a character: [0x80] to [0xBF]. *)
Definition is_cont (c : ascii) : bool :=
  let n := N_of_ascii c in ((128 <=? n) && (n <? 192))%N.

(** The first byte of a character of four bytes, which lies outside the
    basic plane and takes two code units. *)
Definition is_lead4 (c : ascii) : bool := (240 <=? N_of_ascii c)%N.

(** [s.length]: the number of code units. *)
Fixpoint units (s : string) : nat :=
  match s with
  | EmptyString => 0
  | String c r => (if is_cont c then 0 else if is_lead4 c then 2 else 1) + units r
  end.

(** The encoding of a code point; of a surrogate, that of its code
    unit. *)
Definition utf8 (code : N) : string :=
  let b (n : N) := ascii_of_N n in
  (if code <? 128 then String (b code) ""
   else if code <? 2048 then
     String (b (192 + code / 64)) (String (b (128 + code mod 64)) "")
   else if code <? 65536 then
     String (b (224 + code / 4096))
            (String (b (128 + (code / 64) mod 64)) (String (b (128 + code mod 64)) ""))
   else String (b (240 + code / 262144))
               (String (b (128 + (code / 4096) mod 64))
                       (String (b (128 + (code / 64) mod 64))
                               (String (b (128 + code mod 64)) ""))))%N.

(** The code point of a character of four bytes. *)
Definition code4 (c1 c2 c3 c4 : ascii) : N :=
  ((N_of_ascii c1 - 240) * 262144 + (N_of_ascii c2 - 128) * 4096
   + (N_of_ascii c3 - 128) * 64 + (N_of_ascii c4 - 128))%N.

(** One code unit of the pair that the character of four bytes at the
    head of [s] makes: the high surrogate or the low one. *)
Definition surrogate (high : bool) (s : string) : string :=
  match s with
  | String c1 (String c2 (String c3 (String c4 _))) =>
      let v := (code4 c1 c2 c3 c4 - 65536)%N in
      utf8 (if high then 55296 + v / 1024 else 56320 + v mod 1024)%N
  | _ => EmptyString
  end.

(** The bytes that continue a character, at the head of [s]. *)
Fixpoint conts (s : string) : string :=
  match s with
  | String c r => if is_cont c then String c (conts r) else EmptyString
  | EmptyString => EmptyString
  end.

(** [s[i]] for [i] below [s.length]: the code unit at [i]. *)
Fixpoint unit_at (i : nat) (s : string) : string :=
  match s with
  | EmptyString => EmptyString
  | String c r =>
      if is_cont c then unit_at i r
      else if is_lead4 c then
        match i with
        | O => surrogate true s
        | S O => surrogate false s
        | S (S k) => unit_at k r
        end
      else
        match i with
        | O => String c (conts r)
        | S k => unit_at k r
        end
  end.

(** [s.substring(0, n)]: the first [n] code units. A cut that falls
    inside a character of two units leaves its high surrogate. *)
Fixpoint substring0 (n : nat) (s : string) : string :=
  match s with
  | EmptyString => EmptyString
  | String c r =>
      if is_cont c then String c (substring0 n r)
      else
        match n with
        | O => EmptyString
        | S k =>
            if is_lead4 c then
              match k with
              | O => surrogate true s
              | S k' => String c (substring0 k' r)
              end
            else String c (substring0 k r)
        end
  end.

Fixpoint starts_with (p s : string) : bool :=
  match p, s with
  | EmptyString, _ => true
  | String a p', String b s' => Ascii.eqb a b && starts_with p' s'
  | String _ _, EmptyString => false
  end.

(** White space and line terminators, the class of [trim] and of [\s]:
    TAB, LF, VT, FF, CR, SP, U+00A0, U+1680, U+2000 to U+200A, U+2028,
    U+2029, U+202F, U+205F, U+3000 and U+FEFF. *)
Definition white_space_codes : list N :=
  ([9; 10; 11; 12; 13; 32; 160; 5760]
   ++ map (N.add 8192) [0; 1; 2; 3; 4; 5; 6; 7; 8; 9; 10]
   ++ [8232; 8233; 8239; 8287; 12288; 65279])%N%list.

Definition white_space : list string := map utf8 white_space_codes.

(** How many bytes the white-space character at the head of [s] takes;
    [0] when there is none. *)
Definition space_width (s : string) : nat :=
  match find (fun w => starts_with w s) white_space with
  | Some w => String.length w
  | None => 0
  end.

(** [s] without the white space at its head; [skip] counts the bytes of
    the current character still to be dropped. *)
Fixpoint skip_spaces (skip : nat) (s : string) : string :=
  match s with
  | EmptyString => EmptyString
  | String _ r =>
      match skip with
      | S k => skip_spaces k r
      | O =>
          match space_width s with
          | S n => skip_spaces n r
          | O => s
          end
      end
  end.

Definition trimStart (s : string) : string := skip_spaces 0 s.

(** [s] is one white-space character. *)
Definition is_white (s : string) : bool := existsb (String.eqb s) white_space.

Fixpoint trimEnd (s : string) : string :=
  match s with
  | EmptyString => EmptyString
  | String c r =>
      let t := String c (trimEnd r) in
      if is_white t then EmptyString else t
  end.

Definition trim_string (s : string) : string := trimEnd (trimStart s).

(** [s.includes(p)] on strings. *)
Fixpoint str_includes (p s : string) : bool :=
  starts_with p s ||
  match s with
  | EmptyString => false
  | String _ r => str_includes p r
  end.

Fixpoint drop (n : nat) (s : string) : string :=
  match n, s with
  | O, _ => s
  | S k, EmptyString => EmptyString
  | S k, String _ r => drop k r
  end.

(** [s.replace(p, by)] with a string pattern: the first occurrence only. *)
Fixpoint replace_first (p by_ s : string) : string :=
  if starts_with p s then by_ ++ drop (String.length p) s
  else match s with
       | EmptyString => EmptyString
       | String c r => String c (replace_first p by_ r)
       end.

(** [s.replace(/re/g, by)]: [m s = Some n] says that the pattern matches
    at the head of [s] and takes its first [n] characters. The scan goes
    left to right and resumes after each match; [skip] counts the
    characters of the current match still to be dropped. No pattern of
    the program matches the empty string. *)
Fixpoint replace_all (m : string -> option nat) (by_ : string)
         (skip : nat) (s : string) : string :=
  match s with
  | EmptyString => EmptyString
  | String c r =>
      match skip with
      | S k => replace_all m by_ k r
      | O =>
          match m s with
          | Some (S n) => by_ ++ replace_all m by_ n r
          | _ => String c (replace_all m by_ 0 r)
          end
      end
  end.

Fixpoint join (sep : string) (l : list string) : string :=
  match l with
  | [] => EmptyString
  | [x] => x
  | x :: r => x ++ sep ++ join sep r
  end.

(** *** Tests on values *)

Definition truthy (v : value) : bool :=
  match v with
  | VUndef | VNull => false
  | VBool b => b
  | VNum n => negb (n =? 0)%Z
  | VStr s => negb (s =? "")
  | VArr _ | VObj _ => true
  end.

(** [a || b] *)
Definition or_ (a b : value) : value := if truthy a then a else b.

Definition is_string (v : value) : bool :=
  match v with VStr _ => true | _ => false end.

Definition isArray (v : value) : bool :=
  match v with VArr _ => true | _ => false end.

(** [v === "lit"] *)
Definition is_str (lit : string) (v : value) : bool :=
  match v with VStr s => s =? lit | _ => false end.

(** *** Property reads *)

(** The array index a property key denotes, if it is the canonical
    decimal form of one. *)
Definition index_of_key (k : string) : option N :=
  match NilEmpty.uint_of_string k with
  | Some u =>
      let n := N.of_uint u in
      if string_of_N n =? k then Some n else None
  | None => None
  end.

Fixpoint lookup (k : string) (fields : list (string * value)) : value :=
  match fields with
  | [] => VUndef
  | (k', v) :: r => if k' =? k then v else lookup k r
  end.

(** [v[k]] for a receiver that is neither [null] nor [undefined]. *)
Definition get (v : value) (k : string) : value :=
  match v with
  | VObj fields => lookup k fields
  | VArr items =>
      if k =? "length" then VNum (Z.of_nat (List.length items))
      else match index_of_key k with
           | Some i =>
               if (i <? N.of_nat (List.length items))%N
               then nth (N.to_nat i) items VUndef
               else VUndef
           | None => VUndef
           end
  | VStr s =>
      if k =? "length" then VNum (Z.of_nat (units s))
      else match index_of_key k with
           | Some i =>
               if (i <? N.of_nat (units s))%N
               then VStr (unit_at (N.to_nat i) s)
               else VUndef
           | None => VUndef
           end
  | _ => VUndef
  end.

(** [v.k] or [v[k]] for any receiver: reading a property of [null] or
    [undefined] throws. *)
Definition getp (v : value) (k : string) : outcome value :=
  match v with
  | VUndef | VNull => TypeError
  | _ => Ok (get v k)
  end.

(** [Object.keys(v)] for a receiver that is neither [null] nor
    [undefined]. *)
Definition keys (v : value) : list string :=
  match v with
  | VObj fields => map fst fields
  | VArr items => map string_of_nat (seq 0 (List.length items))
  | VStr s => map string_of_nat (seq 0 (units s))
  | _ => []
  end.

(** *** Conversions *)

(** [mapM] in [option]. *)
Fixpoint traverse {A B} (f : A -> option B) (l : list A) : option (list B) :=
  match l with
  | [] => Some []
  | x :: r =>
      match f x, traverse f r with
      | Some y, Some ys => Some (y :: ys)
      | _, _ => None
      end
  end.

(** Whether an object has an own property [k]. *)
Definition hasOwn (k : string) (fields : list (string * value)) : bool :=
  existsb (fun kv => fst kv =? k) fields.

(** [ToString], the conversion of a template literal, of [join] and of a
    property key; [None] when it throws a [TypeError]. An array prints
    its elements separated by commas, [null] and [undefined] as nothing;
    a number prints its decimal digits (the exponent form that starts at
    10^21 is outside the model). An object prints through the method
    [toString] that it inherits, unless an own property hides the method:
    the value of that property is not callable, neither is an own
    [valueOf], and the inherited [valueOf] returns the object, so the
    conversion throws. [ToPrimitive] ends the same way under each of its
    hints. *)
Fixpoint ToString (v : value) : option string :=
  match v with
  | VUndef => Some "undefined"
  | VNull => Some "null"
  | VBool b => Some (if b then "true" else "false")
  | VNum n => Some (string_of_Z n)
  | VStr s => Some s
  | VArr items =>
      option_map (join ",")
                 (traverse (fun x => match x with
                                     | VUndef | VNull => Some EmptyString
                                     | _ => ToString x
                                     end) items)
  | VObj fields => if hasOwn "toString" fields then None else Some "[object Object]"
  end.

(** The conversion as a step of a parser. *)
Definition to_string (v : value) : outcome string :=
  match ToString v with
  | Some s => Ok s
  | None => TypeError
  end.

(** A value that converts: neither an object with an own [toString] nor
    an array that holds one. *)
Definition converts (v : value) : bool :=
  match ToString v with
  | Some _ => true
  | None => false
  end.

(** [items.join(sep)] on an array. *)
Definition arr_join (sep : string) (items : list value) : outcome string :=
  match traverse (fun x => match x with
                           | VUndef | VNull => Some EmptyString
                           | _ => ToString x
                           end) items with
  | Some texts => Ok (join sep texts)
  | None => TypeError
  end.

Definition hex_digit (n : nat) : ascii :=
  if (n <? 10)%nat then ascii_of_nat (48 + n) else ascii_of_nat (87 + n).

(** The escape of one character inside a JSON string. *)
Definition json_escape (c : ascii) : string :=
  let n := nat_of_ascii c in
  if (n =? 34)%nat then "\" ++ String c EmptyString
  else if (n =? 92)%nat then "\\"
  else if (n =? 8)%nat then "\b"
  else if (n =? 12)%nat then "\f"
  else if (n =? 10)%nat then "\n"
  else if (n =? 13)%nat then "\r"
  else if (n =? 9)%nat then "\t"
  else if (n <? 32)%nat then
    "\u00" ++ String (hex_digit (n / 16)) (String (hex_digit (n mod 16)) EmptyString)
  else String c EmptyString.

Fixpoint json_quote_body (s : string) : string :=
  match s with
  | EmptyString => EmptyString
  | String c r => json_escape c ++ json_quote_body r
  end.

Definition dquote : string := String (ascii_of_nat 34) EmptyString.

Definition json_quote (s : string) : string :=
  dquote ++ json_quote_body s ++ dquote.

(** [JSON.stringify(v)] without indentation, for a [v] that is not
    [undefined]. *)
Fixpoint stringify (v : value) : string :=
  match v with
  | VUndef => "null"
  | VNull => "null"
  | VBool b => if b then "true" else "false"
  | VNum n => string_of_Z n
  | VStr s => json_quote s
  | VArr items => "[" ++ join "," (map stringify items) ++ "]"
  | VObj fields =>
      "{" ++ join "," ((fix members (fs : list (string * value)) : list string :=
                          match fs with
                          | [] => []
                          | (_, VUndef) :: r => members r
                          | (k, x) :: r => (json_quote k ++ ":" ++ stringify x) :: members r
                          end) fields) ++ "}"
  end.

(** [TimeClip] on an integer number of milliseconds. *)
Definition time_clip (t : Z) : option Z :=
  if (Z.abs t <=? 8640000000000000)%Z then Some t else None.

(** *** Methods, with the [TypeError] of a missing method *)

(** [v.toLowerCase()] *)
Definition toLowerCase (v : value) : outcome string :=
  match v with VStr s => Ok (lower s) | _ => TypeError end.

(** [v.trim()] *)
Definition trim (v : value) : outcome string :=
  match v with VStr s => Ok (trim_string s) | _ => TypeError end.

(** [v.startsWith(p)] *)
Definition startsWith (v : value) (p : string) : outcome bool :=
  match v with VStr s => Ok (starts_with p s) | _ => TypeError end.

(** [v.includes(p)] for a string [p]: a method of strings and of
    arrays. *)
Definition includes (v : value) (p : string) : outcome bool :=
  match v with
  | VStr s => Ok (str_includes p s)
  | VArr items => Ok (existsb (is_str p) items)
  | _ => TypeError
  end.

(** The elements of [v] when [v] is an array: what [forEach], [filter],
    [map] and [join] need of their receiver. *)
Definition elements (v : value) : outcome (list value) :=
  match v with VArr items => Ok items | _ => TypeError end.

End JS.

Import JS.

(** ** The host *)

(** What the JavaScript engine decides and the program only observes. *)
Record Host : Type := MkHost {
  (** the time value of [new Date(s)] for a string [s]; [None] is NaN *)
  Date_parse : string -> option Z;
  (** the time value of [new Date()] *)
  Date_now : Z;
  (** [ToNumber(s) > 0] for a string [s] *)
  string_positive : string -> bool;
  (** the order in which [sort((a, b) => timeA - timeB)] leaves the nodes
      of a mapping: ascending by [message.create_time || 0], read as a
      number. What the comparator makes of a value that is not a number
      is the engine's business. *)
  sort_by_create_time : list value -> list value
}.

(** [sort] rearranges: its result holds the elements of its argument,
    each as often. This much holds in every engine. *)
Definition rearranges (host : Host) : Prop :=
  forall l, Permutation (sort_by_create_time host l) l.

(** ** The canonical model *)

Record Message : Type := MkMessage {
  role : value;
  content : value;
  timestamp : option JsDate
}.

Record Conversation : Type := MkConversation {
  id : value;
  title : value;
  createTime : option JsDate;
  updateTime : option JsDate;
  messages : list Message;
  _isChatGPT : bool
}.

Inductive Source : Type := Gemini | ChatGPT | AI.

(** The fields of the converter object that the parsing methods read and
    write. *)
Record AIChatConverter : Type := MkConverter {
  jsonData : value;
  fileName : string;
  conversations : list Conversation;
  detectedSource : Source
}.

Definition nl : string := String (ascii_of_nat 10) EmptyString.

(** [mapM] and [filterM] in [outcome]: a callback that throws ends the
    traversal. *)
Fixpoint mapM {A B} (f : A -> outcome B) (l : list A) : outcome (list B) :=
  match l with
  | [] => Ok []
  | x :: r => let* y := f x in let* ys := mapM f r in Ok (y :: ys)
  end.

Fixpoint filterM {A} (f : A -> outcome bool) (l : list A) : outcome (list A) :=
  match l with
  | [] => Ok []
  | x :: r =>
      let* b := f x in
      let* ys := filterM f r in
      Ok (if b then x :: ys else ys)
  end.

Section Converter.

Variable host : Host.

(** *** parseTimestamp (lines 616-637)

    No [value] is a [Date], so the test [value instanceof Date] is
    false for every argument the parsers pass. *)
Definition parseTimestamp (value : value) : option JsDate :=
  if negb (truthy value) then None
  else match value with
       | VNum n =>
           let ts := if (n >? 9999999999)%Z then n else (n * 1000)%Z in
           Some (MkDate (time_clip ts))
       | VStr s =>
           let date := MkDate (Date_parse host s) in
           match getTime date with
           | Some _ => Some date
           | None => None
           end
       | _ => None
       end.

(** *** parseMessage (lines 553-614) *)

(** The role block, for a truthy [msg]. *)
Definition messageRole (msg : value) : value :=
  if truthy (get msg "role") then get msg "role"
  else if truthy (get msg "author") then
    (if is_string (get msg "author") then get msg "author"
     else or_ (get (get msg "author") "role") (VStr "user"))
  else if truthy (get msg "sender") then get msg "sender"
  else if truthy (get msg "from") then get msg "from"
  else VStr "".

(** [role.toLowerCase()], then the synonyms. *)
Definition normalizeRole (role : value) : outcome string :=
  let* role := toLowerCase role in
  Ok (if (role =? "model") || (role =? "gemini") || (role =? "ai") || (role =? "bot")
      then "assistant"
      else if role =? "human" then "user"
      else role).

(** [msg.content.parts.filter(p => typeof p === 'string' || p.text)
       .map(p => typeof p === 'string' ? p : p.text).join('\n')] *)
Definition contentPartsText (parts : value) : outcome string :=
  let* items := elements parts in
  let* kept := filterM (fun p => if is_string p then Ok true
                                 else let* t := getp p "text" in Ok (truthy t)) items in
  let* texts := mapM (fun p => if is_string p then Ok p else getp p "text") kept in
  arr_join nl texts.

(** [msg.parts.filter(p => p.text || typeof p === 'string')
       .map(p => p.text || p).join('\n')] *)
Definition partsText (parts : value) : outcome string :=
  let* items := elements parts in
  let* kept := filterM (fun p => let* t := getp p "text" in
                                 Ok (truthy t || is_string p)) items in
  let* texts := mapM (fun p => let* t := getp p "text" in Ok (or_ t p)) kept in
  arr_join nl texts.

(** The content block, for a truthy [msg]. *)
Definition messageContent (msg : value) : outcome value :=
  if truthy (get msg "content") then
    if is_string (get msg "content") then Ok (get msg "content")
    else if truthy (get (get msg "content") "parts") then
      let* s := contentPartsText (get (get msg "content") "parts") in Ok (VStr s)
    else if truthy (get (get msg "content") "text") then
      Ok (get (get msg "content") "text")
    else Ok (VStr "")
  else if truthy (get msg "parts") then
    let* s := partsText (get msg "parts") in Ok (VStr s)
  else if truthy (get msg "text") then Ok (get msg "text")
  else if truthy (get msg "message") then
    Ok (VStr (match get msg "message" with
              | VStr s => s
              | m => stringify m
              end))
  else Ok (VStr "").

Definition parseMessage (msg : value) : outcome (option Message) :=
  if negb (truthy msg) then Ok None
  else
    let role := messageRole msg in
    let* role := normalizeRole role in
    let* content := messageContent msg in
    let timestamp :=
      parseTimestamp
        (or_ (get msg "create_time")
             (or_ (get msg "created_at")
                  (or_ (get msg "timestamp")
                       (or_ (get msg "time") (get msg "date"))))) in
    let* trimmed := trim content in
    if trimmed =? "" then Ok None
    else Ok (Some {| role := VStr (if role =? "" then "user" else role);
                     content := VStr trimmed;
                     timestamp := timestamp |}).

(** *** parseMapping (lines 476-551) *)

(** Where a value that the walk holds in [current] was read from. Two
    objects (or arrays) are the same object exactly when they were read
    from the same place; [seen] compares objects by identity. *)
Inductive origin : Type :=
| Argument                  (* the [currentNode] argument *)
| ParentOf (key : string).  (* [mapping[key].parent] *)

Definition origin_eqb (a b : origin) : bool :=
  match a, b with
  | Argument, Argument => true
  | ParentOf k, ParentOf k' => k =? k'
  | _, _ => false
  end.

(** SameValueZero, the equality of [Set.prototype.has]. *)
Definition same_value_zero (a b : value * origin) : bool :=
  match fst a, fst b with
  | VUndef, VUndef => true
  | VNull, VNull => true
  | VBool x, VBool y => Bool.eqb x y
  | VNum n, VNum m => (n =? m)%Z
  | VStr s, VStr t => s =? t
  | VArr _, VArr _ => origin_eqb (snd a) (snd b)
  | VObj _, VObj _ => origin_eqb (snd a) (snd b)
  | _, _ => false
  end.

Definition has (seen : list (value * origin)) (x : value * origin) : bool :=
  existsb (same_value_zero x) seen.

(** [msg.author?.role] *)
Definition authorRole (msg : value) : value :=
  match get msg "author" with
  | VUndef | VNull => VUndef
  | author => get author "role"
  end.

(** The body of [if (msg) { ... }] in the walk: the message a node
    contributes to [chain], if any. *)
Definition chainMessage (msg : value) : outcome (option Message) :=
  let author := authorRole msg in
  let content := or_ (get msg "content") (VObj []) in
  let parts := or_ (get content "parts") (VArr []) in
  let* items := elements parts in
  let* joined := arr_join nl (filter is_string items) in
  let text := trim_string joined in
  if (is_str "user" author || is_str "assistant" author) && negb (text =? "")
  then Ok (Some {| role := VStr (if is_str "assistant" author then "assistant" else "user");
                   content := VStr text;
                   timestamp := parseTimestamp (get msg "create_time") |})
  else Ok None.

(** What one turn of the loop adds to [chain] for [node]:
    [const msg = node.message; if (msg) { ... }]. *)
Definition nodeMessage (node : value) : outcome (option Message) :=
  let msg := get node "message" in
  if truthy msg then chainMessage msg else Ok None.

(** The [while] loop. [current] was read from [from]; [seen] lists the
    values added to the set, newest first; [chain] is filled by [push],
    so the newest message is its last element. The loop returns its
    final [chain] and [seen]. *)
Fixpoint walk (fuel : nat) (mapping current : value) (from : origin)
         (seen : list (value * origin)) (chain : list Message)
  : outcome (list Message * list (value * origin)) :=
  if truthy current then
    (* [mapping[current]] converts [current] to a property key *)
    let* key := to_string current in
    if truthy (get mapping key) && negb (has seen (current, from)) then
      match fuel with
      | O => NoFuel
      | S fuel' =>
          let node := get mapping key in
          let* m := nodeMessage node in
          let chain' := match m with
                        | Some x => (chain ++ [x])%list
                        | None => chain
                        end in
          walk fuel' mapping (get node "parent") (ParentOf key)
               ((current, from) :: seen) chain'
      end
    else Ok (chain, seen)
  else Ok (chain, seen).

(** Every key under which [get] can find something. *)
Definition readable_keys (v : value) : list string :=
  match v with
  | VArr _ | VStr _ => "length" :: keys v
  | _ => keys v
  end.

(** As many iterations as the walk can ever need. *)
Definition walk_fuel (mapping : value) : nat :=
  S (S (List.length (readable_keys mapping))).

(** The walk from [currentNode], with the empty [chain] and [seen]. *)
Definition leafChain (mapping currentNode : value)
  : outcome (list Message * list (value * origin)) :=
  walk (walk_fuel mapping) mapping currentNode Argument [] [].

Fixpoint remove_key (k : string) (fields : list (string * value)) : list (string * value) :=
  match fields with
  | [] => []
  | (k', v) :: r => if k' =? k then remove_key k r else (k', v) :: remove_key k r
  end.

(** The own enumerable properties that an object spread copies. *)
Definition own_fields (v : value) : list (string * value) :=
  match v with
  | VObj fields => fields
  | _ => map (fun k => (k, get v k)) (keys v)
  end.

(** [{ id, ...node }] *)
Definition withId (id : string) (node : value) : value :=
  let fields := own_fields node in
  VObj (("id", match lookup "id" fields with VUndef => VStr id | v => v end)
          :: remove_key "id" fields).

(** The callback of [sortedNodes.forEach]: the message a node
    contributes in the fallback mode, if any. *)
Definition sortedMessage (node : value) : outcome (option Message) :=
  let msg := get node "message" in
  if truthy (get msg "author") && truthy (get msg "content") then
    let role := or_ (get (get msg "author") "role") (VStr "user") in
    let* content :=
      (if truthy (get (get msg "content") "parts") then
         let* items := elements (get (get msg "content") "parts") in
         arr_join nl (filter is_string items)
       else match get msg "content" with
            | VStr s => Ok s
            | _ => Ok ""
            end) in
    if negb (trim_string content =? "") && negb (is_str "system" role)
    then Ok (Some {| role := if is_str "assistant" role || is_str "model" role
                             then VStr "assistant" else role;
                     content := VStr (trim_string content);
                     timestamp := parseTimestamp (get msg "create_time") |})
    else Ok None
  else Ok None.

(** [a.flatMap(x => x ? [x] : [])] *)
Definition somes {A} (l : list (option A)) : list A :=
  flat_map (fun o => match o with Some x => [x] | None => [] end) l.

(** [a.message.create_time || 0], which the comparator of the sort
    converts to a number. *)
Definition sortTime (node : value) : value :=
  or_ (get (get node "message") "create_time") (VNum 0).

(** [nodes.sort((a, b) => timeA - timeB)]: the subtraction converts both
    times to numbers, which throws for a time that does not convert. A
    sort of two or more nodes hands each of them to the comparator; a
    sort of fewer calls no comparator. *)
Definition sortNodes (nodes : list value) : outcome (list value) :=
  if (2 <=? List.length nodes)%nat && negb (forallb (fun node => converts (sortTime node)) nodes)
  then TypeError
  else Ok (sort_by_create_time host nodes).

Definition parseMapping (mapping currentNode : value) : outcome (list Message) :=
  (* the default of the parameter *)
  let currentNode := match currentNode with VUndef => VNull | v => v end in
  let* leaf := (if truthy currentNode
                then let* key := to_string currentNode in getp mapping key
                else Ok currentNode) in
  if truthy currentNode && truthy leaf then
    let* r := leafChain mapping currentNode in
    Ok (rev (fst r))
  else
    match mapping with
    | VUndef | VNull => TypeError   (* Object.keys(mapping) *)
    | _ =>
        let nodeIds := keys mapping in
        let* sortedNodes :=
          sortNodes
            (filter (fun node => truthy (get node "message")
                                 && truthy (get (get node "message") "content"))
                    (map (fun id => withId id (get mapping id)) nodeIds)) in
        let* found := mapM sortedMessage sortedNodes in
        Ok (somes found)
    end.

(** *** The state of the converter

    A method runs on the converter object: it reads and writes its
    fields and may throw. The fields keep what was written before a
    throw. *)
Definition M (A : Type) : Type := AIChatConverter -> outcome A * AIChatConverter.

Definition ret {A} (a : A) : M A := fun this => (Ok a, this).

Definition bind {A B} (m : M A) (k : A -> M B) : M B :=
  fun this =>
    match m this with
    | (Ok a, this') => k a this'
    | (TypeError, this') => (TypeError, this')
    | (NoFuel, this') => (NoFuel, this')
    end.

Definition lift {A} (o : outcome A) : M A := fun this => (o, this).

Notation "x <- m ;; k" := (bind m (fun x => k))
  (at level 61, m at next level, right associativity).
Notation "m ;; k" := (bind m (fun _ => k))
  (at level 61, right associativity).

(** [this.conversations.push(c)] *)
Definition push (c : Conversation) : M unit :=
  fun this =>
    (Ok tt, {| jsonData := jsonData this;
               fileName := fileName this;
               conversations := (conversations this ++ [c])%list;
               detectedSource := detectedSource this |}).

(** [this.detectedSource = s] *)
Definition setSource (s : Source) : M unit :=
  fun this =>
    (Ok tt, {| jsonData := jsonData this;
               fileName := fileName this;
               conversations := conversations this;
               detectedSource := s |}).

(** [l.forEach((x, index) => f x index)], counting from [index]. *)
Fixpoint forEach {A} (f : A -> nat -> M unit) (l : list A) (index : nat) : M unit :=
  match l with
  | [] => ret tt
  | x :: r => f x index ;; forEach f r (S index)
  end.

(** *** detectSourceFromFileName (lines 174-204) *)

Definition geminiPatterns : list string :=
  ["myactivity.json"; "マイアクティビティ.json"; "my_activity.json"; "gemini"].

Definition chatgptPatterns : list string :=
  ["conversations.json"; "chatgpt"].

Definition detectSourceFromFileName : M unit :=
  fun this =>
    if fileName this =? "" then ret tt this
    else
      let lowerName := lower (fileName this) in
      if existsb (fun pattern => str_includes (lower pattern) lowerName) geminiPatterns
      then setSource Gemini this
      else if existsb (fun pattern => str_includes (lower pattern) lowerName) chatgptPatterns
      then setSource ChatGPT this
      else ret tt this.

(** *** extractConversationIdFromMapping (lines 256-279), for a
    [mapping] that is neither [null] nor [undefined] *)

(** The first loop: the id of the first node that holds a user text
    message. *)
Fixpoint firstUserNode (mapping : value) (nodeIds : list string) : outcome (option string) :=
  match nodeIds with
  | [] => Ok None
  | nodeId :: r =>
      let node := get mapping nodeId in
      let* message := getp node "message" in
      if truthy message
         && truthy (get message "author")
         && is_str "user" (get (get message "author") "role")
         && truthy (get message "content")
         && is_str "text" (get (get message "content") "content_type")
      then Ok (Some nodeId)
      else firstUserNode mapping r
  end.

Definition extractConversationIdFromMapping (mapping : value) : outcome value :=
  let nodeIds := keys mapping in
  let* found := firstUserNode mapping nodeIds in
  match found with
  | Some nodeId => Ok (VStr nodeId)
  | None =>
      match find (fun nodeId => negb (nodeId =? "client-created-root")
                                && negb (starts_with "client-" nodeId)) nodeIds with
      | Some nodeId => Ok (VStr nodeId)
      | None => Ok VNull
      end
  end.

(** *** parseArrayFormat (lines 206-250) *)

(** The conversation object that the callback builds for [conv], with
    its messages. *)
Definition arrayConversation (conv : value) (index : nat) : outcome Conversation :=
  let* id0 := getp conv "id" in
  let conversationId :=
    or_ id0 (or_ (get conv "conversation_id") (or_ (get conv "chat_id") (get conv "uuid"))) in
  let conversationId :=
    if negb (truthy conversationId) && truthy (get conv "current_node")
    then get conv "current_node" else conversationId in
  let* conversationId :=
    (if negb (truthy conversationId) && truthy (get conv "mapping")
     then extractConversationIdFromMapping (get conv "mapping")
     else Ok conversationId) in
  let id := or_ conversationId (VStr ("conversation_" ++ string_of_nat (index + 1))) in
  let title := or_ (get conv "title")
                   (or_ (get conv "name") (VStr ("会話 " ++ string_of_nat (index + 1)))) in
  let createTime :=
    parseTimestamp (or_ (get conv "create_time")
                        (or_ (get conv "created_at")
                             (or_ (get conv "created") (get conv "timestamp")))) in
  let updateTime :=
    parseTimestamp (or_ (get conv "update_time")
                        (or_ (get conv "updated_at")
                             (or_ (get conv "updated") (get conv "modified")))) in
  let messages :=
    or_ (get conv "messages")
        (or_ (get conv "mapping")
             (or_ (get conv "content") (or_ (get conv "history") (VArr [])))) in
  if truthy (get conv "mapping") then
    let* chain := parseMapping (get conv "mapping") (get conv "current_node") in
    Ok {| id := id; title := title; createTime := createTime; updateTime := updateTime;
          messages := chain; _isChatGPT := true |}
  else
    match messages with
    | VArr items =>
        let* parsed := mapM parseMessage items in
        Ok {| id := id; title := title; createTime := createTime; updateTime := updateTime;
              messages := somes parsed; _isChatGPT := false |}
    | _ =>
        Ok {| id := id; title := title; createTime := createTime; updateTime := updateTime;
              messages := []; _isChatGPT := false |}
    end.

Definition parseArrayFormat (conversations : value) : M unit :=
  items <- lift (elements conversations) ;;
  forEach (fun conv index =>
             conversation <- lift (arrayConversation conv index) ;;
             if (0 <? List.length (messages conversation))%nat || truthy (get conv "title")
             then push conversation
             else ret tt)
          items 0.

(** *** parseTakeoutFormat (lines 281-305) *)

Definition takeoutConversation (chat : value) (index : nat) : outcome Conversation :=
  let* id0 := getp chat "id" in
  let id := or_ id0 (VStr ("chat_" ++ string_of_nat (index + 1))) in
  let title := or_ (get chat "title")
                   (or_ (get chat "name") (VStr ("会話 " ++ string_of_nat (index + 1)))) in
  let createTime := parseTimestamp (or_ (get chat "createTime") (get chat "created")) in
  let updateTime := parseTimestamp (or_ (get chat "updateTime") (get chat "modified")) in
  let messages :=
    or_ (get chat "messages") (or_ (get chat "contents") (or_ (get chat "turns") (VArr []))) in
  let* items := elements messages in
  let* parsed := mapM parseMessage items in
  Ok {| id := id; title := title; createTime := createTime; updateTime := updateTime;
        messages := somes parsed; _isChatGPT := false |}.

Definition parseTakeoutFormat (chats : value) : M unit :=
  match chats with
  | VArr items =>
      forEach (fun chat index =>
                 conversation <- lift (takeoutConversation chat index) ;;
                 if (0 <? List.length (messages conversation))%nat
                 then push conversation
                 else ret tt)
              items 0
  | _ => ret tt
  end.

(** *** stripHtml (lines 371-391) *)

(** The patterns, each as a matcher for [replace_all]. A star is
    followed by a character outside its class in every pattern, so the
    longest run is the only run that can match. Letters of a tag match
    in either case (flag [i]). *)

Definition ci_eqb (a b : ascii) : bool := Ascii.eqb (lower_char a) (lower_char b).

(** The rest of [s] after the literal [p], letters in either case. *)
Fixpoint eat_ci (p s : string) : option string :=
  match p, s with
  | EmptyString, _ => Some s
  | String a p', String b s' => if ci_eqb a b then eat_ci p' s' else None
  | String _ _, EmptyString => None
  end.

Fixpoint skip_while (f : ascii -> bool) (s : string) : string :=
  match s with
  | EmptyString => EmptyString
  | String c r => if f c then skip_while f r else s
  end.

Definition not_gt (c : ascii) : bool := negb (Ascii.eqb c ">").

Definition is_1_to_6 (c : ascii) : bool :=
  let n := nat_of_ascii c in (49 <=? n)%nat && (n <=? 54)%nat.

(** How many characters of [s] lie before its suffix [rest]. *)
Definition taken (s rest : string) : nat := String.length s - String.length rest.

(** The closing [>] of a pattern. *)
Definition close (s rest : string) : option nat :=
  match rest with
  | String ">" rest' => Some (taken s rest')
  | _ => None
  end.

(** [<br\s*\/?>] and [<hr\s*\/?>] *)
Definition re_void (tag : string) (s : string) : option nat :=
  match eat_ci tag s with
  | Some r =>
      let r := trimStart r in
      let r := match r with String "/" r' => r' | _ => r end in
      close s r
  | None => None
  end.

(** [<p[^>]*>] and [<li[^>]*>] *)
Definition re_open (tag : string) (s : string) : option nat :=
  match eat_ci tag s with
  | Some r => close s (skip_while not_gt r)
  | None => None
  end.

(** [<\/p>] and [<\/li>] *)
Definition re_lit_ci (lit : string) (s : string) : option nat :=
  match eat_ci lit s with
  | Some r => Some (taken s r)
  | None => None
  end.

(** [<h[1-6][^>]*>] *)
Definition re_heading_open (s : string) : option nat :=
  match eat_ci "<h" s with
  | Some (String d r) => if is_1_to_6 d then close s (skip_while not_gt r) else None
  | _ => None
  end.

(** [<\/h[1-6]>] *)
Definition re_heading_close (s : string) : option nat :=
  match eat_ci "</h" s with
  | Some (String d r) => if is_1_to_6 d then close s r else None
  | _ => None
  end.

(** [<[^>]+>] *)
Definition re_tag (s : string) : option nat :=
  match s with
  | String "<" (String c r) => if not_gt c then close s (skip_while not_gt r) else None
  | _ => None
  end.

(** [&lt;] and the other entities: no flag [i]. *)
Definition re_lit (lit : string) (s : string) : option nat :=
  if starts_with lit s then Some (String.length lit) else None.

(** [\n{3,}] *)
Definition re_newlines (s : string) : option nat :=
  let n := taken s (skip_while (Ascii.eqb (ascii_of_nat 10)) s) in
  if (3 <=? n)%nat then Some n else None.

Definition stripHtml (html : value) : outcome string :=
  if negb (truthy html) then Ok ""
  else match html with
       | VStr html =>
           let s := replace_all (re_void "<br") nl 0 html in
           let s := replace_all (re_open "<p") nl 0 s in
           let s := replace_all (re_lit_ci "</p>") nl 0 s in
           let s := replace_all (re_open "<li") "- " 0 s in
           let s := replace_all (re_lit_ci "</li>") nl 0 s in
           let s := replace_all re_heading_open (nl ++ "### ") 0 s in
           let s := replace_all re_heading_close nl 0 s in
           let s := replace_all (re_void "<hr") (nl ++ "---" ++ nl) 0 s in
           let s := replace_all re_tag "" 0 s in
           let s := replace_all (re_lit "&lt;") "<" 0 s in
           let s := replace_all (re_lit "&gt;") ">" 0 s in
           let s := replace_all (re_lit "&amp;") "&" 0 s in
           let s := replace_all (re_lit "&quot;") dquote 0 s in
           let s := replace_all (re_lit "&#39;") "'" 0 s in
           let s := replace_all re_newlines (nl ++ nl) 0 s in
           Ok (trim_string s)
       | _ => TypeError   (* html.replace is not a function *)
       end.

(** *** parseGeminiActivityFormat (lines 311-366) *)

(** [new Date(v)]: an array or an object is converted to a string
    first, and the string is parsed. *)
Definition newDate (v : value) : outcome JsDate :=
  match v with
  | VUndef => Ok (MkDate None)
  | VNull => Ok (MkDate (Some 0%Z))
  | VBool b => Ok (MkDate (Some (if b then 1 else 0)%Z))
  | VNum n => Ok (MkDate (time_clip n))
  | VStr s => Ok (MkDate (Date_parse host s))
  | VArr _ | VObj _ => let* s := to_string v in Ok (MkDate (Date_parse host s))
  end.

(** [v > 0]: an array or an object is converted to a string first; the
    string of an object is no number. *)
Definition gt_zero (v : value) : outcome bool :=
  match v with
  | VNum n => Ok (0 <? n)%Z
  | VBool b => Ok b
  | VStr s => Ok (string_positive host s)
  | VArr _ => let* s := to_string v in Ok (string_positive host s)
  | VObj _ => let* _ := to_string v in Ok false
  | VUndef | VNull => Ok false
  end.

(** The string that a value known to be a string holds. *)
Definition the_string (v : value) : string :=
  match v with
  | VStr s => s
  | _ => EmptyString
  end.

Definition sentPrefix : string := "送信したメッセージ:".

Definition activityConversation (activity : value) (index : nat) : outcome Conversation :=
  let* title0 := getp activity "title" in
  let* sent := (if truthy title0 then startsWith title0 sentPrefix else Ok false) in
  (* a truthy title has passed [startsWith]: it is a string *)
  let userMessage :=
    if sent then trim_string (replace_first sentPrefix "" (the_string title0))
    else if truthy title0 then the_string title0
    else "" in
  let* filled :=
    (if truthy (get activity "safeHtmlItem")
     then gt_zero (get (get activity "safeHtmlItem") "length")
     else Ok false) in
  let* aiResponse :=
    (if filled
     then
       let* html := getp (get (get activity "safeHtmlItem") "0") "html" in
       stripHtml (or_ html (VStr ""))
     else Ok "") in
  let* timestamp :=
    (if truthy (get activity "time")
     then let* date := newDate (get activity "time") in Ok (Some date)
     else Ok None) in
  let shown := substring0 50 userMessage
               ++ (if (50 <? units userMessage)%nat then "..." else "") in
  let title := if shown =? "" then "会話 " ++ string_of_nat (index + 1) else shown in
  let userMessages :=
    if negb (userMessage =? "")
    then [ {| role := VStr "user"; content := VStr userMessage; timestamp := timestamp |} ]
    else [] in
  let aiMessages :=
    if negb (trim_string aiResponse =? "")
    then [ {| role := VStr "assistant"; content := VStr (trim_string aiResponse);
              timestamp := timestamp |} ]
    else [] in
  Ok {| id := VStr ("gemini_activity_" ++ string_of_nat (index + 1));
        title := VStr title;
        createTime := timestamp;
        updateTime := timestamp;
        messages := (userMessages ++ aiMessages)%list;
        _isChatGPT := false |}.

Definition parseGeminiActivityFormat (activities : value) : M unit :=
  match activities with
  | VArr items =>
      let sortedActivities := rev items in
      forEach (fun activity index =>
                 conversation <- lift (activityConversation activity index) ;;
                 if (0 <? List.length (messages conversation))%nat
                 then push conversation
                 else ret tt)
              sortedActivities 0
  | _ => ret tt
  end.

(** *** parseSingleConversation (lines 393-413) *)

Definition singleConversation (data : value) : outcome Conversation :=
  let* id0 := getp data "id" in
  let id := or_ id0 (VStr "conversation_1") in
  let title := or_ (get data "title") (or_ (get data "name") (VStr "会話")) in
  let createTime := parseTimestamp (or_ (get data "create_time") (get data "created_at")) in
  let updateTime := parseTimestamp (or_ (get data "update_time") (get data "updated_at")) in
  let messages :=
    or_ (get data "messages") (or_ (get data "content") (or_ (get data "history") (VArr []))) in
  let* items := elements messages in
  let* parsed := mapM parseMessage items in
  Ok {| id := id; title := title; createTime := createTime; updateTime := updateTime;
        messages := somes parsed; _isChatGPT := false |}.

Definition parseSingleConversation (data : value) : M unit :=
  conversation <- lift (singleConversation data) ;;
  if (0 <? List.length (messages conversation))%nat
  then push conversation
  else ret tt.

(** *** parseApiFormat (lines 415-443) *)

(** The messages that one element of [data.contents] adds. *)
Definition apiMessages (content : value) : outcome (list Message) :=
  let* role0 := getp content "role" in
  let role := or_ role0 (VStr "user") in
  let parts := or_ (get content "parts") (VArr []) in
  let* items := elements parts in
  let* found :=
    mapM (fun part =>
            let* text := getp part "text" in
            Ok (if truthy text
                then Some {| role := if is_str "model" role then VStr "assistant" else role;
                             content := text;
                             timestamp := None |}
                else None)) items in
  Ok (somes found).

Definition apiConversation (data : value) : outcome Conversation :=
  let* contents := getp data "contents" in
  let* items := elements contents in
  let* found := mapM apiMessages items in
  Ok {| id := VStr "api_conversation_1";
        title := VStr "会話";
        (* two calls of [new Date()], taken to read one instant *)
        createTime := Some (MkDate (Some (Date_now host)));
        updateTime := Some (MkDate (Some (Date_now host)));
        messages := List.concat found;
        _isChatGPT := false |}.

Definition parseApiFormat (data : value) : M unit :=
  conversation <- lift (apiConversation data) ;;
  if (0 <? List.length (messages conversation))%nat
  then push conversation
  else ret tt.

(** *** parseGenericFormat (lines 445-474) *)

Definition conversationKey (key : string) : bool :=
  str_includes "conversation" (lower key)
  || str_includes "chat" (lower key)
  || str_includes "message" (lower key)
  || str_includes "history" (lower key).

(** One turn of [for (const key of Object.keys(obj))]; [inner] is the
    recursive call on the value. *)
Definition visitProperty (key : string) (value : value) (inner : M unit) : M unit :=
  (if conversationKey key && isArray value then parseArrayFormat value else ret tt) ;;
  inner.

(** Whether an array looks like a list of conversations. *)
Definition looksLikeConversations (items : list value) : bool :=
  match items with
  | firstItem :: _ =>
      truthy firstItem
      && (truthy (get firstItem "messages") || truthy (get firstItem "content")
          || truthy (get firstItem "parts") || truthy (get firstItem "role"))
  | [] => false
  end.

(** [for (const key of Object.keys(obj))] on an array: the keys are the
    indices. [inner] is [findConversations]. *)
Definition eachItem (inner : value -> M unit) : list value -> nat -> M unit :=
  fix each (l : list value) (index : nat) : M unit :=
    match l with
    | [] => ret tt
    | value :: r =>
        visitProperty (string_of_nat index) value (inner value) ;;
        each r (S index)
    end.

(** The same loop on an object: the properties are visited as they are
    listed, each with its own value. *)
Definition eachField (inner : value -> M unit) : list (string * value) -> M unit :=
  fix each (l : list (string * value)) : M unit :=
    match l with
    | [] => ret tt
    | (key, value) :: r =>
        visitProperty key value (inner value) ;;
        each r
    end.

Fixpoint findConversations (obj : value) : M unit :=
  match obj with
  | VArr items =>
      if looksLikeConversations items then parseArrayFormat obj
      else eachItem findConversations items 0
  | VObj fields => eachField findConversations fields
  | _ => ret tt
  end.

Definition parseGenericFormat (data : value) : M unit := findConversations data.

(** *** parseConversations (lines 119-169) *)

(** [this.conversations = []; this.detectedSource = 'AI'] *)
Definition reset : M unit :=
  fun this =>
    (Ok tt, {| jsonData := jsonData this;
               fileName := fileName this;
               conversations := [];
               detectedSource := AI |}).

(** [Array.isArray(d) && d.length > 0 && d[0].header
     && d[0].header.includes('Gemini')] *)
Definition isGeminiActivity (d : value) : outcome bool :=
  match d with
  | VArr (first :: _) =>
      let* header := getp first "header" in
      if truthy header then includes header "Gemini" else Ok false
  | _ => Ok false
  end.

(** [Array.isArray(d) && d.length > 0 && d[0].mapping] *)
Definition isChatGPTExport (d : value) : outcome bool :=
  match d with
  | VArr (first :: _) => let* mapping := getp first "mapping" in Ok (truthy mapping)
  | _ => Ok false
  end.

(** The post-pass on [detectedSource]. *)
Definition reclassify : M unit :=
  fun this =>
    match detectedSource this with
    | AI => if existsb _isChatGPT (conversations this)
            then setSource ChatGPT this
            else ret tt this
    | _ => ret tt this
    end.

(** The chain of tests on [this.jsonData], here [d], and the parser each
    one selects. *)
Definition dispatch (d : value) : M unit :=
  gemini <- lift (isGeminiActivity d) ;;
  if gemini then setSource Gemini ;; parseGeminiActivityFormat d
  else
    chatgpt <- lift (isChatGPTExport d) ;;
    if chatgpt then setSource ChatGPT ;; parseArrayFormat d
    else if isArray d then parseArrayFormat d
    else
      conversations <- lift (getp d "conversations") ;;
      if truthy conversations then parseArrayFormat conversations
      else if truthy (get d "chats") || truthy (get d "history") then
        setSource Gemini ;;
        parseTakeoutFormat (or_ (get d "chats") (get d "history"))
      else if truthy (get d "messages") || truthy (get d "content") then
        parseSingleConversation d
      else if truthy (get d "contents") then
        setSource Gemini ;; parseApiFormat d
      else parseGenericFormat d.

Definition parseConversations : M unit :=
  reset ;;
  detectSourceFromFileName ;;
  (fun this => dispatch (jsonData this) this) ;;
  reclassify.

End Converter.

(** * The vocabulary of the claims *)

(** ** Timestamps *)

(** The two readings of a number. *)
Definition asMilliseconds (n : Z) : JsDate := MkDate (time_clip n).
Definition asSeconds (n : Z) : JsDate := MkDate (time_clip (n * 1000)).

(** ** Roles, in the words of the specification *)

(** What the [author] field stands for: itself when it is a string, its
    [role] otherwise, [user] when that is missing. *)
Definition authorAsRole (author : value) : value :=
  if truthy author then
    (if is_string author then author else or_ (get author "role") (VStr "user"))
  else VUndef.

(** [role], then [author], then [sender], then [from]; [user] when none
    is present. *)
Definition roleByPrecedence (msg : value) : value :=
  match find truthy [get msg "role"; authorAsRole (get msg "author");
                     get msg "sender"; get msg "from"] with
  | Some r => r
  | None => VStr "user"
  end.

(** Lower case, then the synonyms; any other value passes through. *)
Definition collapseRole (raw : string) : string :=
  let r := lower raw in
  if existsb (String.eqb r) ["model"; "gemini"; "ai"; "bot"] then "assistant"
  else if r =? "human" then "user"
  else r.

(** ** Content, in the words of the specification *)

(** The text of one entry of a [parts] array: a plain string as it is,
    the [text] field of anything else, nothing when that is missing. *)
Definition entryText (p : value) : outcome (option value) :=
  match p with
  | VStr _ => Ok (Some p)
  | _ => let* t := getp p "text" in Ok (if truthy t then Some t else None)
  end.

(** The filter and join rule of both [parts] arrays. *)
Definition joinedParts (parts : value) : outcome value :=
  let* items := elements parts in
  let* texts := mapM entryText items in
  let* joined := arr_join nl (somes texts) in
  Ok (VStr joined).

(** [message], stringified if it is not a string already. *)
Definition stringified (m : value) : string :=
  match m with
  | VStr s => s
  | _ => stringify m
  end.

(** The sources of the content, first applicable first. A truthy
    [content] field closes the list: the fields after it are consulted
    only when [content] is falsy. *)
Definition contentSources (msg : value) : list (bool * outcome value) :=
  let c := get msg "content" in
  [ (truthy c && is_string c, Ok c);
    (truthy c && truthy (get c "parts"), joinedParts (get c "parts"));
    (truthy c && truthy (get c "text"), Ok (get c "text"));
    (truthy c, Ok (VStr ""));
    (truthy (get msg "parts"), joinedParts (get msg "parts"));
    (truthy (get msg "text"), Ok (get msg "text"));
    (truthy (get msg "message"), Ok (VStr (stringified (get msg "message")))) ].

(** The first source that applies; the empty text when none does. *)
Definition contentByPrecedence (msg : value) : outcome value :=
  match find fst (contentSources msg) with
  | Some (_, r) => r
  | None => Ok (VStr "")
  end.

(** What it takes for a filter [f] followed by a map [g] to be the one pass
    [e], which keeps what the filter keeps and maps it: the two callbacks
    agree with the pass on the element [x]. *)
Definition agrees {A B} (f : A -> outcome bool) (g : A -> outcome B)
           (e : A -> outcome (option B)) (x : A) : Prop :=
  match e x with
  | Ok (Some y) => f x = Ok true /\ g x = Ok y
  | Ok None => f x = Ok false
  | TypeError => f x = TypeError
  | NoFuel => f x = NoFuel
  end.

(** ** The walk of the mapping *)

(** The nodes whose [parent] field is in [seen]. *)
Definition origins (seen : list (value * origin)) : list string :=
  flat_map (fun e => match snd e with
                     | ParentOf k => [k]
                     | Argument => []
                     end) seen.

(** Every value in [seen] that came from a node is the [parent] field
    of that node. *)
Definition consistent (mapping : value) (seen : list (value * origin)) : Prop :=
  forall v k, In (v, ParentOf k) seen -> v = get (get mapping k) "parent".

(** The keys under which the walk looked a node up, newest first: the
    values of [seen], each converted to its key. *)
Definition visited (seen : list (value * origin)) : list string :=
  flat_map (fun e => match ToString (fst e) with
                     | Some key => [key]
                     | None => []
                     end) seen.

(** Every [parent] field of the mapping is an id, a string, or is
    absent. *)
Definition parentsAreIds (mapping : value) : bool :=
  forallb (fun k => let parent := get (get mapping k) "parent" in
                    negb (truthy parent) || is_string parent)
          (readable_keys mapping).

(** No node holds a message whose [content.parts] is something other
    than an array. *)
Definition nodesWellTyped (host : Host) (mapping : value) : bool :=
  forallb (fun k => match nodeMessage host (get mapping k) with
                    | TypeError => false
                    | _ => true
                    end)
          (readable_keys mapping).

(** A value at which the walk stops: falsy, or the key of no node. *)
Definition endsWalk (mapping top : value) : bool :=
  negb (truthy top)
  || match ToString top with
     | Some key => negb (truthy (get mapping key))
     | None => false
     end.

(** The parent chain of a leaf, listed from the leaf up: each id
    resolves to its node, each node names the next id as its parent, and
    the last node, the root, has the parent field [top]. *)
Fixpoint ancestry (mapping top : value) (nodes : list (string * value)) : Prop :=
  match nodes with
  | [] => True
  | (k, node) :: rest =>
      k <> ""
      /\ get mapping k = node
      /\ truthy node = true
      /\ get node "parent" = match rest with
                             | (k', _) :: _ => VStr k'
                             | [] => top
                             end
      /\ ancestry mapping top rest
  end.

(** The text of a node as the walk reads it: the plain strings of
    [message.content.parts], joined and trimmed. A content that is
    itself a string has no [parts] and reads as no text. *)
Definition walkText (node : value) : string :=
  let msg := get node "message" in
  match or_ (get (or_ (get msg "content") (VObj [])) "parts") (VArr []) with
  | VArr items => trim_string (join nl (map the_string (filter is_string items)))
  | _ => ""
  end.

(** The nodes of which the walk keeps a message: a message of role
    [user] or [assistant] with a text in its parts. *)
Definition keptNode (node : value) : bool :=
  let msg := get node "message" in
  truthy msg
  && (is_str "user" (authorRole msg) || is_str "assistant" (authorRole msg))
  && negb (walkText node =? "").

(** The value the walk holds when it is about to visit [nodes]. *)
Definition entryOf (top : value) (nodes : list (string * value)) : value :=
  match nodes with
  | (k, _) :: _ => VStr k
  | [] => top
  end.

(** A node that holds the message of [author] with the string [text] as
    its content, and no parent: a chain of one node under the key [a]. *)
Definition stringContentNode (author text : string) : value :=
  VObj [("message", VObj [("author", VObj [("role", VStr author)]);
                          ("content", VStr text)])].

Definition stringContentMapping (author text : string) : value :=
  VObj [("a", stringContentNode author text)].

(** ** What the list of conversations holds *)

(** A method keeps [Q] when every conversation of the list satisfies [Q]
    after it, provided every one did before; also when it throws. *)
Definition keeps {A} (Q : Conversation -> Prop) (m : M A) : Prop :=
  forall this, Forall Q (conversations this) -> Forall Q (conversations (snd (m this))).

(** [conversation.messages.length > 0] *)
Definition hasMessages (c : Conversation) : Prop := messages c <> [].

(** The elements of a list, each with its index. *)
Definition indexed {A} (l : list A) : list (A * nat) := combine l (seq 0 (List.length l)).

(** The test of [parseArrayFormat] on the record [fst src] at the index
    [snd src]: the conversation built from it has a message, or the
    record has a truthy [title]. *)
Definition passes (host : Host) (src : value * nat) : bool :=
  match arrayConversation host (fst src) (snd src) with
  | Ok c => (0 <? List.length (messages c))%nat || truthy (get (fst src) "title")
  | _ => false
  end.

(** The conversation [c] was built from the record [fst src], which
    passes the test. *)
Definition keptFrom (host : Host) (src : value * nat) (c : Conversation) : Prop :=
  arrayConversation host (fst src) (snd src) = Ok c
  /\ (hasMessages c \/ truthy (get (fst src) "title") = true).

(** A value that a document holds: the document, or a value that one of
    its arrays or objects holds. *)
Inductive within : value -> value -> Prop :=
| within_here v : within v v
| within_item v x items : In x items -> within v x -> within v (VArr items)
| within_field v k x fields : In (k, x) fields -> within v x -> within v (VObj fields).

(** What the claim allows in the output for the document [d]: a
    conversation with a message, or one that the array-format callback
    built from a record of [d], at the index of the record in its array,
    when the record has a truthy [title]. *)
Definition retained (host : Host) (d : value) (c : Conversation) : Prop :=
  hasMessages c
  \/ exists items index conv,
       within (VArr items) d
       /\ nth_error items index = Some conv
       /\ arrayConversation host conv index = Ok c
       /\ truthy (get conv "title") = true.

(** A content that is a string and does not trim to nothing. *)
Definition nonblank (m : Message) : Prop :=
  exists s, content m = VStr s /\ trim (VStr s) = Ok s /\ s <> "".

(** ** Well-typed documents

    A record is well typed when every field that the parsers read holds
    a value of the type they use it at, or is falsy. *)

(** Neither [null] nor [undefined]: a value whose properties can be
    read. *)
Definition notNullish (v : value) : bool :=
  match v with
  | VUndef | VNull => false
  | _ => true
  end.

(** A text field: a string. *)
Definition textTyped (v : value) : bool := negb (truthy v) || is_string v.

(** An entry of a [parts] array: not [null], with a [text] that
    converts. *)
Definition entryTyped (p : value) : bool := notNullish p && converts (get p "text").

(** A [parts] field: an array of typed entries. *)
Definition partsTyped (v : value) : bool :=
  negb (truthy v)
  || match v with
     | VArr items => forallb entryTyped items
     | _ => false
     end.

(** An [author] field: a string, or an object whose [role] is a text
    field. *)
Definition authorTyped (a : value) : bool :=
  negb (truthy a) || is_string a || textTyped (get a "role").

(** A [content] field: a string, or an object whose [parts] and [text]
    are typed. *)
Definition contentTyped (c : value) : bool :=
  negb (truthy c) || is_string c
  || (partsTyped (get c "parts") && textTyped (get c "text")).

(** A message record: falsy, or with every field typed. *)
Definition wellTypedMessage (msg : value) : bool :=
  negb (truthy msg)
  || (textTyped (get msg "role") && authorTyped (get msg "author")
      && textTyped (get msg "sender") && textTyped (get msg "from")
      && contentTyped (get msg "content")
      && partsTyped (get msg "parts") && textTyped (get msg "text")).

(** A message container: an array of message records. *)
Definition messagesTyped (container : value) : bool :=
  match container with
  | VArr items => forallb wellTypedMessage items
  | _ => false
  end.

(** A node: an object whose [parent] converts to a key and whose
    message, if any, has a [create_time] that converts to a number and a
    [content.parts] that is an array or is falsy. *)
Definition nodeTyped (node : value) : bool :=
  match node with
  | VObj _ =>
      converts (get node "parent")
      && (let msg := get node "message" in
          negb (truthy msg)
          || (converts (get msg "create_time")
              && (let parts := get (get msg "content") "parts" in
                  negb (truthy parts) || isArray parts)))
  | _ => false
  end.

(** A mapping: an object of typed nodes. *)
Definition mappingTyped (mapping : value) : bool :=
  match mapping with
  | VObj fields => forallb (fun kv => nodeTyped (snd kv)) fields
  | _ => false
  end.

(** A conversation record: an object (anything but [null]) with a typed
    [mapping] and a [current_node] that converts to a key, or without a
    mapping and with typed messages in its container, when that is an
    array. *)
Definition wellTypedConversation (conv : value) : bool :=
  notNullish conv
  && (if truthy (get conv "mapping")
      then mappingTyped (get conv "mapping") && converts (get conv "current_node")
      else match or_ (get conv "messages")
                     (or_ (get conv "content") (or_ (get conv "history") (VArr []))) with
           | VArr items => forallb wellTypedMessage items
           | _ => true
           end).

(** An array of well-typed conversation records. *)
Definition wellTypedList (convs : value) : bool :=
  match convs with
  | VArr items => forallb wellTypedConversation items
  | _ => false
  end.

(** A chat of the Takeout format: its container is an array of typed
    messages. *)
Definition chatTyped (chat : value) : bool :=
  notNullish chat
  && messagesTyped (or_ (get chat "messages")
                        (or_ (get chat "contents") (or_ (get chat "turns") (VArr [])))).

(** The value of [chats] or [history]: when it is an array, one of
    typed chats. *)
Definition chatsTyped (chats : value) : bool :=
  match chats with
  | VArr items => forallb chatTyped items
  | _ => true
  end.

(** A single conversation. *)
Definition singleTyped (data : value) : bool :=
  messagesTyped (or_ (get data "messages")
                     (or_ (get data "content") (or_ (get data "history") (VArr [])))).

(** A turn of the API format: its [parts], when truthy, are an array
    without [null] entries. *)
Definition turnTyped (content : value) : bool :=
  notNullish content
  && match or_ (get content "parts") (VArr []) with
     | VArr parts => forallb notNullish parts
     | _ => false
     end.

(** A document of the API format: [contents] is an array of typed
    turns. *)
Definition apiTyped (data : value) : bool :=
  match get data "contents" with
  | VArr items => forallb turnTyped items
  | _ => false
  end.

(** An activity: a [title] that is a string, a [safeHtmlItem] that is an
    array whose first item, if any, has a string [html], and a [time]
    that converts. *)
Definition activityTyped (activity : value) : bool :=
  notNullish activity
  && textTyped (get activity "title")
  && (let items := get activity "safeHtmlItem" in
      negb (truthy items)
      || match items with
         | VArr [] => true
         | VArr (first :: _) => notNullish first && textTyped (get first "html")
         | _ => false
         end)
  && converts (get activity "time").

(** A document for the generic scan: every array that the scan takes for
    a list of conversations is one of typed records. *)
Fixpoint genericTyped (obj : value) : bool :=
  match obj with
  | VArr items =>
      if looksLikeConversations items then forallb wellTypedConversation items
      else forallb genericTyped items
  | VObj fields =>
      forallb (fun kv => (negb (conversationKey (fst kv) && isArray (snd kv))
                          || wellTypedList (snd kv))
                         && genericTyped (snd kv)) fields
  | _ => true
  end.

(** A document of one of the formats, with typed records: an array of
    activities when the [header] of its first element holds [Gemini],
    and of conversation records otherwise; or a value that is not
    [null], typed for the parser that its fields select. *)
Definition wellTypedDocument (d : value) : bool :=
  match d with
  | VUndef | VNull => false
  | VArr [] => true
  | VArr items =>
      match isGeminiActivity d with
      | Ok true => forallb activityTyped items
      | Ok false => forallb wellTypedConversation items
      | _ => false
      end
  | _ =>
      if truthy (get d "conversations") then wellTypedList (get d "conversations")
      else if truthy (get d "chats") || truthy (get d "history")
      then chatsTyped (or_ (get d "chats") (get d "history"))
      else if truthy (get d "messages") || truthy (get d "content") then singleTyped d
      else if truthy (get d "contents") then apiTyped d
      else genericTyped d
  end.

(** ** How a call ends *)

(** Methods that return normally from every state. *)
Definition succeeds (m : M unit) : Prop := forall this, fst (m this) = Ok tt.

(** A call that ends: it returns or throws. *)
Definition ends {A} (o : outcome A) : Prop := o <> NoFuel.

(** A method that ends from every state. *)
Definition halts {A} (m : M A) : Prop := forall this, ends (fst (m this)).

(** * The export (lines 660-950)

    What [convert] makes of the list of conversations: the number of
    files it announces, the groups by month and by year, the file names
    and the Markdown text. The methods read the fields of the converter
    and write none of them; those that touch the page only
    ([updateUI], [convert], the downloads) are left out.

    Representation choices of this part:
    - the field [exportType] is an argument of the methods that read it;
    - [detectedSource] holds one of three strings, here a [Source];
    - a [Map] or a [Set] keyed by strings is the list of its entries in
      insertion order;
    - local time is the time value plus the offset of the zone, a field
      of [Zone]; the clock stands still during a call. *)

(** ** More of the run time *)

(** The ways a call of the export can end. *)
Inductive completion (A : Type) : Type :=
| Returns (a : A)
| ThrowsTypeError
| ThrowsRangeError.

Arguments Returns {A} a.
Arguments ThrowsTypeError {A}.
Arguments ThrowsRangeError {A}.

Definition cbind {A B} (c : completion A) (k : A -> completion B) : completion B :=
  match c with
  | Returns a => k a
  | ThrowsTypeError => ThrowsTypeError
  | ThrowsRangeError => ThrowsRangeError
  end.

Notation "'let!' x ':=' e 'in' k" := (cbind e (fun x => k))
  (at level 10, x name, e at level 200, k at level 200).

(** The receiver of a string method ([trim], [replace], [startsWith]):
    no other value has the method. *)
Definition asString (v : value) : completion string :=
  match v with
  | VStr s => Returns s
  | _ => ThrowsTypeError
  end.

(** [`${v}`]: the conversion of a template literal. *)
Definition stringOf (v : value) : completion string :=
  match ToString v with
  | Some s => Returns s
  | None => ThrowsTypeError
  end.

Fixpoint repeat_char (c : ascii) (n : nat) : string :=
  match n with
  | O => EmptyString
  | S k => String c (repeat_char c k)
  end.

(** [s.padStart(maxLength, fill)] for a filler of one character. *)
Definition padStart (maxLength : nat) (fill : ascii) (s : string) : string :=
  repeat_char fill (maxLength - units s) ++ s.

(** A number that may be NaN, and [String(x)] of it. *)
Definition numberToString (x : option Z) : string :=
  match x with
  | Some n => string_of_Z n
  | None => "NaN"
  end.

(** The day and time arithmetic of a time value (ECMA-262, 21.4.1). *)
Module DateTime.

Local Open Scope Z_scope.

Definition msPerDay : Z := 86400000.

Definition Day (t : Z) : Z := t / msPerDay.

Definition DaysInYear (y : Z) : Z :=
  if negb (y mod 4 =? 0) then 365
  else if negb (y mod 100 =? 0) then 366
  else if negb (y mod 400 =? 0) then 365
  else 366.

Definition DayFromYear (y : Z) : Z :=
  365 * (y - 1970) + (y - 1969) / 4 - (y - 1901) / 100 + (y - 1601) / 400.

(** The largest [y] with [DayFromYear y <= Day t]: an estimate from the
    mean length of a year, which is off by one at most. *)
Definition YearFromTime (t : Z) : Z :=
  let y := 1970 + Day t * 400 / 146097 in
  if Day t <? DayFromYear y then y - 1
  else if DayFromYear (y + 1) <=? Day t then y + 1
  else y.

Definition InLeapYear (t : Z) : Z :=
  if DaysInYear (YearFromTime t) =? 366 then 1 else 0.

Definition DayWithinYear (t : Z) : Z := Day t - DayFromYear (YearFromTime t).

Definition MonthFromTime (t : Z) : Z :=
  let d := DayWithinYear t in
  let leap := InLeapYear t in
  if d <? 31 then 0
  else if d <? 59 + leap then 1
  else if d <? 90 + leap then 2
  else if d <? 120 + leap then 3
  else if d <? 151 + leap then 4
  else if d <? 181 + leap then 5
  else if d <? 212 + leap then 6
  else if d <? 243 + leap then 7
  else if d <? 273 + leap then 8
  else if d <? 304 + leap then 9
  else if d <? 334 + leap then 10
  else 11.

Definition DateFromTime (t : Z) : Z :=
  let d := DayWithinYear t in
  let leap := InLeapYear t in
  match MonthFromTime t with
  | 0 => d + 1
  | 1 => d - 30
  | 2 => d - 58 - leap
  | 3 => d - 89 - leap
  | 4 => d - 119 - leap
  | 5 => d - 150 - leap
  | 6 => d - 180 - leap
  | 7 => d - 211 - leap
  | 8 => d - 242 - leap
  | 9 => d - 272 - leap
  | 10 => d - 303 - leap
  | _ => d - 333 - leap
  end.

Definition HourFromTime (t : Z) : Z := (t / 3600000) mod 24.
Definition MinFromTime (t : Z) : Z := (t / 60000) mod 60.
Definition SecFromTime (t : Z) : Z := (t / 1000) mod 60.
Definition msFromTime (t : Z) : Z := t mod 1000.

End DateTime.

Import DateTime.

Definition zero : ascii := "0".

(** The year of the ISO format: four digits from 0 to 9999, a sign and
    six digits outside. *)
Definition isoYear (y : Z) : string :=
  if (0 <=? y)%Z && (y <=? 9999)%Z then padStart 4 zero (string_of_Z y)
  else (if (y <? 0)%Z then "-" else "+") ++ padStart 6 zero (string_of_Z (Z.abs y)).

(** [date.toISOString()] *)
Definition toISOString (date : JsDate) : completion string :=
  match getTime date with
  | None => ThrowsRangeError
  | Some t =>
      Returns (isoYear (YearFromTime t)
               ++ "-" ++ padStart 2 zero (string_of_Z (MonthFromTime t + 1))
               ++ "-" ++ padStart 2 zero (string_of_Z (DateFromTime t))
               ++ "T" ++ padStart 2 zero (string_of_Z (HourFromTime t))
               ++ ":" ++ padStart 2 zero (string_of_Z (MinFromTime t))
               ++ ":" ++ padStart 2 zero (string_of_Z (SecFromTime t))
               ++ "." ++ padStart 3 zero (string_of_Z (msFromTime t))
               ++ "Z")
  end.

(** The time zone of the host: the offset of local time, in
    milliseconds, at a time value. *)
Record Zone : Type := MkZone { LocalTZA : Z -> Z }.


Definition LocalTime (zone : Zone) (t : Z) : Z := (t + LocalTZA zone t)%Z.

(** The getters of local time: NaN, here [None], on an invalid date. *)
Definition getFullYear (zone : Zone) (date : JsDate) : option Z :=
  option_map (fun t => YearFromTime (LocalTime zone t)) (getTime date).

Definition getMonth (zone : Zone) (date : JsDate) : option Z :=
  option_map (fun t => MonthFromTime (LocalTime zone t)) (getTime date).

Definition getDate (zone : Zone) (date : JsDate) : option Z :=
  option_map (fun t => DateFromTime (LocalTime zone t)) (getTime date).

Definition getHours (zone : Zone) (date : JsDate) : option Z :=
  option_map (fun t => HourFromTime (LocalTime zone t)) (getTime date).

Definition getMinutes (zone : Zone) (date : JsDate) : option Z :=
  option_map (fun t => MinFromTime (LocalTime zone t)) (getTime date).

(** [x + 1] *)
Definition plus1 (x : option Z) : option Z := option_map (fun n => (n + 1)%Z) x.

(** *** Sets and maps of strings, in insertion order *)

(** [set.add(key)] *)
Definition set_add (key : string) (set : list string) : list string :=
  if existsb (String.eqb key) set then set else (set ++ [key])%list.

(** [map.has(key)] *)
Definition map_has {V} (key : string) (map : list (string * V)) : bool :=
  existsb (fun e => fst e =? key) map.

(** [map.set(key, v)]: a new key goes last, a known key keeps its
    place. *)
Definition map_set {V} (key : string) (v : V) (map : list (string * V)) : list (string * V) :=
  if map_has key map
  then List.map (fun e => if fst e =? key then (fst e, v) else e) map
  else (map ++ [(key, v)])%list.

(** [map.get(key).push(x)] on a map of arrays: the array that the map
    holds under [key] grows. *)
Definition map_push {V} (key : string) (x : V) (map : list (string * list V))
  : list (string * list V) :=
  List.map (fun e => if fst e =? key then (fst e, (snd e ++ [x])%list) else e) map.

(** [new Map(entries)] *)
Definition new_Map {V} (entries : list (string * V)) : list (string * V) :=
  fold_left (fun map e => map_set (fst e) (snd e) map) entries [].

(** [String(entry)] for an entry [[key, convs]] of a map of arrays of
    objects: the elements are joined by commas, and an object prints as
    [[object Object]]. *)
Definition entryString {V} (entry : string * list V) : string :=
  fst entry ++ "," ++ join "," (List.map (fun _ => "[object Object]") (snd entry)).

(** [entries.sort()]: ascending by [String(entry)], entries that print
    alike in their former order. *)
Fixpoint insertEntry {V} (x : string * list V) (l : list (string * list V))
  : list (string * list V) :=
  match l with
  | [] => [x]
  | y :: r => if String.ltb (entryString y) (entryString x)
              then y :: insertEntry x r
              else x :: y :: r
  end.

Fixpoint sortEntries {V} (l : list (string * list V)) : list (string * list V) :=
  match l with
  | [] => []
  | x :: r => insertEntry x (sortEntries r)
  end.

(** ** The methods *)

Definition sourceName (s : Source) : string :=
  match s with
  | Gemini => "Gemini"
  | ChatGPT => "ChatGPT"
  | AI => "AI"
  end.

Section Rendering.

Variable host : Host.
Variable zone : Zone.

(** [conv.createTime || conv.updateTime || new Date()] *)
Definition dateOf (conv : Conversation) : JsDate :=
  match createTime conv with
  | Some date => date
  | None =>
      match updateTime conv with
      | Some date => date
      | None => MkDate (Some (Date_now host))
      end
  end.

(** [`${date.getFullYear()}-${String(date.getMonth() + 1).padStart(2, '0')}`] *)
Definition monthKey (date : JsDate) : string :=
  numberToString (getFullYear zone date) ++ "-"
  ++ padStart 2 zero (numberToString (plus1 (getMonth zone date))).

(** [date.getFullYear().toString()] *)
Definition yearKey (date : JsDate) : string :=
  numberToString (getFullYear zone date).

(** *** getUniqueMonths, getUniqueYears (lines 678-695) *)

Definition getUniqueMonths (this : AIChatConverter) : list string :=
  fold_left (fun months conv => set_add (monthKey (dateOf conv)) months)
            (conversations this) [].

Definition getUniqueYears (this : AIChatConverter) : list string :=
  fold_left (fun years conv => set_add (yearKey (dateOf conv)) years)
            (conversations this) [].

(** *** updateOutputFileCount (lines 660-676): the count that it
    writes to [outputFiles.textContent] *)
Definition updateOutputFileCount (this : AIChatConverter) (exportType : string) : nat :=
  if exportType =? "per_chat" then List.length (conversations this)
  else if exportType =? "per_month" then List.length (getUniqueMonths this)
  else if exportType =? "per_year" then List.length (getUniqueYears this)
  else 0.

(** *** groupByMonth, groupByYear (lines 764-795) *)

(** The callback of [this.conversations.forEach], for the key [key] of
    [conv]. *)
Definition addToGroup (groups : list (string * list Conversation))
           (key : string) (conv : Conversation) : list (string * list Conversation) :=
  let groups := if negb (map_has key groups) then map_set key [] groups else groups in
  map_push key conv groups.

Definition groupByMonth (this : AIChatConverter) : list (string * list Conversation) :=
  let groups :=
    fold_left (fun groups conv => addToGroup groups (monthKey (dateOf conv)) conv)
              (conversations this) [] in
  new_Map (sortEntries groups).

Definition groupByYear (this : AIChatConverter) : list (string * list Conversation) :=
  let groups :=
    fold_left (fun groups conv => addToGroup groups (yearKey (dateOf conv)) conv)
              (conversations this) [] in
  new_Map (sortEntries groups).

(** *** formatISODate (lines 849-855), for an argument that is [null]
    or a [Date], as every caller passes *)
Definition formatISODate (date : option JsDate) : completion string :=
  match date with
  | None => Returns ""
  | Some date => toISOString date
  end.

(** *** getAILabel (lines 857-866) *)
Definition getAILabel (this : AIChatConverter) : string :=
  match detectedSource this with
  | ChatGPT => "ChatGPT"
  | Gemini => "Gemini"
  | AI => "AI"
  end.

(** [md += `label${this.formatISODate(date)}tail\n`] under [if (date)] *)
Definition dateLine (md label : string) (date : option JsDate) (tail : string)
  : completion string :=
  match date with
  | Some _ =>
      let! iso := formatISODate date in
      Returns (md ++ label ++ iso ++ tail ++ nl)
  | None => Returns md
  end.

(** The callback of [conv.messages.forEach], the same in both renderers
    but for the heading: what one message adds to [md]. *)
Definition messageToMarkdown (heading : string) (md : string) (msg : Message)
  : completion string :=
  let roleLabel := if is_str "user" (role msg) then "User" else "Assistant" in
  let md := md ++ heading ++ roleLabel ++ nl in
  let! md := dateLine md "*Time (UTC): " (timestamp msg) "*" in
  let md := md ++ nl in
  let! text := stringOf (content msg) in
  Returns (md ++ text ++ nl ++ nl).

(** [l.forEach(x => { md = f md x })] *)
Fixpoint foldM {A B} (f : B -> A -> completion B) (l : list A) (md : B) : completion B :=
  match l with
  | [] => Returns md
  | x :: r => let! md := f md x in foldM f r md
  end.

(** The pattern of [replace] in the title line: one double quote, with
    the flag [g]. *)
Definition re_quote (s : string) : option nat := re_lit dquote s.

(** *** conversationToMarkdown (lines 797-844) *)
Definition conversationToMarkdown (this : AIChatConverter) (conv : Conversation)
  : completion string :=
  let md := "" in
  let aiLabel := getAILabel this in
  let sourcePrefix := lower (sourceName (detectedSource this)) in
  let md := md ++ "---" ++ nl in
  let! shown := asString (or_ (title conv) (VStr "会話")) in
  let md := md ++ "title: " ++ dquote ++ replace_all re_quote ("\" ++ dquote) 0 shown
               ++ dquote ++ nl in
  let! idText := stringOf (id conv) in
  let md := md ++ sourcePrefix ++ "_conversation_id: " ++ dquote ++ idText ++ dquote ++ nl in
  let! md := dateLine md "created_utc: " (createTime conv) "" in
  let! md := dateLine md "updated_utc: " (updateTime conv) "" in
  let md := md ++ "---" ++ nl ++ nl in
  let! heading := stringOf (or_ (title conv) (VStr "会話")) in
  let md := md ++ "# " ++ heading ++ nl ++ nl in
  let! md := dateLine md "- Created (UTC): " (createTime conv) "" in
  let! md := dateLine md "- Updated (UTC): " (updateTime conv) "" in
  let md := match createTime conv, updateTime conv with
            | None, None => md
            | _, _ => md ++ nl
            end in
  let md := md ++ "---" ++ nl ++ nl in
  foldM (messageToMarkdown "## ") (messages conv) md.

(** *** multiConversationsToMarkdown (lines 868-911) *)

(** The callback of [conversations.forEach]. *)
Definition sectionToMarkdown (this : AIChatConverter) (md : string)
           (conv : Conversation) (index : nat) : completion string :=
  let! heading := stringOf (or_ (title conv) (VStr "会話")) in
  let md := md ++ "## " ++ string_of_nat (index + 1) ++ ". " ++ heading ++ nl ++ nl in
  let! named := (if truthy (id conv)
                 then let! s := asString (id conv) in
                      Returns (negb (starts_with "conversation_" s))
                 else Returns false) in
  let! md := (if named
              then let sourcePrefix := lower (sourceName (detectedSource this)) in
                   let! idText := stringOf (id conv) in
                   Returns (md ++ "- " ++ sourcePrefix ++ "_conversation_id: " ++ idText ++ nl)
              else Returns md) in
  let! md := dateLine md "- Created (UTC): " (createTime conv) "" in
  let! md := dateLine md "- Updated (UTC): " (updateTime conv) "" in
  let md := if truthy (id conv) then md ++ nl
            else match createTime conv, updateTime conv with
                 | None, None => md
                 | _, _ => md ++ nl
                 end in
  let! md := foldM (messageToMarkdown "### ") (messages conv) md in
  Returns (md ++ "---" ++ nl ++ nl).

(** [l.forEach((x, index) => { md = f md x index })], counting from
    [index]. *)
Fixpoint foldMi {A B} (f : B -> A -> nat -> completion B) (l : list A) (index : nat) (md : B)
  : completion B :=
  match l with
  | [] => Returns md
  | x :: r => let! md := f md x index in foldMi f r (S index) md
  end.

Definition multiConversationsToMarkdown (this : AIChatConverter)
           (conversations : list Conversation) (periodKey : string) : completion string :=
  let sourceLabel := match detectedSource this with
                     | AI => "AI Chat"
                     | s => sourceName s
                     end in
  let md := "# " ++ sourceLabel ++ " 会話履歴 - " ++ periodKey ++ nl ++ nl in
  let md := md ++ "**会話数**: " ++ string_of_nat (List.length conversations) ++ nl ++ nl in
  let md := md ++ "---" ++ nl ++ nl in
  foldMi (sectionToMarkdown this) conversations 0 md.

(** *** sanitizeFilename (lines 913-918) *)

(** The class of the first [replace]: backslash, slash, colon, star,
    question mark, double quote, the angle brackets and the bar. *)
Definition is_reserved (c : ascii) : bool :=
  existsb (Ascii.eqb c)
          ["\"%char; "/"%char; ":"%char; "*"%char; "?"%char; ascii_of_nat 34;
           "<"%char; ">"%char; "|"%char].

(** A pattern of one character of the class [f]. *)
Definition re_class (f : ascii -> bool) (s : string) : option nat :=
  match s with
  | String c _ => if f c then Some 1 else None
  | EmptyString => None
  end.

(** [\s+]: the white space at the head, all of it. *)
Definition re_spaces (s : string) : option nat :=
  let n := taken s (trimStart s) in
  if (1 <=? n)%nat then Some n else None.

Definition sanitizeFilename (name : value) : completion string :=
  let! name := asString name in
  Returns (substring0 100
             (replace_all re_spaces "_" 0
                (replace_all (re_class is_reserved) "_" 0 name))).

(** *** generateFilename (lines 924-950) *)

Definition is_hex (c : ascii) : bool :=
  let n := nat_of_ascii (lower_char c) in
  ((48 <=? n)%nat && (n <=? 57)%nat) || ((97 <=? n)%nat && (n <=? 102)%nat).

(** [n] characters of the class [f] at the head of [s]: what is left of
    [s] after them. *)
Fixpoint eat_class (f : ascii -> bool) (n : nat) (s : string) : option string :=
  match n with
  | O => Some s
  | S k => match s with
           | String c r => if f c then eat_class f k r else None
           | EmptyString => None
           end
  end.

(** [-] and then [n] hexadecimal digits. *)
Definition eat_group (n : nat) (s : string) : option string :=
  match s with
  | String "-" r => eat_class is_hex n r
  | _ => None
  end.

(** [/^[0-9a-f]{8}-[0-9a-f]{4}-[0-9a-f]{4}-[0-9a-f]{4}-[0-9a-f]{12}$/i.test(s)] *)
Definition uuidPattern (s : string) : bool :=
  match eat_class is_hex 8 s with
  | Some r =>
      match eat_group 4 r with
      | Some r =>
          match eat_group 4 r with
          | Some r =>
              match eat_group 4 r with
              | Some r =>
                  match eat_group 12 r with
                  | Some r => r =? ""
                  | None => false
                  end
              | None => false
              end
          | None => false
          end
      | None => false
      end
  | None => false
  end.

(** [title && title.trim() !== '' && !uuidPattern.test(title)
     && title !== `会話 ${index + 1}`] *)
Definition isValidTitle (title : value) (index : nat) : completion bool :=
  if truthy title then
    let! s := asString title in
    Returns (negb (trim_string s =? "")
             && negb (uuidPattern s)
             && negb (s =? "会話 " ++ string_of_nat (index + 1)))
  else Returns false.

Definition generateFilename (conv : Conversation) (index : nat) (prefix : string)
  : completion string :=
  let title := title conv in
  let! valid := isValidTitle title index in
  if valid then sanitizeFilename title
  else
    match createTime conv with
    | Some date =>
        let dateStr :=
          numberToString (getFullYear zone date)
          ++ padStart 2 zero (numberToString (plus1 (getMonth zone date)))
          ++ padStart 2 zero (numberToString (getDate zone date)) in
        let timeStr :=
          padStart 2 zero (numberToString (getHours zone date))
          ++ padStart 2 zero (numberToString (getMinutes zone date)) in
        Returns (prefix ++ "_" ++ dateStr ++ "_" ++ timeStr ++ "_"
                 ++ padStart 3 zero (string_of_nat (index + 1)))
    | None =>
        Returns (prefix ++ "_conversation_" ++ padStart 3 zero (string_of_nat (index + 1)))
    end.

(** *** generateMarkdownFiles (lines 727-762): the files, each a name
    and a content *)

(** [l.forEach((x, index) => files.push(f x index))], counting from
    [index]. *)
Fixpoint mapMi {A B} (f : A -> nat -> completion B) (l : list A) (index : nat)
  : completion (list B) :=
  match l with
  | [] => Returns []
  | x :: r =>
      let! y := f x index in
      let! ys := mapMi f r (S index) in
      Returns (y :: ys)
  end.

Definition filePrefix (this : AIChatConverter) : string :=
  match detectedSource this with
  | ChatGPT => "chatgpt"
  | Gemini => "gemini"
  | AI => "ai_chat"
  end.

(** The callback of [byMonth.forEach] and of [byYear.forEach]. *)
Definition periodFile (this : AIChatConverter) (prefix : string)
           (entry : string * list Conversation) : completion (string * string) :=
  let filename := prefix ++ "_" ++ fst entry ++ ".md" in
  let! content := multiConversationsToMarkdown this (snd entry) (fst entry) in
  Returns (filename, content).

Definition generateMarkdownFiles (this : AIChatConverter) (exportType : string)
  : completion (list (string * string)) :=
  let prefix := filePrefix this in
  if exportType =? "per_chat" then
    mapMi (fun conv index =>
             let! name := generateFilename conv index prefix in
             let filename := name ++ ".md" in
             let! content := conversationToMarkdown this conv in
             Returns (filename, content))
          (conversations this) 0
  else if exportType =? "per_month" then
    mapMi (fun entry _ => periodFile this prefix entry) (groupByMonth this) 0
  else if exportType =? "per_year" then
    mapMi (fun entry _ => periodFile this prefix entry) (groupByYear this) 0
  else Returns [].

End Rendering.

(** * The vocabulary of the further properties *)

(** ** What a parser does to the converter *)

(** [this] after [cs] were pushed to its list. *)
Definition pushAll (cs : list Conversation) (this : AIChatConverter) : AIChatConverter :=
  {| jsonData := jsonData this;
     fileName := fileName this;
     conversations := (conversations this ++ cs)%list;
     detectedSource := detectedSource this |}.

(** A method that only pushes: how it ends and what it pushes depend on
    its arguments alone, and it writes no other field. *)
Definition writes {A} (m : M A) : Prop :=
  exists o cs, forall this, m this = (o, pushAll cs this).

(** A conversation as one of the five callbacks builds it. *)
Definition built (host : Host) (c : Conversation) : Prop :=
  (exists conv index, arrayConversation host conv index = Ok c)
  \/ (exists chat index, takeoutConversation host chat index = Ok c)
  \/ (exists activity index, activityConversation host activity index = Ok c)
  \/ (exists data, singleConversation host data = Ok c)
  \/ (exists data, apiConversation host data = Ok c).

(** The file name holds one of the Gemini patterns. *)
Definition namedGemini (name : string) : bool :=
  existsb (fun pattern => str_includes (lower pattern) (lower name)) geminiPatterns.

(** [currentNode && mapping[currentNode]]: the test that selects the
    walk from the leaf, where it does not throw. *)
Definition leafResolves (mapping currentNode : value) : bool :=
  truthy currentNode
  && match ToString currentNode with
     | Some key => truthy (get mapping key)
     | None => false
     end.

(** The user text message that the first loop of
    [extractConversationIdFromMapping] looks for. *)
Definition userTextNode (node : value) : bool :=
  let message := get node "message" in
  truthy message
  && truthy (get message "author")
  && is_str "user" (get (get message "author") "role")
  && truthy (get message "content")
  && is_str "text" (get (get message "content") "content_type").

(** ** Strings, character by character *)

Definition chars (s : string) : list ascii := list_ascii_of_string s.

(** No mark-up: neither a tag nor an entity can start. *)
Definition markupFree (s : string) : Prop :=
  forall c, In c (chars s) -> c <> "<"%char /\ c <> "&"%char.

(** Three line feeds in a row. *)
Definition blankLines : string := nl ++ nl ++ nl.

(** No character of the reserved class. *)
Definition unreserved (s : string) : bool :=
  forallb (fun c => negb (is_reserved c)) (chars s).

(** [c] is the first byte of a white-space character. *)
Definition space_lead (c : ascii) : bool :=
  existsb (fun w => match w with
                    | String a _ => Ascii.eqb a c
                    | EmptyString => false
                    end) white_space.

(** Bytes that continue a character, all of them. *)
Fixpoint all_cont (s : string) : bool :=
  match s with
  | EmptyString => true
  | String c r => is_cont c && all_cont r
  end.

(** No white space: no white-space character starts anywhere in [s]. *)
Fixpoint spaceless (s : string) : bool :=
  match s with
  | EmptyString => true
  | String _ r => (space_width s =? 0)%nat && spaceless r
  end.

(** A name that [sanitizeFilename] has nothing to do on: at most 100
    code units, no reserved character, no white space. *)
Definition safeName (s : string) : bool :=
  (units s <=? 100)%nat && unreserved s && spaceless s.

(** What follows the last underscore of [s]; [s] itself when it has
    none. *)
Fixpoint afterLast (s : string) : string :=
  match s with
  | EmptyString => EmptyString
  | String c r =>
      if existsb (Ascii.eqb "_") (chars r) then afterLast r
      else if Ascii.eqb c "_" then r
      else s
  end.

(** ** Conversations that can be exported *)

(** [null] or a valid [Date]. *)
Definition validDate (date : option JsDate) : bool :=
  match date with
  | Some date => match getTime date with Some _ => true | None => false end
  | None => true
  end.

(** A value on which a string method may be called behind a test for
    truthiness: falsy, or a string. *)
Definition stringOrFalsy (v : value) : bool := negb (truthy v) || is_string v.

(** Valid dates throughout: the conversation's and its messages'. *)
Definition datesValid (conv : Conversation) : bool :=
  validDate (createTime conv) && validDate (updateTime conv)
  && forallb (fun msg => validDate (timestamp msg)) (messages conv).

(** Every content converts to a string. *)
Definition contentsConvert (conv : Conversation) : bool :=
  forallb (fun msg => converts (content msg)) (messages conv).

(** What the one-conversation renderer needs: a title that is falsy or
    a string, an id and contents that convert, valid dates. *)
Definition exportable (conv : Conversation) : bool :=
  stringOrFalsy (title conv) && converts (id conv)
  && datesValid conv && contentsConvert conv.

(** What the renderer of a period needs: a title and contents that
    convert, an id that is falsy or a string, valid dates. *)
Definition exportableInPeriod (conv : Conversation) : bool :=
  converts (title conv) && stringOrFalsy (id conv)
  && datesValid conv && contentsConvert conv.

(** The month and the year under which the export files a
    conversation. *)
Definition monthOf (host : Host) (zone : Zone) (conv : Conversation) : string :=
  monthKey zone (dateOf host conv).

Definition yearOf (host : Host) (zone : Zone) (conv : Conversation) : string :=
  yearKey zone (dateOf host conv).

(** The groups of a partition of [convs] by [key]: the keys are
    distinct, each group holds the conversations of its key, in their
    order in [convs], and is not empty, and every conversation has its
    group. *)
Definition partitions (key : Conversation -> string) (convs : list Conversation)
           (groups : list (string * list Conversation)) : Prop :=
  NoDup (map fst groups)
  /\ Forall (fun g => snd g = filter (fun c => key c =? fst g) convs /\ snd g <> []) groups
  /\ (forall c, In c convs -> In (key c) (map fst groups)).

(** ** Predicates of the proofs *)

(** A truthy [id] and a truthy [title]. *)
Definition named (c : Conversation) : Prop := truthy (id c) = true /\ truthy (title c) = true.

(** The converter when the dispatch starts: after the reset and the look
    at the file name. *)
Definition detected (this : AIChatConverter) : AIChatConverter :=
  snd (detectSourceFromFileName (snd (reset this))).

(** The roles of the walk from the leaf. *)
Definition turn (m : Message) : Prop := role m = VStr "user" \/ role m = VStr "assistant".

(** The roles that the sorted mode cannot give. *)
Definition sortedRole (m : Message) : Prop :=
  role m <> VStr "system" /\ role m <> VStr "model".

(** A message as [parseApiFormat] builds it. *)
Definition apiMessage (m : Message) : Prop :=
  timestamp m = None /\ role m <> VStr "model" /\ truthy (role m) = true
  /\ truthy (content m) = true.

(** A pattern that can only match where mark-up starts. *)
Definition at_markup (m : string -> option nat) : Prop :=
  forall s n, m s = Some n ->
    exists c r, s = String c r /\ (c = "<"%char \/ c = "&"%char).

(** How many characters of the class [f] stand at the head of [s]. *)
Fixpoint run (f : ascii -> bool) (s : string) : nat :=
  match s with
  | String c r => if f c then S (run f r) else 0
  | EmptyString => 0
  end.

Definition is_nl : ascii -> bool := Ascii.eqb (ascii_of_nat 10).

(** The number that a string of digits denotes, leading zeros allowed. *)
Definition digits_value (s : string) : option N :=
  option_map N.of_uint (NilEmpty.uint_of_string s).

(** One turn of the loop of [groupByMonth] and [groupByYear], for the
    key function [key]. *)
Definition groupStep (key : Conversation -> string)
           (groups : list (string * list Conversation)) (conv : Conversation)
  : list (string * list Conversation) :=
  addToGroup groups (key conv) conv.

(** * A host and documents to run the model on

    An engine whose [Date.parse] knows one ISO string, whose clock stands
    at the epoch, and whose sort is an insertion sort on the integer
    [create_time] of a node (anything else counts as [0]). *)

Definition createTimeKey (node : value) : Z :=
  match get (get node "message") "create_time" with
  | VNum n => n
  | _ => 0%Z
  end.

Fixpoint insertNode (x : value) (l : list value) : list value :=
  match l with
  | [] => [x]
  | y :: r => if (createTimeKey x <? createTimeKey y)%Z then x :: y :: r
              else y :: insertNode x r
  end.

Fixpoint insertionSort (l : list value) : list value :=
  match l with
  | [] => []
  | x :: r => insertNode x (insertionSort r)
  end.

Definition sampleHost : Host :=
  {| Date_parse := fun s => if s =? "2024-01-01T00:00:00Z"
                            then Some 1704067200000%Z else None;
     Date_now := 0%Z;
     string_positive := fun _ => false;
     sort_by_create_time := insertionSort |}.

(** A host in Japan: local time is nine hours ahead of UTC. *)
Definition japan : Zone := {| LocalTZA := fun _ => 32400000%Z |}.

(** The converter as [processFile] leaves it before it calls
    [parseConversations]. *)
Definition loaded (name : string) (data : value) : AIChatConverter :=
  {| jsonData := data; fileName := name; conversations := []; detectedSource := AI |}.

(** A node that holds a text message of one part. *)
Definition textNode (author text : string) (parent : value) : value :=
  VObj [("message", VObj [("author", VObj [("role", VStr author)]);
                          ("content", VObj [("content_type", VStr "text");
                                            ("parts", VArr [VStr text])])]);
        ("parent", parent)].

(** A mapping of two nodes that name each other as parent. *)
Definition cyclicMapping : value :=
  VObj [("a", textNode "user" "question" (VStr "b"));
        ("b", textNode "assistant" "answer" (VStr "a"))].

(** A mapping whose only node is its own parent. *)
Definition selfMapping : value :=
  VObj [("a", textNode "user" "question" (VStr "a"))].

(** A mapping whose only node names the number 5 as its parent, under
    the key [5]. *)
Definition numericParentMapping : value :=
  VObj [("5", textNode "user" "question" (VNum 5))].

(** A chain of five nodes: a root without a message, then a user turn, an
    assistant turn, a system note and a user turn, the leaf. *)
Definition linearMapping : value :=
  VObj [("root", VObj [("message", VNull); ("parent", VNull)]);
        ("n1", textNode "user" "first" (VStr "root"));
        ("n2", textNode "assistant" "second" (VStr "n1"));
        ("n3", textNode "system" "note" (VStr "n2"));
        ("n4", textNode "user" "third" (VStr "n3"))].

(** The ancestors of its leaf [n4], from the leaf up. *)
Definition linearAncestors : list (string * value) :=
  [("n3", textNode "system" "note" (VStr "n2"));
   ("n2", textNode "assistant" "second" (VStr "n1"));
   ("n1", textNode "user" "first" (VStr "root"));
   ("root", VObj [("message", VNull); ("parent", VNull)])].

(** What each node of the chain contributes, from the leaf up. *)
Definition linearEntries : list (option Message) :=
  [Some {| role := VStr "user"; content := VStr "third"; timestamp := None |};
   None;
   Some {| role := VStr "assistant"; content := VStr "second"; timestamp := None |};
   Some {| role := VStr "user"; content := VStr "first"; timestamp := None |};
   None].

(** A Takeout document with one chat that has a message and one that has
    none. *)
Definition takeoutChats : value :=
  VArr [VObj [("title", VStr "Kept");
              ("messages", VArr [VObj [("sender", VStr "human"); ("text", VStr "Hi")]])];
        VObj [("title", VStr "Dropped"); ("messages", VArr [])]].

(** An export of three conversations: one with a [messages] array, one
    with a mapping and its leaf, one with a mapping and no leaf. *)
Definition typedExport : value :=
  VArr [VObj [("id", VStr "c1"); ("title", VStr "Plain");
              ("messages", VArr [VObj [("role", VStr "user"); ("content", VStr "Hi")];
                                 VObj [("author", VStr "Bot");
                                       ("content", VObj [("parts", VArr [VStr "Hello";
                                                                         VObj [("text", VStr "there")]])])];
                                 VNull])];
        VObj [("title", VStr "Graph"); ("mapping", linearMapping);
              ("current_node", VStr "n4")];
        VObj [("title", VStr "Sorted"); ("mapping", linearMapping)]].

(** An object that hides the method [toString] behind a number. *)
Definition unprintable : value := VObj [("toString", VNum 1)].

(** A node that holds a text message with a creation time. *)
Definition timedNode (text : string) (time : value) : value :=
  VObj [("message", VObj [("author", VObj [("role", VStr "user")]);
                          ("create_time", time);
                          ("content", VObj [("parts", VArr [VStr text])])])].

(** Documents of the other formats: Takeout, a single conversation, the
    API format, an activity log and a log for the generic scan. *)
Definition typedDocuments : list value :=
  [ VObj [("chats", VArr [VObj [("title", VStr "Kept");
                                ("messages", VArr [VObj [("sender", VStr "human");
                                                         ("text", VStr "Hi")]])]])];
    VObj [("title", VStr "One");
          ("messages", VArr [VObj [("role", VStr "user"); ("content", VStr "Hi")]])];
    VObj [("contents", VArr [VObj [("role", VStr "model");
                                   ("parts", VArr [VObj [("text", VStr "Hello")]])]])];
    VArr [VObj [("header", VStr "Gemini Apps"); ("title", VStr "What is Rocq?");
                ("safeHtmlItem", VArr [VObj [("html", VStr "<p>A prover.</p>")]]);
                ("time", VStr "2024-01-01T00:00:00Z")]];
    VObj [("chat_log", VArr [VObj [("title", VStr "Kept");
                                   ("messages", VArr [VObj [("role", VStr "user");
                                                            ("content", VStr "Hi")]])]])];
    VObj [("conversations",
           VArr [VObj [("mapping", VObj [("a", timedNode "one" (VNum 2));
                                         ("b", timedNode "two" (VNum 1))])]])];
    VNum 5; VStr "text"; VObj [] ].

(** Documents with a field of a type that the parsers cannot read: a
    [parent], a [current_node] and, among two nodes to sort, a
    [create_time] that do not convert; a [parts] that is a string; a
    part whose [text] does not convert; an activity whose [title] is a
    number, and one whose [time] does not convert; a turn of the API
    format that is [null]; a Takeout chat whose [messages] is a
    number. *)
Definition untypedDocuments : list value :=
  [ VArr [VObj [("mapping", VObj [("a", textNode "user" "hi" unprintable)]);
                ("current_node", VStr "a")]];
    VArr [VObj [("mapping", VObj [("a", textNode "user" "hi" VNull)]);
                ("current_node", unprintable)]];
    VArr [VObj [("mapping", VObj [("a", timedNode "one" unprintable);
                                  ("b", timedNode "two" (VNum 2))])]];
    VArr [VObj [("mapping",
                 VObj [("a", VObj [("message",
                                    VObj [("author", VObj [("role", VStr "user")]);
                                          ("content", VObj [("parts", VStr "x")])])])]);
                ("current_node", VStr "a")]];
    VObj [("messages",
           VArr [VObj [("role", VStr "user");
                       ("content", VObj [("parts", VArr [VObj [("text", unprintable)]])])]])];
    VArr [VObj [("header", VStr "Gemini Apps"); ("title", VNum 5)]];
    VArr [VObj [("header", VStr "Gemini Apps"); ("title", VStr "x");
                ("time", unprintable)]];
    VObj [("contents", VArr [VNull])];
    VObj [("chats", VArr [VObj [("messages", VNum 5)]])] ].

(** Two records without messages: one with a title, one with a name
    only. *)
Definition titledAndUntitled : list value :=
  [VObj [("title", VStr "Empty")]; VObj [("name", VStr "Unnamed")]].

(** Records and conversations for the export and for the other
    parsers. *)
Definition greeting : value := VObj [("role", VStr "user"); ("content", VStr "Hi")].

Definition keptRecord : value :=
  VObj [("title", VStr "Kept"); ("messages", VArr [greeting])].

Definition lostRecord : value :=
  VObj [("title", VStr "Lost"); ("messages", VArr [greeting])].

(** A document for the generic scan. *)
Definition chatLog : value := VObj [("chat_log", VArr [keptRecord])].

(** A document of the API format: one turn of the model, with a text
    part and a part without text. *)
Definition apiDocument : value :=
  VObj [("contents", VArr [VObj [("role", VStr "model");
                                 ("parts", VArr [VObj [("text", VStr "Hello")];
                                                 VObj [("inlineData", VNull)]])]])].

(** An activity whose [time] is no date. *)
Definition undatedActivity : value :=
  VObj [("header", VStr "Gemini Apps"); ("title", VStr "What is Rocq?");
        ("time", VStr "yesterday")].

(** A conversation with the title [Notes]. *)
Definition note (createTime : option JsDate) : Conversation :=
  {| id := VStr "n"; title := VStr "Notes"; createTime := createTime; updateTime := None;
     messages := [ {| role := VStr "user"; content := VStr "Hi"; timestamp := None |} ];
     _isChatGPT := false |}.

(** A conversation under the default title of its index. *)
Definition untitled (index : nat) (createTime : option JsDate) : Conversation :=
  {| id := VStr "u"; title := VStr ("会話 " ++ string_of_nat (index + 1));
     createTime := createTime; updateTime := None;
     messages := [ {| role := VStr "assistant"; content := VStr "Hello"; timestamp := None |} ];
     _isChatGPT := false |}.

Definition newYear2024 : JsDate := MkDate (Some 1704067200000%Z).

(** A converter that holds three conversations, two of them with the
    same title. *)
Definition notebook : AIChatConverter :=
  {| jsonData := VNull; fileName := "notes.json";
     conversations := [note (Some newYear2024); untitled 1 None; note None];
     detectedSource := AI |}.

(** * The run time at work *)

Example to_string_nested :
  to_string (VArr [VNum 1; VNull; VArr [VStr "a"; VNum (-2)]; VObj []])
  = Ok "1,,a,-2,[object Object]".
Proof. reflexivity. Qed.

(** An own property [toString] hides the method: the conversion throws,
    also from inside an array. *)
Example to_string_hidden :
  to_string (VObj [("toString", VNum 1)]) = TypeError
  /\ to_string (VArr [VStr "a"; VObj [("toString", VNull)]]) = TypeError
  /\ to_string (VObj [("valueOf", VNum 1)]) = Ok "[object Object]".
Proof. repeat split. Qed.

Example stringify_obj :
  stringify (VObj [("a", VArr [VNum 1; VBool true]); ("b", VStr "x")])
  = "{" ++ dquote ++ "a" ++ dquote ++ ":[1,true]," ++ dquote ++ "b" ++ dquote ++ ":" ++ dquote ++ "x" ++ dquote ++ "}".
Proof. reflexivity. Qed.

Example get_index : get (VArr [VStr "a"; VStr "b"]) "1" = VStr "b" /\ get (VArr [VStr "a"]) "01" = VUndef.
Proof. split; reflexivity. Qed.

Example trim_ex : trim_string "  a b
 " = "a b".
Proof. reflexivity. Qed.

(** The ideographic space is white space; a character of three bytes is
    one code unit, a character of four bytes two, and a cut between the
    two leaves the high surrogate. *)
Example unicode_ex :
  trim_string (utf8 12288 ++ " 会話" ++ utf8 12288 ++ "x " ++ utf8 160) = "会話" ++ utf8 12288 ++ "x"
  /\ units ("会話" ++ utf8 128512 ++ "x") = 5
  /\ substring0 2 ("会話" ++ utf8 128512 ++ "x") = "会話"
  /\ substring0 3 ("会話" ++ utf8 128512 ++ "x") = "会話" ++ utf8 55357
  /\ substring0 4 ("会話" ++ utf8 128512 ++ "x") = "会話" ++ utf8 128512
  /\ get (VStr ("会" ++ utf8 128512)) "2" = VStr (utf8 56832)
  /\ get (VStr ("会" ++ utf8 128512)) "3" = VUndef.
Proof. repeat split. Qed.

(** * The sample host sorts by rearranging *)

Lemma insertNode_perm x l : Permutation (insertNode x l) (x :: l).
Proof.
  induction l as [|y r IH]; simpl.
  - apply Permutation_refl.
  - destruct (createTimeKey x <? createTimeKey y)%Z.
    + apply Permutation_refl.
    + eapply Permutation_trans; [apply perm_skip, IH | apply perm_swap].
Qed.

Lemma insertionSort_perm l : Permutation (insertionSort l) l.
Proof.
  induction l as [|x r IH]; simpl.
  - constructor.
  - eapply Permutation_trans; [apply insertNode_perm | apply perm_skip, IH].
Qed.

(** The two examples of the specification, end to end. *)

Example array_example :
  conversations
    (snd (parseConversations sampleHost
            (loaded "export.json"
               (VArr [VObj [("id", VStr "c1"); ("title", VStr "Test");
                            ("messages",
                             VArr [VObj [("role", VStr "user"); ("content", VStr "Hi")];
                                   VObj [("role", VStr "model"); ("content", VStr "Hello")]])]]))))
  = [ {| id := VStr "c1"; title := VStr "Test"; createTime := None; updateTime := None;
         messages := [ {| role := VStr "user"; content := VStr "Hi"; timestamp := None |};
                       {| role := VStr "assistant"; content := VStr "Hello"; timestamp := None |} ];
         _isChatGPT := false |} ].
Proof. vm_compute. reflexivity. Qed.

Example activity_example :
  let stamp := Some (MkDate (Some 1704067200000%Z)) in
  snd (parseConversations sampleHost
         (loaded "MyActivity.json"
            (VArr [VObj [("header", VStr "Gemini Apps");
                         ("title", VStr "送信したメッセージ: Hello");
                         ("safeHtmlItem", VArr [VObj [("html", VStr "<p>Hi there</p>")]]);
                         ("time", VStr "2024-01-01T00:00:00Z")]])))
  = {| jsonData := VArr [VObj [("header", VStr "Gemini Apps");
                               ("title", VStr "送信したメッセージ: Hello");
                               ("safeHtmlItem", VArr [VObj [("html", VStr "<p>Hi there</p>")]]);
                               ("time", VStr "2024-01-01T00:00:00Z")]];
       fileName := "MyActivity.json";
       conversations :=
         [ {| id := VStr "gemini_activity_1"; title := VStr "Hello";
              createTime := stamp; updateTime := stamp;
              messages := [ {| role := VStr "user"; content := VStr "Hello"; timestamp := stamp |};
                            {| role := VStr "assistant"; content := VStr "Hi there";
                               timestamp := stamp |} ];
              _isChatGPT := false |} ];
       detectedSource := Gemini |}.
Proof. vm_compute. reflexivity. Qed.

(** * TimestampNormalizer *)

Section Timestamps.

Variable host : Host.

(** C10. [parseTimestamp] answers unknown for every falsy argument; in
    particular for the number 0 and for the empty string, so the epoch
    instant itself is never returned for the input 0. *)
Theorem parseTimestamp_falsy (v : value) :
  truthy v = false ->
  parseTimestamp host v = None
  /\ parseTimestamp host (VNum 0) = None
  /\ parseTimestamp host (VStr "") = None
  /\ parseTimestamp host (VNum 0) <> Some (asMilliseconds 0)
  /\ parseTimestamp host (VNum 0) <> Some (asSeconds 0).
Proof.
  intro Hv. unfold parseTimestamp. rewrite Hv. simpl.
  repeat split; discriminate.
Qed.

(** C7, amended. A number other than 0 is read as milliseconds when it
    exceeds 9,999,999,999 and as seconds otherwise; 1700000000 is read as
    seconds, 1700000000000 as milliseconds, and both are the same
    instant. *)
Theorem parseTimestamp_number (n : Z) :
  n <> 0%Z ->
  parseTimestamp host (VNum n)
  = Some (if (9999999999 <? n)%Z then asMilliseconds n else asSeconds n)
  /\ parseTimestamp host (VNum 1700000000) = Some (asSeconds 1700000000)
  /\ parseTimestamp host (VNum 1700000000000) = Some (asMilliseconds 1700000000000)
  /\ asSeconds 1700000000 = asMilliseconds 1700000000000.
Proof.
  intro Hn. repeat split.
  unfold parseTimestamp. simpl.
  destruct (Z.eqb_spec n 0) as [E|_]; [contradiction|]. simpl.
  rewrite Z.gtb_ltb. destruct (9999999999 <? n)%Z; reflexivity.
Qed.

End Timestamps.

Lemma parseTimestamp_falsy_witness :
  truthy (VNum 0) = false
  /\ parseTimestamp sampleHost (VNum 0) = None
  /\ parseTimestamp sampleHost (VNum 0) = None
  /\ parseTimestamp sampleHost (VStr "") = None
  /\ parseTimestamp sampleHost (VNum 0) <> Some (asMilliseconds 0)
  /\ parseTimestamp sampleHost (VNum 0) <> Some (asSeconds 0).
Proof.
  split; [reflexivity | apply (parseTimestamp_falsy sampleHost (VNum 0)); reflexivity].
Defined.

Lemma parseTimestamp_number_witness :
  9999999999%Z <> 0%Z
  /\ parseTimestamp sampleHost (VNum 9999999999)
     = Some (if (9999999999 <? 9999999999)%Z
             then asMilliseconds 9999999999 else asSeconds 9999999999)
  /\ parseTimestamp sampleHost (VNum 1700000000) = Some (asSeconds 1700000000)
  /\ parseTimestamp sampleHost (VNum 1700000000000) = Some (asMilliseconds 1700000000000)
  /\ asSeconds 1700000000 = asMilliseconds 1700000000000.
Proof.
  split; [lia | apply (parseTimestamp_number sampleHost 9999999999%Z); lia].
Defined.

(** C7 as stated fails twice: the two inputs of the example are one
    instant, 0 years apart, and the number 0 is read neither way. *)
Lemma parseTimestamp_boundary_counterexample :
  parseTimestamp sampleHost (VNum 1700000000) = Some (MkDate (Some 1700000000000%Z))
  /\ parseTimestamp sampleHost (VNum 1700000000000) = Some (MkDate (Some 1700000000000%Z))
  /\ parseTimestamp sampleHost (VNum 0) = None.
Proof. repeat split. Qed.

(** * MessageNormalizer *)

(** Small facts about the run time. *)

Lemma lower_empty s : lower s = "" -> s = "".
Proof. destruct s; simpl; [reflexivity | discriminate]. Qed.

Lemma truthy_str s : truthy (VStr s) = true -> s <> "".
Proof.
  simpl. destruct (String.eqb_spec s ""); [discriminate | auto].
Qed.

Lemma eqb_empty_false s : s <> "" -> (s =? "") = false.
Proof. intro H. destruct (String.eqb_spec s ""); [contradiction | reflexivity]. Qed.

(** ** Role resolution, in the words of the specification *)

Lemma authorAsRole_truthy a : truthy a = true -> truthy (authorAsRole a) = true.
Proof.
  intro H. unfold authorAsRole. rewrite H.
  destruct (is_string a); [exact H|].
  unfold or_. destruct (truthy (get a "role")) eqn:E; [exact E | reflexivity].
Qed.

(** The role block computes the role of the precedence list, except
    that it leaves the default to the end of [parseMessage]. *)
Lemma messageRole_precedence msg raw :
  messageRole msg = VStr raw ->
  (raw = "" /\ roleByPrecedence msg = VStr "user")
  \/ (raw <> "" /\ roleByPrecedence msg = VStr raw).
Proof.
  unfold messageRole, roleByPrecedence. simpl.
  destruct (truthy (get msg "role")) eqn:Hr.
  { intro E. right. rewrite E in *. split; [apply truthy_str, Hr | reflexivity]. }
  destruct (truthy (get msg "author")) eqn:Ha.
  { rewrite (authorAsRole_truthy _ Ha). unfold authorAsRole. rewrite Ha.
    intro E. right. split; [|exact E].
    apply truthy_str. rewrite <- E.
    destruct (is_string (get msg "author")); [exact Ha|].
    unfold or_. destruct (truthy (get (get msg "author") "role")) eqn:E'; [exact E' | reflexivity]. }
  assert (Hu : authorAsRole (get msg "author") = VUndef)
    by (unfold authorAsRole; rewrite Ha; reflexivity).
  rewrite Hu. simpl.
  destruct (truthy (get msg "sender")) eqn:Hs.
  { intro E. right. rewrite E in *. split; [apply truthy_str, Hs | reflexivity]. }
  destruct (truthy (get msg "from")) eqn:Hf.
  { intro E. right. rewrite E in *. split; [apply truthy_str, Hf | reflexivity]. }
  intro E. injection E as <-. left. split; reflexivity.
Qed.

Section Roles.

Variable host : Host.

(** C2, amended. The role of a returned message is the role of the
    precedence list, in lower case, with [model], [gemini], [ai] and [bot]
    collapsed to [assistant] and [human] to [user]; any other value is
    kept as it is. *)
Theorem parseMessage_role (msg : value) (m : Message) :
  parseMessage host msg = Ok (Some m) ->
  exists raw,
    roleByPrecedence msg = VStr raw
    /\ role m = VStr (collapseRole raw)
    /\ (role m = VStr "assistant" \/ role m = VStr "user" \/ role m = VStr (lower raw)).
Proof.
  unfold parseMessage.
  destruct (truthy msg); simpl; [|discriminate].
  unfold normalizeRole, toLowerCase.
  destruct (messageRole msg) as [| | | |raw0| |] eqn:Hrole; simpl; try discriminate.
  destruct (messageContent msg) as [c| |]; simpl; try discriminate.
  destruct (trim c) as [t| |]; simpl; try discriminate.
  destruct (t =? ""); [discriminate|].
  intro E. injection E as <-. simpl.
  destruct (messageRole_precedence _ _ Hrole) as [[-> Hp]|[Hne Hp]].
  - exists "user". split; [exact Hp|]. split; [reflexivity | right; left; reflexivity].
  - exists raw0. split; [exact Hp|].
    assert (Hl : lower raw0 <> "") by (intro E; apply Hne, lower_empty, E).
    assert (Hc : (if ((lower raw0 =? "model") || (lower raw0 =? "gemini")
                      || (lower raw0 =? "ai") || (lower raw0 =? "bot"))%bool
                  then "assistant"
                  else if lower raw0 =? "human" then "user" else lower raw0)
                 = collapseRole raw0).
    { unfold collapseRole. cbv zeta. simpl existsb.
      rewrite Bool.orb_false_r, !Bool.orb_assoc. reflexivity. }
    rewrite Hc.
    assert (Hcne : collapseRole raw0 <> "").
    { unfold collapseRole. cbv zeta.
      destruct (existsb _ _); [discriminate|].
      destruct (lower raw0 =? "human"); [discriminate | exact Hl]. }
    rewrite (eqb_empty_false _ Hcne). split; [reflexivity|].
    unfold collapseRole. cbv zeta.
    destruct (existsb _ _); [left; reflexivity|].
    destruct (lower raw0 =? "human"); [right; left; reflexivity | right; right; reflexivity].
Qed.

End Roles.

Lemma parseMessage_role_witness :
  parseMessage sampleHost (VObj [("author", VObj [("role", VStr "Gemini")]);
                                 ("sender", VStr "human"); ("text", VStr "Hello")])
  = Ok (Some {| role := VStr "assistant"; content := VStr "Hello"; timestamp := None |})
  /\ exists raw,
      roleByPrecedence (VObj [("author", VObj [("role", VStr "Gemini")]);
                              ("sender", VStr "human"); ("text", VStr "Hello")]) = VStr raw
      /\ role {| role := VStr "assistant"; content := VStr "Hello"; timestamp := None |}
         = VStr (collapseRole raw)
      /\ (role {| role := VStr "assistant"; content := VStr "Hello"; timestamp := None |}
          = VStr "assistant"
          \/ role {| role := VStr "assistant"; content := VStr "Hello"; timestamp := None |}
             = VStr "user"
          \/ role {| role := VStr "assistant"; content := VStr "Hello"; timestamp := None |}
             = VStr (lower raw)).
Proof.
  split; [reflexivity|].
  apply (parseMessage_role sampleHost
           (VObj [("author", VObj [("role", VStr "Gemini")]);
                  ("sender", VStr "human"); ("text", VStr "Hello")])).
  reflexivity.
Defined.

(** C2 as stated fails: a role outside the synonyms is returned as it
    is, neither [user] nor [assistant]. *)
Lemma parseMessage_role_counterexample :
  exists m,
    parseMessage sampleHost (VObj [("role", VStr "System"); ("content", VStr "Be brief.")])
    = Ok (Some m)
    /\ role m = VStr "system"
    /\ role m <> VStr "user"
    /\ role m <> VStr "assistant".
Proof.
  eexists. split; [reflexivity|]. repeat split; discriminate.
Qed.

(** ** Content resolution, in the words of the specification *)

Lemma filterM_mapM {A B} (f : A -> outcome bool) (g : A -> outcome B)
      (e : A -> outcome (option B)) (l : list A) :
  (forall x, agrees f g e x) ->
  (let* kept := filterM f l in mapM g kept)
  = (let* found := mapM e l in Ok (somes found)).
Proof.
  intro H. induction l as [|x r IH]; [reflexivity|].
  cbn [filterM mapM]. specialize (H x). unfold agrees in H.
  destruct (e x) as [[y|]| |]; cbn [obind].
  - destruct H as [-> Hg]. cbn [obind].
    destruct (filterM f r) as [kept| |]; destruct (mapM e r) as [found| |];
      cbn [obind mapM] in *; rewrite ?Hg; cbn [obind]; try discriminate; try reflexivity.
    + rewrite IH. reflexivity.
    + rewrite IH. reflexivity.
    + rewrite IH. reflexivity.
  - rewrite H. cbn [obind].
    destruct (filterM f r) as [kept| |]; destruct (mapM e r) as [found| |];
      cbn [obind] in *; try discriminate; try reflexivity; exact IH.
  - rewrite H. reflexivity.
  - rewrite H. reflexivity.
Qed.

Lemma agrees_contentParts p :
  agrees (fun p => if is_string p then Ok true
                   else let* t := getp p "text" in Ok (truthy t))
         (fun p => if is_string p then Ok p else getp p "text")
         entryText p.
Proof.
  unfold agrees, entryText.
  destruct p; cbn; try reflexivity; try (split; reflexivity);
    match goal with |- context [truthy ?t] => destruct (truthy t) eqn:E end;
    cbn; rewrite ?E; auto.
Qed.

Lemma agrees_parts p :
  agrees (fun p => let* t := getp p "text" in Ok (truthy t || is_string p)%bool)
         (fun p => let* t := getp p "text" in Ok (or_ t p))
         entryText p.
Proof.
  unfold agrees, entryText, or_.
  destruct p; cbn; try reflexivity; try (split; reflexivity);
    match goal with |- context [truthy ?t] => destruct (truthy t) eqn:E end;
    cbn; rewrite ?E; auto.
Qed.

Lemma contentPartsText_joined parts :
  (let* s := contentPartsText parts in Ok (VStr s)) = joinedParts parts.
Proof.
  unfold contentPartsText, joinedParts.
  destruct (elements parts) as [items| |]; cbn [obind]; try reflexivity.
  pose proof (filterM_mapM _ _ entryText items agrees_contentParts) as E. cbn beta in E.
  destruct (filterM _ items) as [kept| |]; cbn [obind] in *.
  - rewrite E. destruct (mapM entryText items); reflexivity.
  - destruct (mapM entryText items); cbn [obind] in *; try discriminate; reflexivity.
  - destruct (mapM entryText items); cbn [obind] in *; try discriminate; reflexivity.
Qed.

Lemma partsText_joined parts :
  (let* s := partsText parts in Ok (VStr s)) = joinedParts parts.
Proof.
  unfold partsText, joinedParts.
  destruct (elements parts) as [items| |]; cbn [obind]; try reflexivity.
  pose proof (filterM_mapM _ _ entryText items agrees_parts) as E. cbn beta in E.
  destruct (filterM _ items) as [kept| |]; cbn [obind] in *.
  - rewrite E. destruct (mapM entryText items); reflexivity.
  - destruct (mapM entryText items); cbn [obind] in *; try discriminate; reflexivity.
  - destruct (mapM entryText items); cbn [obind] in *; try discriminate; reflexivity.
Qed.

(** The content block follows the list of sources. *)
Lemma messageContent_precedence msg : messageContent msg = contentByPrecedence msg.
Proof.
  unfold messageContent, contentByPrecedence, contentSources. cbv zeta. cbn [find fst].
  destruct (truthy (get msg "content")) eqn:Hc; cbn [andb].
  - destruct (is_string (get msg "content")) eqn:Hs; [reflexivity|].
    destruct (truthy (get (get msg "content") "parts")).
    + apply contentPartsText_joined.
    + destruct (truthy (get (get msg "content") "text")); reflexivity.
  - destruct (truthy (get msg "parts")).
    + apply partsText_joined.
    + destruct (truthy (get msg "text")); [reflexivity|].
      destruct (truthy (get msg "message")); [|reflexivity].
      unfold stringified. destruct (get msg "message"); reflexivity.
Qed.

Section Contents.

Variable host : Host.

(** C6, amended. The content of a message is resolved from the list of
    sources: string [content], [content.parts], [content.text], then,
    only when [content] is falsy, [parts], [text] and [message]; both
    [parts] arrays go through one filter and join rule. A returned
    message holds the trimmed text, which is not empty. A truthy
    [content] that is no string and has neither [parts] nor [text]
    resolves to the empty text, whatever the later fields hold, and the
    record is no message. *)
Theorem parseMessage_content_precedence (msg : value) :
  messageContent msg = contentByPrecedence msg
  /\ (forall m, parseMessage host msg = Ok (Some m) ->
        exists s, contentByPrecedence msg = Ok (VStr s)
                  /\ content m = VStr (trim_string s)
                  /\ trim_string s <> "")
  /\ (truthy (get msg "content") = true ->
      is_string (get msg "content") = false ->
      truthy (get (get msg "content") "parts") = false ->
      truthy (get (get msg "content") "text") = false ->
      contentByPrecedence msg = Ok (VStr "")
      /\ forall m, parseMessage host msg <> Ok (Some m)).
Proof.
  split; [apply messageContent_precedence|]. split.
  - intros m. unfold parseMessage.
    destruct (truthy msg); cbn [negb]; [|discriminate].
    destruct (normalizeRole (messageRole msg)) as [r| |]; cbn [obind]; try discriminate.
    rewrite messageContent_precedence.
    destruct (contentByPrecedence msg) as [c| |]; cbn [obind]; try discriminate.
    destruct c; cbn [trim obind]; try discriminate.
    destruct (String.eqb_spec (trim_string s) ""); [discriminate|].
    intro E. injection E as <-. exists s. auto.
  - intros Hc Hs Hp Ht.
    assert (E : contentByPrecedence msg = Ok (VStr "")).
    { unfold contentByPrecedence, contentSources. cbv zeta. cbn [find fst].
      rewrite Hc, Hs, Hp, Ht. reflexivity. }
    split; [exact E|].
    intros m. unfold parseMessage.
    destruct (truthy msg); cbn [negb]; [|discriminate].
    destruct (normalizeRole (messageRole msg)) as [r| |]; cbn [obind]; try discriminate.
    rewrite messageContent_precedence, E. cbn. discriminate.
Qed.

End Contents.

Lemma parseMessage_content_precedence_witness :
  let msg := VObj [("content", VObj [("content_type", VStr "image")]);
                   ("text", VStr "a caption")] in
  (truthy (get msg "content") = true
   /\ is_string (get msg "content") = false
   /\ truthy (get (get msg "content") "parts") = false
   /\ truthy (get (get msg "content") "text") = false)
  /\ contentByPrecedence msg = Ok (VStr "")
  /\ forall m, parseMessage sampleHost msg <> Ok (Some m).
Proof.
  intro msg. split; [repeat split|].
  apply (parseMessage_content_precedence sampleHost msg); reflexivity.
Defined.

(** C6 as stated fails: a [content] object with neither [parts] nor
    [text] ends the resolution; the [text] field next to it is not
    read, although the same record without [content] is a message. *)
Lemma parseMessage_content_counterexample :
  parseMessage sampleHost (VObj [("content", VObj [("content_type", VStr "image")]);
                                 ("text", VStr "a caption")])
  = Ok None
  /\ parseMessage sampleHost (VObj [("text", VStr "a caption")])
     = Ok (Some {| role := VStr "user"; content := VStr "a caption"; timestamp := None |}).
Proof. split; reflexivity. Qed.

(** * ConversationNormalizer: the message container *)

Section Containers.

Variable host : Host.

(** C5, amended. A truthy [mapping] field decides: the messages are those
    of [parseMapping] on it, whatever [messages] holds. Without one, the
    container is the first truthy value among [messages], [content] and
    [history]; it yields the messages that [parseMessage] accepts when it
    is an array and none otherwise. *)
Theorem arrayConversation_container (conv : value) (index : nat) (c : Conversation) :
  arrayConversation host conv index = Ok c ->
  (truthy (get conv "mapping") = true ->
   parseMapping host (get conv "mapping") (get conv "current_node") = Ok (messages c)
   /\ _isChatGPT c = true)
  /\ (truthy (get conv "mapping") = false ->
      match or_ (get conv "messages")
                (or_ (get conv "content") (or_ (get conv "history") (VArr []))) with
      | VArr items =>
          exists parsed, mapM (parseMessage host) items = Ok parsed
                         /\ messages c = somes parsed
      | _ => messages c = []
      end).
Proof.
  unfold arrayConversation.
  destruct (getp conv "id") as [id0| |]; cbn [obind]; try discriminate.
  match goal with
  | |- context [obind ?e _] => destruct e as [cid| |]; cbn [obind]; try discriminate
  end.
  destruct (truthy (get conv "mapping")) eqn:Hm.
  - destruct (parseMapping host _ _) as [chain| |]; cbn [obind]; try discriminate.
    intro E. injection E as <-. split; [auto | discriminate].
  - intro E. split; [discriminate|]. intros _.
    assert (Hor : forall x, or_ (get conv "mapping") x = x)
      by (intro x; unfold or_; rewrite Hm; reflexivity).
    rewrite Hor in E. revert E.
    destruct (or_ (get conv "messages")
                  (or_ (get conv "content") (or_ (get conv "history") (VArr []))));
      try (intro E; injection E as <-; reflexivity).
    destruct (mapM (parseMessage host) items) as [parsed| |]; cbn [obind]; try discriminate.
    intro E. injection E as <-. exists parsed. auto.
Qed.

End Containers.

Lemma arrayConversation_container_witness :
  let conv := VObj [("title", VStr "Both");
                    ("messages", VArr [VObj [("role", VStr "user");
                                             ("content", VStr "from messages")]]);
                    ("mapping",
                     VObj [("n1", VObj [("message",
                                         VObj [("author", VObj [("role", VStr "user")]);
                                               ("content",
                                                VObj [("parts", VArr [VStr "from mapping"])])]);
                                        ("parent", VNull)])]);
                    ("current_node", VStr "n1")] in
  let c := {| id := VStr "n1"; title := VStr "Both"; createTime := None; updateTime := None;
              messages := [ {| role := VStr "user"; content := VStr "from mapping";
                               timestamp := None |} ];
              _isChatGPT := true |} in
  arrayConversation sampleHost conv 0 = Ok c
  /\ (truthy (get conv "mapping") = true ->
      parseMapping sampleHost (get conv "mapping") (get conv "current_node") = Ok (messages c)
      /\ _isChatGPT c = true)
  /\ (truthy (get conv "mapping") = false ->
      match or_ (get conv "messages")
                (or_ (get conv "content") (or_ (get conv "history") (VArr []))) with
      | VArr items =>
          exists parsed, mapM (parseMessage sampleHost) items = Ok parsed
                         /\ messages c = somes parsed
      | _ => messages c = []
      end).
Proof.
  intros conv c. split; [reflexivity|].
  apply (arrayConversation_container sampleHost conv 0 c). reflexivity.
Defined.

(** C5 as stated fails twice. With both an array [messages] and a
    [mapping], the messages come from the mapping. And the container is
    the first truthy field, not the first array: a [messages] field that
    is no array hides the [content] array after it. *)
Lemma arrayConversation_container_counterexample :
  (exists c,
     arrayConversation sampleHost
       (VObj [("title", VStr "Both");
              ("messages", VArr [VObj [("role", VStr "user");
                                       ("content", VStr "from messages")]]);
              ("mapping",
               VObj [("n1", VObj [("message",
                                   VObj [("author", VObj [("role", VStr "user")]);
                                         ("content",
                                          VObj [("parts", VArr [VStr "from mapping"])])]);
                                  ("parent", VNull)])]);
              ("current_node", VStr "n1")]) 0 = Ok c
     /\ messages c = [ {| role := VStr "user"; content := VStr "from mapping";
                          timestamp := None |} ])
  /\ (exists c,
        arrayConversation sampleHost
          (VObj [("title", VStr "Hidden");
                 ("messages", VStr "none");
                 ("content", VArr [VObj [("role", VStr "user"); ("content", VStr "Hi")]])]) 0
        = Ok c
        /\ messages c = []).
Proof.
  split; eexists; split; reflexivity.
Qed.

(** * MessageGraphResolver: the walk from the leaf *)

(** ** Keys that resolve *)

Lemma lookup_unbound k fields : ~ In k (map fst fields) -> lookup k fields = VUndef.
Proof.
  induction fields as [|[k' v] r IH]; simpl; [reflexivity|].
  intro H. destruct (String.eqb_spec k' k) as [->|_].
  - exfalso. apply H. left. reflexivity.
  - apply IH. intro Hin. apply H. right. exact Hin.
Qed.

Lemma index_of_key_sound k i : index_of_key k = Some i -> string_of_N i = k.
Proof.
  unfold index_of_key.
  destruct (NilEmpty.uint_of_string k) as [u|]; [|discriminate].
  cbv zeta. destruct (String.eqb_spec (string_of_N (N.of_uint u)) k); [|discriminate].
  intro E. injection E as <-. assumption.
Qed.

(** An index below [n] is among the keys of an array of [n] elements. *)
Lemma in_index_keys i n :
  (i <? N.of_nat n)%N = true -> In (string_of_N i) (map string_of_nat (seq 0 n)).
Proof.
  intro H. apply N.ltb_lt in H.
  apply in_map_iff. exists (N.to_nat i). split.
  - unfold string_of_nat. rewrite N2Nat.id. reflexivity.
  - apply in_seq. lia.
Qed.

(** A key outside [readable_keys] reads as [undefined]. *)
Lemma get_unreadable mapping k : ~ In k (readable_keys mapping) -> get mapping k = VUndef.
Proof.
  destruct mapping; simpl; try reflexivity.
  - (* a string *)
    intro H. destruct (String.eqb_spec k "length") as [->|_].
    { exfalso. apply H. left. reflexivity. }
    destruct (index_of_key k) as [i|] eqn:Hi; [|reflexivity].
    destruct (i <? N.of_nat (units s))%N eqn:Hlt; [|reflexivity].
    exfalso. apply H. right.
    rewrite <- (index_of_key_sound _ _ Hi). apply in_index_keys, Hlt.
  - (* an array *)
    intro H. destruct (String.eqb_spec k "length") as [->|_].
    { exfalso. apply H. left. reflexivity. }
    destruct (index_of_key k) as [i|] eqn:Hi; [|reflexivity].
    destruct (i <? N.of_nat (List.length items))%N eqn:Hlt; [|reflexivity].
    exfalso. apply H. right.
    rewrite <- (index_of_key_sound _ _ Hi). apply in_index_keys, Hlt.
  - (* an object *)
    apply lookup_unbound.
Qed.

Lemma truthy_get_readable mapping k :
  truthy (get mapping k) = true -> In k (readable_keys mapping).
Proof.
  intro H. destruct (in_dec string_dec k (readable_keys mapping)) as [Hin|Hout]; [exact Hin|].
  rewrite (get_unreadable _ _ Hout) in H. discriminate.
Qed.

(** ** The loop, one turn at a time *)

Lemma to_string_fuel v : to_string v <> NoFuel.
Proof. unfold to_string. destruct (ToString v); discriminate. Qed.

Lemma arr_join_fuel sep items : arr_join sep items <> NoFuel.
Proof. unfold arr_join. destruct (traverse _ items); discriminate. Qed.

(** The strings of a [parts] array always join. *)
Lemma arr_join_strings sep items :
  arr_join sep (filter is_string items)
  = Ok (join sep (map the_string (filter is_string items))).
Proof.
  unfold arr_join.
  assert (E : traverse (fun x => match x with
                                 | VUndef | VNull => Some EmptyString
                                 | _ => ToString x
                                 end) (filter is_string items)
              = Some (map the_string (filter is_string items))).
  { induction items as [|x r IH]; [reflexivity|].
    cbn [filter]. destruct x; cbn [is_string]; try exact IH.
    cbn [traverse map the_string ToString]. rewrite IH. reflexivity. }
  rewrite E. reflexivity.
Qed.

Section Walk.

Variable host : Host.

Lemma walk_unfold fuel mapping current from seen chain :
  walk host fuel mapping current from seen chain
  = if truthy current then
      match ToString current with
      | None => TypeError
      | Some key =>
          if (truthy (get mapping key) && negb (has seen (current, from)))%bool then
            match fuel with
            | O => NoFuel
            | S fuel' =>
                let* m := nodeMessage host (get mapping key) in
                walk host fuel' mapping (get (get mapping key) "parent") (ParentOf key)
                     ((current, from) :: seen)
                     (match m with Some x => (chain ++ [x])%list | None => chain end)
            end
          else Ok (chain, seen)
      end
    else Ok (chain, seen).
Proof.
  destruct fuel; cbn [walk]; unfold to_string;
    (destruct (truthy current); [destruct (ToString current); reflexivity | reflexivity]).
Qed.

Lemma chainMessage_fuel msg : chainMessage host msg <> NoFuel.
Proof.
  unfold chainMessage. cbv zeta.
  match goal with |- context [elements ?v] => destruct v end;
    cbn [elements obind]; try discriminate.
  rewrite arr_join_strings. cbn [obind].
  match goal with |- (if ?b then _ else _) <> _ => destruct b end; discriminate.
Qed.

Lemma nodeMessage_fuel node : nodeMessage host node <> NoFuel.
Proof.
  unfold nodeMessage. cbv zeta.
  destruct (truthy _); [apply chainMessage_fuel | discriminate].
Qed.

(** ** The walk ends

    Each turn adds to [seen] a value that was not in it. After the first
    turn that value is the [parent] field of the node just left, and one
    node has one [parent] field: no node is left twice. *)

Lemma origin_eqb_refl o : origin_eqb o o = true.
Proof. destruct o; simpl; [reflexivity | apply String.eqb_refl]. Qed.

Lemma same_value_zero_refl x : same_value_zero x x = true.
Proof.
  destruct x as [v o]. unfold same_value_zero. simpl.
  destruct v; try reflexivity.
  - apply Bool.eqb_reflx.
  - apply Z.eqb_refl.
  - apply String.eqb_refl.
  - apply origin_eqb_refl.
  - apply origin_eqb_refl.
Qed.

Lemma has_in seen x : In x seen -> has seen x = true.
Proof.
  intro H. unfold has. apply existsb_exists. exists x.
  split; [exact H | apply same_value_zero_refl].
Qed.

Lemma in_origins k seen : In k (origins seen) -> exists v, In (v, ParentOf k) seen.
Proof.
  unfold origins. rewrite in_flat_map. intros [[v o] [Hin Hk]]. simpl in Hk.
  destruct o as [|k']; [contradiction|].
  destruct Hk as [->|[]]. exists v. exact Hin.
Qed.

(** The node that the walk comes from has not been left before. *)
Lemma fresh_origin mapping current k seen :
  current = get (get mapping k) "parent" ->
  consistent mapping seen ->
  has seen (current, ParentOf k) = false ->
  ~ In k (origins seen).
Proof.
  intros Hcur Hcons Hnew Hin. apply in_origins in Hin. destruct Hin as [v Hin].
  rewrite (Hcons _ _ Hin), <- Hcur in Hin. apply has_in in Hin. congruence.
Qed.

Lemma walk_fuel_enough mapping :
  forall fuel current k seen chain,
    current = get (get mapping k) "parent" ->
    consistent mapping seen ->
    NoDup (origins seen) ->
    incl (origins seen) (readable_keys mapping) ->
    In k (readable_keys mapping) ->
    (List.length (readable_keys mapping) < fuel + List.length (origins seen))%nat ->
    walk host fuel mapping current (ParentOf k) seen chain <> NoFuel.
Proof.
  induction fuel as [|fuel IH]; intros current k seen chain Hcur Hcons Hnd Hincl Hk Hlen;
    rewrite walk_unfold;
    destruct (truthy current); try discriminate;
    destruct (ToString current) as [key|]; try discriminate;
    destruct (truthy (get mapping key) && negb (has seen (current, ParentOf k)))%bool eqn:Hcond;
    try discriminate;
    apply andb_prop in Hcond; destruct Hcond as [Hnode Hnew];
    apply negb_true_iff in Hnew;
    pose proof (fresh_origin _ _ _ _ Hcur Hcons Hnew) as Hfresh;
    assert (Hroom : (S (List.length (origins seen)) <= List.length (readable_keys mapping))%nat)
      by (apply (NoDup_incl_length (l := k :: origins seen));
          [constructor; assumption | intros x [<-|Hx]; auto]).
  - exfalso. simpl in Hlen. lia.
  - destruct (nodeMessage host (get mapping key)) as [m| |] eqn:Hm;
      cbn [obind]; [|discriminate|destruct (nodeMessage_fuel _ Hm)].
    apply IH.
    + reflexivity.
    + intros v k' [E|Hin]; [injection E as <- <-; exact Hcur | apply Hcons, Hin].
    + simpl. constructor; assumption.
    + simpl. intros x [<-|Hx]; auto.
    + apply truthy_get_readable, Hnode.
    + simpl. lia.
Qed.

Lemma leafChain_fuel mapping currentNode : leafChain host mapping currentNode <> NoFuel.
Proof.
  unfold leafChain, walk_fuel. rewrite walk_unfold.
  destruct (truthy currentNode); [|discriminate].
  destruct (ToString currentNode) as [key|]; [|discriminate].
  destruct (truthy (get mapping key) && negb (has [] (currentNode, Argument)))%bool eqn:Hcond;
    [|discriminate].
  apply andb_prop in Hcond. destruct Hcond as [Hnode _].
  destruct (nodeMessage host (get mapping key)) as [m| |] eqn:Hm;
    cbn [obind]; [|discriminate|destruct (nodeMessage_fuel _ Hm)].
  apply walk_fuel_enough.
  - reflexivity.
  - intros v k [E|[]]. discriminate.
  - constructor.
  - intros x [].
  - apply truthy_get_readable, Hnode.
  - simpl. lia.
Qed.

Lemma elements_fuel v : elements v <> NoFuel.
Proof. destruct v; discriminate. Qed.

Lemma sortedMessage_fuel node : sortedMessage host node <> NoFuel.
Proof.
  unfold sortedMessage. cbv zeta.
  destruct (_ && _)%bool; [|discriminate].
  destruct (truthy (get (get (get node "message") "content") "parts")).
  - destruct (elements _) eqn:E; cbn [obind]; try discriminate.
    + rewrite arr_join_strings. cbn [obind].
      match goal with |- (if ?b then _ else _) <> _ => destruct b end; discriminate.
    + destruct (elements_fuel _ E).
  - destruct (get (get node "message") "content"); cbn [obind];
      match goal with |- (if ?b then _ else _) <> _ => destruct b end; discriminate.
Qed.

Lemma mapM_fuel {A B} (f : A -> outcome B) (l : list A) :
  (forall x, f x <> NoFuel) -> mapM f l <> NoFuel.
Proof.
  intro H. induction l as [|x r IH]; cbn [mapM]; [discriminate|].
  destruct (f x) eqn:E; cbn [obind]; try discriminate; [|destruct (H _ E)].
  destruct (mapM f r); cbn [obind]; try discriminate. exact IH.
Qed.

Lemma sortNodes_fuel nodes : sortNodes host nodes <> NoFuel.
Proof. unfold sortNodes. destruct (_ && _)%bool; discriminate. Qed.

(** The mode without a leaf. *)
Lemma sortedMode_fuel nodes :
  (let* sortedNodes := sortNodes host nodes in
   let* found := mapM (sortedMessage host) sortedNodes in
   Ok (somes found)) <> NoFuel.
Proof.
  destruct (sortNodes host nodes) as [sorted| |] eqn:E; cbn [obind];
    [|discriminate|destruct (sortNodes_fuel _ E)].
  pose proof (mapM_fuel (sortedMessage host) sorted sortedMessage_fuel).
  destruct (mapM _ _); cbn [obind]; [discriminate|discriminate|congruence].
Qed.

Lemma getp_fuel v k : getp v k <> NoFuel.
Proof. destruct v; discriminate. Qed.

Lemma parseMapping_fuel mapping currentNode : parseMapping host mapping currentNode <> NoFuel.
Proof.
  unfold parseMapping. cbv zeta.
  set (node := match currentNode with VUndef => VNull | v => v end).
  assert (Hsorted : match mapping with
                    | VUndef | VNull => TypeError
                    | _ =>
                        let* sortedNodes :=
                          sortNodes host
                            (filter (fun n => truthy (get n "message")
                                              && truthy (get (get n "message") "content"))%bool
                                    (map (fun id => withId id (get mapping id)) (keys mapping))) in
                        let* found := mapM (sortedMessage host) sortedNodes in
                        Ok (somes found)
                    end <> NoFuel).
  { destruct mapping; try discriminate; apply sortedMode_fuel. }
  destruct (truthy node).
  - unfold to_string. destruct (ToString node) as [key|]; cbn [obind]; [|discriminate].
    destruct (getp mapping key) as [leaf| |] eqn:Hleaf; cbn [obind];
      [|discriminate|destruct (getp_fuel _ _ Hleaf)].
    destruct (truthy leaf); cbn [andb]; [|exact Hsorted].
    pose proof (leafChain_fuel mapping node).
    destruct (leafChain host mapping node); cbn [obind]; [discriminate|discriminate|congruence].
  - cbn [obind andb]. exact Hsorted.
Qed.

(** ** How far the walk can go

    Whatever the types, the values of [seen] come from distinct nodes
    but for the leaf: the walk makes no more turns than the mapping has
    keys, and one. *)

Lemma walk_bound mapping :
  forall fuel current k seen chain chain' seen',
    current = get (get mapping k) "parent" ->
    In k (readable_keys mapping) ->
    consistent mapping seen ->
    NoDup (origins seen) ->
    incl (origins seen) (readable_keys mapping) ->
    (List.length seen <= S (List.length (origins seen)))%nat ->
    (List.length chain <= List.length seen)%nat ->
    walk host fuel mapping current (ParentOf k) seen chain = Ok (chain', seen') ->
    NoDup (origins seen')
    /\ incl (origins seen') (readable_keys mapping)
    /\ (List.length seen' <= S (List.length (origins seen')))%nat
    /\ (List.length chain' <= List.length seen')%nat.
Proof.
  induction fuel as [|fuel IH];
    intros current k seen chain chain' seen' Hcur Hk Hcons Hnd Hincl Hseen Hchain;
    rewrite walk_unfold;
    destruct (truthy current); try (intro E; injection E as <- <-; auto);
    destruct (ToString current) as [key|]; try discriminate;
    destruct (truthy (get mapping key) && negb (has seen (current, ParentOf k)))%bool eqn:Hcond;
    try discriminate;
    try (intro E; injection E as <- <-; auto).
  apply andb_prop in Hcond. destruct Hcond as [Hnode Hnew].
  apply negb_true_iff in Hnew.
  pose proof (fresh_origin _ _ _ _ Hcur Hcons Hnew) as Hfresh.
  destruct (nodeMessage host (get mapping key)) as [m| |]; cbn [obind]; try discriminate.
  apply IH.
  - reflexivity.
  - apply truthy_get_readable, Hnode.
  - intros v k' [E|Hin]; [injection E as <- <-; exact Hcur | apply Hcons, Hin].
  - simpl. constructor; assumption.
  - simpl. intros x [<-|Hx]; auto.
  - simpl. lia.
  - destruct m; [rewrite length_app|]; simpl; lia.
Qed.

Lemma leafChain_bound mapping leaf chain seen :
  leafChain host mapping leaf = Ok (chain, seen) ->
  (List.length chain <= List.length seen <= S (List.length (readable_keys mapping)))%nat.
Proof.
  unfold leafChain. rewrite walk_unfold.
  destruct (truthy leaf); [|intro E; injection E as <- <-; simpl; lia].
  destruct (ToString leaf) as [key|]; [|discriminate].
  destruct (truthy (get mapping key) && negb (has [] (leaf, Argument)))%bool eqn:Hcond;
    [|intro E; injection E as <- <-; simpl; lia].
  apply andb_prop in Hcond. destruct Hcond as [Hnode _].
  destruct (nodeMessage host (get mapping key)) as [m| |]; cbn [obind]; try discriminate.
  intro Hwalk.
  apply walk_bound in Hwalk.
  - destruct Hwalk as (Hnd & Hincl & Hseen & Hchain).
    pose proof (NoDup_incl_length Hnd Hincl). lia.
  - reflexivity.
  - apply truthy_get_readable, Hnode.
  - intros v k [E|[]]. discriminate.
  - constructor.
  - intros x [].
  - simpl. lia.
  - destruct m; simpl; lia.
Qed.

(** ** The walk visits a node once, when ids are strings *)

Lemma parentsAreIds_spec mapping k :
  parentsAreIds mapping = true ->
  truthy (get (get mapping k) "parent") = true ->
  is_string (get (get mapping k) "parent") = true.
Proof.
  intros H Ht.
  destruct (in_dec string_dec k (readable_keys mapping)) as [Hin|Hout].
  - unfold parentsAreIds in H. rewrite forallb_forall in H.
    specialize (H _ Hin). cbv zeta in H. rewrite Ht in H. exact H.
  - rewrite (get_unreadable _ _ Hout) in Ht. discriminate.
Qed.

Lemma nodesWellTyped_spec mapping k :
  nodesWellTyped host mapping = true -> nodeMessage host (get mapping k) <> TypeError.
Proof.
  intro H.
  destruct (in_dec string_dec k (readable_keys mapping)) as [Hin|Hout].
  - unfold nodesWellTyped in H. rewrite forallb_forall in H.
    specialize (H _ Hin). destruct (nodeMessage host (get mapping k)); discriminate.
  - rewrite (get_unreadable _ _ Hout). discriminate.
Qed.

(** The keys of a [seen] that holds strings are the strings. *)
Lemma visited_strings seen :
  Forall (fun e => is_string (fst e) = true) seen ->
  visited seen = map (fun e => the_string (fst e)) seen.
Proof.
  induction 1 as [|[v o] seen Hv _ IH]; [reflexivity|].
  cbn [visited flat_map map fst] in *. destruct v; try discriminate.
  cbn [ToString the_string app]. f_equal. exact IH.
Qed.

Lemma has_string seen s from :
  Forall (fun e => is_string (fst e) = true) seen ->
  In s (visited seen) -> has seen (VStr s, from) = true.
Proof.
  intros Hall Hin. rewrite (visited_strings _ Hall), in_map_iff in Hin.
  destruct Hin as [[v o] [Hs Hin]]. simpl in Hs.
  rewrite Forall_forall in Hall. specialize (Hall _ Hin). simpl in Hall.
  destruct v; try discriminate. simpl in Hs. subst.
  unfold has. apply existsb_exists. exists (VStr s, o).
  split; [exact Hin | apply String.eqb_refl].
Qed.

Lemma walk_visits_once mapping :
  parentsAreIds mapping = true ->
  forall fuel current from seen chain chain' seen',
    (truthy current = true -> is_string current = true) ->
    Forall (fun e => is_string (fst e) = true) seen ->
    NoDup (visited seen) ->
    incl (visited seen) (readable_keys mapping) ->
    (List.length chain <= List.length (visited seen))%nat ->
    walk host fuel mapping current from seen chain = Ok (chain', seen') ->
    NoDup (visited seen')
    /\ incl (visited seen') (readable_keys mapping)
    /\ (List.length chain' <= List.length (visited seen'))%nat.
Proof.
  intro Hids.
  induction fuel as [|fuel IH];
    intros current from seen chain chain' seen' Hcur Hstr Hnd Hincl Hlen;
    rewrite walk_unfold;
    (destruct (truthy current) eqn:Htruthy; [|intro E; injection E as <- <-; auto]);
    specialize (Hcur eq_refl); destruct current as [| | | |s| |]; try discriminate;
    cbn [ToString];
    destruct (truthy (get mapping s) && negb (has seen (VStr s, from)))%bool eqn:Hcond;
    try discriminate;
    try (intro E; injection E as <- <-; auto).
  apply andb_prop in Hcond. destruct Hcond as [Hnode Hnew].
  apply negb_true_iff in Hnew.
  destruct (nodeMessage host (get mapping s)) as [m| |]; cbn [obind]; try discriminate.
  apply IH.
  - apply parentsAreIds_spec, Hids.
  - constructor; [reflexivity | exact Hstr].
  - cbn [visited flat_map fst ToString app]. constructor; [|exact Hnd].
    intro Hin. rewrite (has_string _ _ from Hstr Hin) in Hnew. discriminate.
  - cbn [visited flat_map fst ToString app].
    intros x [<-|Hx]; [apply truthy_get_readable, Hnode | apply Hincl, Hx].
  - cbn [visited flat_map fst ToString app]. fold (visited seen).
    destruct m; [rewrite length_app|]; simpl; lia.
Qed.

(** The walk does not throw when every value that it converts to a key
    converts and the messages are well typed. *)
Lemma walk_typed mapping :
  (forall k, converts (get (get mapping k) "parent") = true) ->
  nodesWellTyped host mapping = true ->
  forall fuel current from seen chain,
    converts current = true ->
    walk host fuel mapping current from seen chain <> TypeError.
Proof.
  intros Hparents Hty.
  induction fuel as [|fuel IH]; intros current from seen chain Hcur;
    rewrite walk_unfold;
    (destruct (truthy current); [|discriminate]);
    unfold converts in Hcur; destruct (ToString current) as [key|]; try discriminate;
    destruct (_ && _)%bool; try discriminate.
  pose proof (nodesWellTyped_spec mapping key Hty) as Hm.
  destruct (nodeMessage host (get mapping key)); cbn [obind];
    [apply IH; apply Hparents | congruence | discriminate].
Qed.

Lemma falsy_converts v : truthy v = false -> converts v = true.
Proof. destruct v; try discriminate; reflexivity. Qed.

Lemma parentsAreIds_convert mapping k :
  parentsAreIds mapping = true -> converts (get (get mapping k) "parent") = true.
Proof.
  intro Hids. destruct (truthy (get (get mapping k) "parent")) eqn:Ht.
  - pose proof (parentsAreIds_spec mapping k Hids Ht) as Hs.
    destruct (get (get mapping k) "parent"); try discriminate. reflexivity.
  - apply falsy_converts, Ht.
Qed.

(** C4, amended. The walk of [parseMapping] ends for every mapping and
    every leaf, cyclic parent references included: the loop is never cut
    off, it returns or it throws, and when it returns it has made no more
    turns than the mapping has keys, and one, and collected at most one
    message per turn. When the parent references are ids and the leaf is
    one, the walk looks no key up twice; when the messages are well
    typed besides, it returns its chain, which [parseMapping]
    reverses. *)
Theorem leafChain_cycle_safe (mapping leaf : value) :
  leafChain host mapping leaf <> NoFuel
  /\ parseMapping host mapping leaf <> NoFuel
  /\ (forall chain seen,
        leafChain host mapping leaf = Ok (chain, seen) ->
        (List.length chain <= List.length seen
         <= S (List.length (readable_keys mapping)))%nat)
  /\ (parentsAreIds mapping = true ->
      is_string leaf = true ->
      (forall chain seen,
          leafChain host mapping leaf = Ok (chain, seen) ->
          NoDup (visited seen)
          /\ incl (visited seen) (readable_keys mapping)
          /\ (List.length chain <= List.length (visited seen))%nat)
      /\ (nodesWellTyped host mapping = true ->
          exists chain seen,
            leafChain host mapping leaf = Ok (chain, seen)
            /\ (leafResolves mapping leaf = true ->
                parseMapping host mapping leaf = Ok (rev chain)))).
Proof.
  split; [apply leafChain_fuel|]. split; [apply parseMapping_fuel|].
  split; [intros chain seen; apply leafChain_bound|].
  intros Hids Hleaf. split.
  - intros chain seen Hwalk.
    apply (walk_visits_once mapping Hids (walk_fuel mapping) leaf Argument [] [] chain seen);
      auto; try constructor.
    intros x [].
  - intro Hty.
    pose proof (leafChain_fuel mapping leaf) as Hfuel.
    destruct leaf as [| | | |s| |]; try discriminate.
    pose proof (walk_typed mapping (fun k => parentsAreIds_convert mapping k Hids) Hty
                           (walk_fuel mapping) (VStr s) Argument [] [] eq_refl) as Htyped.
    fold (leafChain host mapping (VStr s)) in Htyped.
    destruct (leafChain host mapping (VStr s)) as [[chain seen]| |] eqn:Hwalk; try congruence.
    exists chain, seen. split; [reflexivity|].
    unfold leafResolves. cbn [ToString]. intro Hres.
    apply andb_prop in Hres. destruct Hres as [Hs Hnode].
    unfold parseMapping. cbv zeta. rewrite Hs. cbn [to_string ToString obind].
    unfold to_string. cbn [ToString obind].
    assert (Hget : getp mapping s = Ok (get mapping s))
      by (destruct mapping; try reflexivity; discriminate).
    rewrite Hget. cbn [obind]. rewrite Hnode. cbn [andb]. rewrite Hwalk. reflexivity.
Qed.

End Walk.

Example cyclic_walk :
  parseMapping sampleHost cyclicMapping (VStr "a")
  = Ok [ {| role := VStr "assistant"; content := VStr "answer"; timestamp := None |};
         {| role := VStr "user"; content := VStr "question"; timestamp := None |} ]
  /\ parseMapping sampleHost selfMapping (VStr "a")
     = Ok [ {| role := VStr "user"; content := VStr "question"; timestamp := None |} ].
Proof. split; reflexivity. Qed.

Lemma leafChain_cycle_safe_witness :
  (parentsAreIds cyclicMapping = true
   /\ is_string (VStr "a") = true
   /\ nodesWellTyped sampleHost cyclicMapping = true
   /\ leafResolves cyclicMapping (VStr "a") = true)
  /\ exists chain seen,
       leafChain sampleHost cyclicMapping (VStr "a") = Ok (chain, seen)
       /\ NoDup (visited seen)
       /\ (List.length chain <= List.length seen
           <= S (List.length (readable_keys cyclicMapping)))%nat
       /\ parseMapping sampleHost cyclicMapping (VStr "a") = Ok (rev chain).
Proof.
  split; [repeat split|].
  destruct (leafChain_cycle_safe sampleHost cyclicMapping (VStr "a"))
    as (_ & _ & Hbound & Hids).
  destruct (Hids eq_refl eq_refl) as [Honce Hreturns].
  destruct (Hreturns eq_refl) as (chain & seen & Hwalk & Hrev).
  exists chain, seen. split; [exact Hwalk|].
  split; [apply (Honce _ _ Hwalk)|].
  split; [apply (Hbound _ _ Hwalk) | apply Hrev; reflexivity].
Defined.

(** C4 as stated fails outside the data model, where a [parent] is an
    id or is absent. The node under the key [5] names the number 5 as its
    parent: the number resolves to the node itself, a cycle, but it is
    not the string that [seen] holds, so the walk visits the node a
    second time before it stops, and [parseMapping] returns its message
    twice. *)
Lemma leafChain_revisit_counterexample :
  get (get numericParentMapping "5") "parent" = VNum 5
  /\ to_string (VNum 5) = Ok "5"
  /\ (exists chain seen,
        leafChain sampleHost numericParentMapping (VStr "5") = Ok (chain, seen)
        /\ visited seen = ["5"; "5"]
        /\ ~ NoDup (visited seen))
  /\ parseMapping sampleHost numericParentMapping (VStr "5")
     = Ok [ {| role := VStr "user"; content := VStr "question"; timestamp := None |};
            {| role := VStr "user"; content := VStr "question"; timestamp := None |} ].
Proof.
  split; [reflexivity|]. split; [reflexivity|]. split; [|reflexivity].
  eexists. eexists. split; [reflexivity|]. split; [reflexivity|].
  cbn. intro H. inversion H as [|? ? Hnotin _]; subst. apply Hnotin. left. reflexivity.
Qed.

(** ** A linear chain comes out root first *)

Lemma filter_complement_length {A} (f : A -> bool) (l : list A) :
  List.length (filter f l)
  = (List.length l - List.length (filter (fun x => negb (f x)) l))%nat.
Proof.
  induction l as [|x r IH]; [reflexivity|].
  pose proof (filter_length_le (fun x => negb (f x)) r) as Hle.
  cbn [filter List.length]. destruct (f x); cbn [negb List.length]; lia.
Qed.

Section LinearChain.

Variable host : Host.

Lemma nodeMessage_kept node e :
  nodeMessage host node = Ok e ->
  keptNode node = match e with Some _ => true | None => false end.
Proof.
  unfold nodeMessage, keptNode, walkText, chainMessage. cbv zeta.
  destruct (truthy (get node "message")); cbn [andb].
  - destruct (or_ (get (or_ (get (get node "message") "content") (VObj [])) "parts") (VArr []));
      cbn [elements obind]; try discriminate.
    rewrite arr_join_strings. cbn [obind].
    destruct ((is_str "user" _ || is_str "assistant" _)
              && negb (trim_string (join nl (map the_string (filter is_string items))) =? ""))%bool;
      intro E; injection E as <-; reflexivity.
  - intro E. injection E as <-. reflexivity.
Qed.

Lemma somes_kept (nodes : list (string * value)) (entries : list (option Message)) :
  Forall2 (fun kn e => nodeMessage host (snd kn) = Ok e) nodes entries ->
  List.length (somes entries) = List.length (filter (fun kn => keptNode (snd kn)) nodes).
Proof.
  induction 1 as [|kn e nodes entries H _ IH]; [reflexivity|].
  simpl. rewrite (nodeMessage_kept _ _ H). destruct e; simpl; rewrite IH; reflexivity.
Qed.

(** The walk stops at [top]. *)
Lemma walk_top mapping top fuel from seen chain :
  endsWalk mapping top = true ->
  walk host fuel mapping top from seen chain = Ok (chain, seen).
Proof.
  unfold endsWalk. intro H. rewrite walk_unfold.
  destruct (truthy top); [|reflexivity]. cbn [negb orb] in H.
  destruct (ToString top) as [key|]; [|discriminate].
  apply negb_true_iff in H. rewrite H. reflexivity.
Qed.

Lemma walk_ancestry mapping top :
  endsWalk mapping top = true ->
  forall nodes entries fuel from seen chain,
    ancestry mapping top nodes ->
    NoDup (map fst nodes) ->
    (forall k o, In k (map fst nodes) -> has seen (VStr k, o) = false) ->
    Forall2 (fun kn e => nodeMessage host (snd kn) = Ok e) nodes entries ->
    (List.length nodes < fuel)%nat ->
    exists seen',
      walk host fuel mapping (entryOf top nodes) from seen chain
      = Ok ((chain ++ somes entries)%list, seen').
Proof.
  intro Htop.
  induction nodes as [|[k node] rest IH];
    intros entries fuel from seen chain Hanc Hnd Hunseen Hent Hfuel.
  - inversion Hent; subst. cbn [entryOf]. rewrite (walk_top _ _ _ _ _ _ Htop).
    cbn [somes flat_map]. rewrite app_nil_r. eauto.
  - rewrite walk_unfold.
    inversion Hent as [|kn e rest' entries' He Hrest]; subst.
    inversion Hnd as [|? ? Hnotin Hnd']; subst.
    destruct Hanc as (Hk & Hget & Hnode & Hparent & Hanc).
    cbn [entryOf ToString truthy]. rewrite (eqb_empty_false _ Hk). cbn [negb].
    rewrite Hget, Hnode. cbn [andb].
    rewrite (Hunseen k from) by (left; reflexivity). cbn [negb].
    destruct fuel as [|fuel]; [simpl in Hfuel; lia|].
    cbn [snd] in He. rewrite He. cbn [obind]. rewrite Hparent.
    change (match rest with (k', _) :: _ => VStr k' | [] => top end) with (entryOf top rest).
    destruct (IH entries' fuel (ParentOf k) ((VStr k, from) :: seen)
                 (match e with Some x => (chain ++ [x])%list | None => chain end))
      as [seen' Hwalk]; auto.
    + intros k' o Hin. unfold has. cbn [existsb].
      unfold has in Hunseen. rewrite (Hunseen k' o) by (right; exact Hin).
      rewrite Bool.orb_false_r. unfold same_value_zero. cbn [fst].
      destruct (String.eqb_spec k' k) as [->|]; [contradiction | reflexivity].
    + simpl in Hfuel. lia.
    + exists seen'. rewrite Hwalk. destruct e; cbn [somes flat_map];
        [rewrite <- app_assoc|]; reflexivity.
Qed.

(** X22. For a parent chain of N nodes under distinct ids whose root
    names a parent at which the walk stops, walked from its leaf, the
    loop collects the messages newest first and [parseMapping] returns
    them reversed, root first: one for each node that holds a [user] or
    [assistant] message with a text in its parts, so N results less the
    nodes that hold none. *)
Theorem parseMapping_linear_chain
      (mapping top : value) (leaf : string) (leafNode : value)
      (ancestors : list (string * value)) (entries : list (option Message)) :
  ancestry mapping top ((leaf, leafNode) :: ancestors) ->
  NoDup (map fst ((leaf, leafNode) :: ancestors)) ->
  endsWalk mapping top = true ->
  Forall2 (fun kn e => nodeMessage host (snd kn) = Ok e)
          ((leaf, leafNode) :: ancestors) entries ->
  (exists seen, leafChain host mapping (VStr leaf) = Ok (somes entries, seen))
  /\ parseMapping host mapping (VStr leaf) = Ok (rev (somes entries))
  /\ List.length (rev (somes entries))
     = (List.length ((leaf, leafNode) :: ancestors)
        - List.length (filter (fun kn => negb (keptNode (snd kn)))
                              ((leaf, leafNode) :: ancestors)))%nat.
Proof.
  intros Hanc Hnd Htop Hent.
  set (nodes := (leaf, leafNode) :: ancestors) in *.
  assert (Hkeys : incl (map fst nodes) (readable_keys mapping)).
  { clear Hnd Hent. revert Hanc. generalize nodes. clear nodes.
    induction nodes as [|[k node] rest IH]; intros Hanc x Hx; [destruct Hx|].
    destruct Hanc as (_ & Hget & Hnode & _ & Hanc).
    destruct Hx as [<-|Hx]; [|apply IH; assumption].
    apply truthy_get_readable. simpl. rewrite Hget. exact Hnode. }
  assert (Hlen : (List.length nodes <= List.length (readable_keys mapping))%nat).
  { rewrite <- (length_map fst nodes). apply NoDup_incl_length; assumption. }
  destruct (walk_ancestry mapping top Htop nodes entries (walk_fuel mapping)
                          Argument [] [] Hanc Hnd) as [seen' Hwalk]; auto.
  { unfold walk_fuel. clearbody nodes. lia. }
  cbn [entryOf nodes app] in Hwalk. fold (leafChain host mapping (VStr leaf)) in Hwalk.
  split; [exists seen'; exact Hwalk|]. split.
  - destruct Hanc as (Hk & Hget & Hnode & _).
    unfold parseMapping, to_string. cbv zeta. cbn [truthy ToString].
    rewrite (eqb_empty_false _ Hk). cbn [negb obind].
    assert (Hgetp : getp mapping leaf = Ok leafNode).
    { destruct mapping; cbn [getp]; try (rewrite Hget; reflexivity);
        simpl in Hget; subst; discriminate. }
    rewrite Hgetp. cbn [obind]. rewrite Hnode. cbn [andb].
    rewrite Hwalk. reflexivity.
  - rewrite length_rev, (somes_kept _ _ Hent).
    apply filter_complement_length.
Qed.

(** C3, at the failing input. A chain of one node whose message, of
    role [user] or [assistant], has a string for its content: the walk
    from the leaf reads the text of a message from [content.parts] only,
    finds none and returns no message, although the content is not
    empty. The mode without a leaf reads the string, in every engine
    whose sort rearranges, and returns the message. *)
Theorem leafChain_drops_string_content (author text : string) :
  rearranges host ->
  author = "user" \/ author = "assistant" ->
  trim_string text <> "" ->
  ancestry (stringContentMapping author text) VUndef [("a", stringContentNode author text)]
  /\ parseMapping host (stringContentMapping author text) (VStr "a") = Ok []
  /\ parseMapping host (stringContentMapping author text) VNull
     = Ok [ {| role := VStr author; content := VStr (trim_string text); timestamp := None |} ].
Proof.
  intros Hsort Hauthor Htext.
  assert (Hne : text <> "") by (intros ->; apply Htext; reflexivity).
  split; [simpl; repeat split; discriminate|]. split.
  - unfold parseMapping, leafChain, stringContentMapping, stringContentNode.
    cbn. unfold chainMessage. cbn. unfold or_ at 2. cbn [truthy].
    rewrite (eqb_empty_false _ Hne). cbn.
    destruct Hauthor as [-> | ->]; reflexivity.
  - unfold parseMapping, sortNodes, stringContentMapping, stringContentNode.
    cbn [truthy obind andb keys map fst get lookup String.eqb Ascii.eqb Bool.eqb withId
         own_fields remove_key filter negb List.length Nat.leb].
    rewrite (eqb_empty_false _ Hne). cbn [negb andb filter List.length Nat.leb obind].
    set (node := withId "a" _).
    pose proof (Hsort [node]) as Hperm.
    apply Permutation_sym, Permutation_length_1_inv in Hperm. rewrite Hperm.
    subst node. cbn [mapM].
    destruct Hauthor as [-> | ->]; unfold sortedMessage; cbn;
      rewrite (eqb_empty_false _ Hne); cbn;
      rewrite (eqb_empty_false _ Htext); reflexivity.
Qed.

End LinearChain.

Lemma leafChain_drops_string_content_witness :
  (rearranges sampleHost /\ ("user" = "user" \/ "user" = "assistant")
   /\ trim_string "hello" <> "")
  /\ parseMapping sampleHost (stringContentMapping "user" "hello") (VStr "a") = Ok []
  /\ parseMapping sampleHost (stringContentMapping "user" "hello") VNull
     = Ok [ {| role := VStr "user"; content := VStr "hello"; timestamp := None |} ].
Proof.
  assert (H : trim_string "hello" <> "") by discriminate.
  split; [split; [exact insertionSort_perm | split; [left; reflexivity | exact H]]|].
  apply (leafChain_drops_string_content sampleHost "user" "hello" insertionSort_perm
           (or_introl eq_refl) H).
Defined.

Lemma parseMapping_linear_chain_witness :
  (ancestry linearMapping VNull (("n4", textNode "user" "third" (VStr "n3")) :: linearAncestors)
   /\ NoDup (map fst (("n4", textNode "user" "third" (VStr "n3")) :: linearAncestors))
   /\ endsWalk linearMapping VNull = true
   /\ Forall2 (fun kn e => nodeMessage sampleHost (snd kn) = Ok e)
              (("n4", textNode "user" "third" (VStr "n3")) :: linearAncestors) linearEntries)
  /\ (exists seen, leafChain sampleHost linearMapping (VStr "n4")
                   = Ok (somes linearEntries, seen))
  /\ parseMapping sampleHost linearMapping (VStr "n4")
     = Ok (rev (somes linearEntries))
  /\ List.length (rev (somes linearEntries))
     = (List.length (("n4", textNode "user" "third" (VStr "n3")) :: linearAncestors)
        - List.length (filter (fun kn => negb (keptNode (snd kn)))
                              (("n4", textNode "user" "third" (VStr "n3")) :: linearAncestors)))%nat.
Proof.
  assert (Hanc : ancestry linearMapping VNull
                   (("n4", textNode "user" "third" (VStr "n3")) :: linearAncestors))
    by (simpl; repeat split; discriminate).
  assert (Hnd : NoDup (map fst (("n4", textNode "user" "third" (VStr "n3")) :: linearAncestors)))
    by (simpl; repeat constructor; simpl; intuition discriminate).
  assert (Hent : Forall2 (fun kn e => nodeMessage sampleHost (snd kn) = Ok e)
                         (("n4", textNode "user" "third" (VStr "n3")) :: linearAncestors)
                         linearEntries)
    by (repeat constructor).
  split; [split; [exact Hanc | split; [exact Hnd | split; [reflexivity | exact Hent]]] |].
  apply (parseMapping_linear_chain sampleHost linearMapping VNull "n4"
           (textNode "user" "third" (VStr "n3")) linearAncestors linearEntries);
    [exact Hanc | exact Hnd | reflexivity | exact Hent].
Defined.

Example linear_chain_ex :
  ancestry linearMapping VNull (("n4", textNode "user" "third" (VStr "n3")) :: linearAncestors)
  /\ Forall2 (fun kn e => nodeMessage sampleHost (snd kn) = Ok e)
             (("n4", textNode "user" "third" (VStr "n3")) :: linearAncestors) linearEntries.
Proof. split; [simpl; repeat split; discriminate | repeat constructor]. Qed.

Example linear_chain_result :
  parseMapping sampleHost linearMapping (VStr "n4")
  = Ok [ {| role := VStr "user"; content := VStr "first"; timestamp := None |};
         {| role := VStr "assistant"; content := VStr "second"; timestamp := None |};
         {| role := VStr "user"; content := VStr "third"; timestamp := None |} ].
Proof. reflexivity. Qed.

(** * ConversationNormalizer: what is retained *)

(** Induction on a value through its arrays and objects. *)
Lemma value_induction (P : value -> Prop) :
  P VUndef -> P VNull -> (forall b, P (VBool b)) -> (forall n, P (VNum n)) ->
  (forall s, P (VStr s)) ->
  (forall items, Forall P items -> P (VArr items)) ->
  (forall fields, Forall (fun kv => P (snd kv)) fields -> P (VObj fields)) ->
  forall v, P v.
Proof.
  intros HUndef HNull HBool HNum HStr HArr HObj.
  fix self 1. intros [| |b|n|s|items|fields].
  - exact HUndef.
  - exact HNull.
  - apply HBool.
  - apply HNum.
  - apply HStr.
  - apply HArr. induction items as [|x r IH]; constructor; [apply self | exact IH].
  - apply HObj. induction fields as [|[k x] r IH]; constructor; [apply self | exact IH].
Qed.

(** ** Methods that keep a property of every conversation in the list *)

Section Keeping.

Variable Q : Conversation -> Prop.

Lemma keeps_ret {A} (a : A) : keeps Q (ret a).
Proof. intros this H. exact H. Qed.

Lemma keeps_setSource s : keeps Q (setSource s).
Proof. intros this H. exact H. Qed.

Lemma keeps_push c : Q c -> keeps Q (push c).
Proof.
  intros Hc this H. simpl. apply Forall_app. split; [exact H | constructor; [exact Hc | constructor]].
Qed.

Lemma keeps_bind {A B} (m : M A) (k : A -> M B) :
  keeps Q m -> (forall a, keeps Q (k a)) -> keeps Q (bind m k).
Proof.
  intros Hm Hk this H. unfold bind. specialize (Hm this H).
  destruct (m this) as [[a| |] this']; simpl in *; [apply Hk, Hm | exact Hm | exact Hm].
Qed.

(** After [lift o] the continuation runs on the result of [o] only. *)
Lemma keeps_bind_lift {A B} (o : outcome A) (k : A -> M B) :
  (forall a, o = Ok a -> keeps Q (k a)) -> keeps Q (bind (lift o) k).
Proof.
  intros Hk this H. unfold bind, lift.
  destruct o as [a| |]; simpl; [apply (Hk a eq_refl), H | exact H | exact H].
Qed.

Lemma keeps_forEach {A} (f : A -> nat -> M unit) (l : list A) :
  (forall x index, keeps Q (f x index)) -> forall index, keeps Q (forEach f l index).
Proof.
  intro Hf. induction l as [|x r IH]; intro index; cbn [forEach].
  - apply keeps_ret.
  - apply keeps_bind; [apply Hf | intros _; apply IH].
Qed.

Lemma keeps_if {A} (b : bool) (m1 m2 : M A) : keeps Q m1 -> keeps Q m2 -> keeps Q (if b then m1 else m2).
Proof. destruct b; auto. Qed.

End Keeping.

(** ** Values that a document holds *)

Lemma within_trans a b c : within a b -> within b c -> within a c.
Proof.
  intros Hab Hbc. induction Hbc as [v | v x items Hin _ IH | v k x fields Hin _ IH].
  - exact Hab.
  - apply (within_item _ x); [exact Hin | apply IH, Hab].
  - apply (within_field _ k x); [exact Hin | apply IH, Hab].
Qed.

Lemma within_element x items d : In x items -> within (VArr items) d -> within x d.
Proof.
  intros Hin H. apply (within_trans _ (VArr items)); [|exact H].
  apply (within_item _ x); [exact Hin | constructor].
Qed.

Lemma within_value k x fields d : In (k, x) fields -> within (VObj fields) d -> within x d.
Proof.
  intros Hin H. apply (within_trans _ (VObj fields)); [|exact H].
  apply (within_field _ k x); [exact Hin | constructor].
Qed.

Lemma lookup_truthy k fields :
  truthy (lookup k fields) = true -> In (k, lookup k fields) fields.
Proof.
  induction fields as [|[k' v] r IH]; cbn [lookup]; [discriminate|].
  destruct (String.eqb_spec k' k) as [->|_]; intro H; [left; reflexivity | right; apply IH, H].
Qed.

(** An array that a property read returns is held by the receiver. *)
Lemma getp_within d k v :
  getp d k = Ok v -> isArray v = true -> within v d.
Proof.
  intros E Harr.
  destruct d as [| |b|n|s|items|fields]; cbn [getp get] in E; try discriminate;
    injection E as <-; try discriminate Harr.
  - destruct (k =? "length"); [discriminate|].
    destruct (index_of_key k); [|discriminate].
    destruct (_ <? _)%N; discriminate.
  - destruct (k =? "length"); [discriminate|].
    destruct (index_of_key k) as [i|]; [|discriminate].
    destruct (i <? N.of_nat (List.length items))%N eqn:Hi; [|discriminate].
    apply (within_element _ items); [|constructor].
    apply nth_In. apply N.ltb_lt in Hi. lia.
  - apply (within_value k _ fields); [|constructor].
    apply lookup_truthy. destruct (lookup k fields); try discriminate. reflexivity.
Qed.

Lemma pushAll_nil this : pushAll [] this = this.
Proof. destruct this. unfold pushAll. cbn. rewrite app_nil_r. reflexivity. Qed.

Lemma pushAll_pushAll cs cs' this : pushAll cs' (pushAll cs this) = pushAll (cs ++ cs')%list this.
Proof. unfold pushAll. cbn. rewrite app_assoc. reflexivity. Qed.

Section Retention.

Variable host : Host.

Lemma length_positive (c : Conversation) :
  (0 <? List.length (messages c))%nat = true -> hasMessages c.
Proof.
  unfold hasMessages. destruct (messages c); [discriminate | discriminate].
Qed.

(** A parser that pushes only on [messages.length > 0]. *)
Lemma keeps_push_if_messages (Q : Conversation -> Prop) (o : outcome Conversation) :
  (forall c, hasMessages c -> Q c) ->
  keeps Q (bind (lift o)
                (fun conversation =>
                   if (0 <? List.length (messages conversation))%nat
                   then push conversation else ret tt)).
Proof.
  intro HQ. apply keeps_bind_lift. intros c _.
  destruct (0 <? List.length (messages c))%nat eqn:E.
  - apply keeps_push, HQ, length_positive, E.
  - apply keeps_ret.
Qed.

(** ** What the array-format parser pushes *)

(** The callback of [parseArrayFormat]. *)
Lemma arrayCallback_pushes conv index start after :
  bind (lift (arrayConversation host conv index))
       (fun conversation =>
          if ((0 <? List.length (messages conversation))%nat || truthy (get conv "title"))%bool
          then push conversation else ret tt) start = (Ok tt, after) ->
  exists c, arrayConversation host conv index = Ok c
            /\ after = (if passes host (conv, index) then pushAll [c] start else start).
Proof.
  unfold bind, lift, passes. cbn [fst snd].
  destruct (arrayConversation host conv index) as [c| |]; try discriminate.
  intro E. exists c. split; [reflexivity|].
  destruct (_ || _)%bool; cbn in E; injection E as <-; reflexivity.
Qed.

Lemma passes_keptFrom conv index c :
  arrayConversation host conv index = Ok c ->
  passes host (conv, index) = true -> keptFrom host (conv, index) c.
Proof.
  unfold passes, keptFrom. cbn [fst snd]. intros -> H. split; [reflexivity|].
  apply orb_prop in H. destruct H as [H|H]; [left; apply length_positive, H | right; exact H].
Qed.

(** The loop pushes one conversation for each record that passes the
    test, in the order of the records, and nothing else. *)
Lemma arrayLoop_exact items :
  forall index start after,
    forEach (fun conv index =>
               bind (lift (arrayConversation host conv index))
                    (fun conversation =>
                       if ((0 <? List.length (messages conversation))%nat
                           || truthy (get conv "title"))%bool
                       then push conversation else ret tt))
            items index start = (Ok tt, after) ->
    exists pushed,
      after = pushAll pushed start
      /\ Forall2 (keptFrom host)
                 (filter (passes host) (combine items (seq index (List.length items))))
                 pushed.
Proof.
  induction items as [|conv rest IH]; intros index start after; cbn [forEach].
  - intro E. injection E as <-. exists [].
    split; [symmetry; apply pushAll_nil | constructor].
  - unfold bind at 1.
    match goal with
    | |- context [match ?m start with _ => _ end] => destruct (m start) as [[[]| |] mid] eqn:Hstep
    end; try discriminate.
    intro Hrest. apply arrayCallback_pushes in Hstep. destruct Hstep as (c & Hc & ->).
    apply IH in Hrest. destruct Hrest as (pushed & -> & Hall).
    cbn [List.length seq combine filter].
    destruct (passes host (conv, index)) eqn:Hp.
    + exists (c :: pushed). split.
      * apply pushAll_pushAll.
      * constructor; [apply passes_keptFrom; assumption | exact Hall].
    + exists pushed. split; [reflexivity | exact Hall].
Qed.

(** ** Where a retained conversation comes from *)

Section Document.

Variable d : value.

Lemma retained_messages c : hasMessages c -> retained host d c.
Proof. intro H. left. exact H. Qed.

Lemma keeps_arrayLoop items all :
  within (VArr all) d ->
  forall index,
    (forall i x, nth_error items i = Some x -> nth_error all (index + i) = Some x) ->
    keeps (retained host d)
          (forEach (fun conv index =>
                      bind (lift (arrayConversation host conv index))
                           (fun conversation =>
                              if ((0 <? List.length (messages conversation))%nat
                                  || truthy (get conv "title"))%bool
                              then push conversation else ret tt))
                   items index).
Proof.
  intro Hall. induction items as [|conv rest IH]; intros index Hnth; cbn [forEach].
  - apply keeps_ret.
  - apply keeps_bind.
    + apply keeps_bind_lift. intros c Hc.
      destruct ((0 <? List.length (messages c))%nat || truthy (get conv "title"))%bool eqn:E.
      * apply keeps_push. apply orb_prop in E. destruct E as [E|E].
        -- left. apply length_positive, E.
        -- right. exists all, index, conv. repeat split; try assumption.
           rewrite <- (Nat.add_0_r index). apply Hnth. reflexivity.
      * apply keeps_ret.
    + intros _. apply IH. intros i x Hx.
      replace (S index + i) with (index + S i) by lia. apply Hnth. exact Hx.
Qed.

Lemma keeps_parseArrayFormat v :
  within v d -> keeps (retained host d) (parseArrayFormat host v).
Proof.
  intro Hv. unfold parseArrayFormat. apply keeps_bind_lift. intros items Hitems.
  destruct v; try discriminate. injection Hitems as ->.
  apply (keeps_arrayLoop items items Hv 0). intros i x Hx. exact Hx.
Qed.

Lemma keeps_parseTakeoutFormat Q v :
  (forall c, hasMessages c -> Q c) -> keeps Q (parseTakeoutFormat host v).
Proof.
  intro HQ. unfold parseTakeoutFormat. destruct v; try apply keeps_ret.
  apply keeps_forEach. intros chat index. apply keeps_push_if_messages, HQ.
Qed.

Lemma keeps_parseGeminiActivityFormat Q v :
  (forall c, hasMessages c -> Q c) -> keeps Q (parseGeminiActivityFormat host v).
Proof.
  intro HQ. unfold parseGeminiActivityFormat. destruct v; try apply keeps_ret.
  apply keeps_forEach. intros activity index. apply keeps_push_if_messages, HQ.
Qed.

Lemma keeps_parseSingleConversation Q v :
  (forall c, hasMessages c -> Q c) -> keeps Q (parseSingleConversation host v).
Proof. intro HQ. apply keeps_push_if_messages, HQ. Qed.

Lemma keeps_parseApiFormat Q v :
  (forall c, hasMessages c -> Q c) -> keeps Q (parseApiFormat host v).
Proof. intro HQ. apply keeps_push_if_messages, HQ. Qed.

Lemma keeps_visitProperty key v inner :
  within v d ->
  keeps (retained host d) inner -> keeps (retained host d) (visitProperty host key v inner).
Proof.
  intros Hv H. unfold visitProperty. apply keeps_bind; [|intros _; exact H].
  apply keeps_if; [apply keeps_parseArrayFormat, Hv | apply keeps_ret].
Qed.

Lemma keeps_findConversations obj :
  within obj d -> keeps (retained host d) (findConversations host obj).
Proof.
  induction obj as [| | b | n | s | items IH | fields IH] using value_induction;
    intro Hobj; cbn [findConversations]; try apply keeps_ret.
  - apply keeps_if; [apply keeps_parseArrayFormat, Hobj|].
    assert (Hitems : forall x, In x items -> within x d)
      by (intros x Hx; apply (within_element x items); assumption).
    clear Hobj. generalize 0%nat.
    induction IH as [|x r Hx _ IHr]; intro index; cbn [eachItem].
    + apply keeps_ret.
    + apply keeps_bind.
      * apply keeps_visitProperty; [|apply Hx]; apply Hitems; left; reflexivity.
      * intros _. apply IHr. intros y Hy. apply Hitems. right. exact Hy.
  - assert (Hfields : forall k x, In (k, x) fields -> within x d)
      by (intros k x Hx; apply (within_value k x fields); assumption).
    clear Hobj.
    induction IH as [|[key v] r Hx _ IHr]; cbn [eachField].
    + apply keeps_ret.
    + apply keeps_bind.
      * cbn [snd] in Hx.
        apply keeps_visitProperty; [|apply Hx]; apply (Hfields key); left; reflexivity.
      * intros _. apply IHr. intros k y Hy. apply (Hfields k). right. exact Hy.
Qed.

(** The dispatch of [parseConversations], after the reset. *)
Lemma keeps_dispatch : keeps (retained host d) (dispatch host d).
Proof.
  pose proof retained_messages as Hleft.
  pose proof (within_here d) as Hd.
  unfold dispatch.
  apply keeps_bind_lift. intros gemini _. apply keeps_if.
  { apply keeps_bind; [apply keeps_setSource|]. intros _.
    apply keeps_parseGeminiActivityFormat, Hleft. }
  apply keeps_bind_lift. intros chatgpt _. apply keeps_if.
  { apply keeps_bind; [apply keeps_setSource|]. intros _. apply keeps_parseArrayFormat, Hd. }
  apply keeps_if; [apply keeps_parseArrayFormat, Hd|].
  apply keeps_bind_lift. intros convs Hconvs.
  destruct (truthy convs) eqn:Htruthy.
  { destruct (isArray convs) eqn:Harr.
    - apply keeps_parseArrayFormat. apply (getp_within _ _ _ Hconvs Harr).
    - unfold parseArrayFormat. apply keeps_bind_lift. intros items Hitems.
      destruct convs; discriminate. }
  apply keeps_if.
  { apply keeps_bind; [apply keeps_setSource|]. intros _.
    apply keeps_parseTakeoutFormat, Hleft. }
  apply keeps_if; [apply keeps_parseSingleConversation, Hleft|].
  apply keeps_if.
  { apply keeps_bind; [apply keeps_setSource|]. intros _.
    apply keeps_parseApiFormat, Hleft. }
  apply keeps_findConversations, Hd.
Qed.

End Document.

Lemma keeps_reclassify Q : keeps Q reclassify.
Proof.
  intros this H. unfold reclassify.
  destruct (detectedSource this); try exact H.
  destruct (existsb _isChatGPT (conversations this)); exact H.
Qed.

Lemma keeps_detectSourceFromFileName Q : keeps Q detectSourceFromFileName.
Proof.
  intros this H. unfold detectSourceFromFileName.
  destruct (fileName this =? ""); [exact H|].
  destruct (existsb _ geminiPatterns); [exact H|].
  destruct (existsb _ chatgptPatterns); exact H.
Qed.

(** The methods of [parseConversations] leave the document alone. *)
Lemma detectSourceFromFileName_jsonData this :
  jsonData (snd (detectSourceFromFileName (snd (reset this)))) = jsonData this.
Proof.
  unfold detectSourceFromFileName, reset. cbn [snd fileName].
  destruct (fileName this =? ""); [reflexivity|].
  destruct (existsb _ geminiPatterns); [reflexivity|].
  destruct (existsb _ chatgptPatterns); reflexivity.
Qed.

(** C8. When [parseArrayFormat] returns, it has pushed one conversation
    for each record that passes its test, in the order of the records,
    and nothing else: each was built from its record and has a message,
    or its record has a truthy title; a record that has neither adds
    nothing. Whatever the document and whichever way the parse ends,
    every conversation in the list of the converter has a message or was
    built by the array-format callback from a record of the document
    with a truthy title; the parsers of the other formats add
    conversations with messages only. *)
Theorem parseConversations_retained (this : AIChatConverter) :
  (forall items start after,
      parseArrayFormat host (VArr items) start = (Ok tt, after) ->
      exists pushed,
        after = pushAll pushed start
        /\ Forall2 (keptFrom host) (filter (passes host) (indexed items)) pushed)
  /\ Forall (retained host (jsonData this))
            (conversations (snd (parseConversations host this)))
  /\ (forall v start,
        Forall hasMessages (conversations start) ->
        Forall hasMessages (conversations (snd (parseTakeoutFormat host v start)))
        /\ Forall hasMessages (conversations (snd (parseGeminiActivityFormat host v start)))
        /\ Forall hasMessages (conversations (snd (parseSingleConversation host v start)))
        /\ Forall hasMessages (conversations (snd (parseApiFormat host v start)))).
Proof.
  split; [|split].
  - intros items start after. unfold parseArrayFormat, indexed.
    unfold bind at 1. cbn [lift elements]. apply arrayLoop_exact.
  - unfold parseConversations.
    set (Q := retained host (jsonData this)).
    assert (Hrest : forall k : M unit,
               (forall mid, jsonData mid = jsonData this ->
                            Forall Q (conversations mid) ->
                            Forall Q (conversations (snd (k mid)))) ->
               Forall Q (conversations
                           (snd (bind reset
                                      (fun _ => bind detectSourceFromFileName (fun _ => k))
                                      this)))).
    { intros k Hk. unfold bind at 1. cbn [reset].
      unfold bind.
      pose proof (detectSourceFromFileName_jsonData this) as Hdata.
      pose proof (keeps_detectSourceFromFileName Q (snd (reset this))) as Hkeep.
      unfold reset in Hdata, Hkeep. cbn [snd conversations] in Hdata, Hkeep.
      destruct (detectSourceFromFileName _) as [[[]| |] mid]; cbn [snd] in *;
        [apply Hk; [exact Hdata | apply Hkeep; constructor]
        | apply Hkeep; constructor | apply Hkeep; constructor]. }
    apply Hrest. intros mid Hdata Hmid. unfold bind. rewrite Hdata.
    pose proof (keeps_dispatch (jsonData this) mid Hmid) as Hd. fold Q in Hd.
    destruct (dispatch host (jsonData this) mid) as [[[]| |] last]; cbn [snd] in *;
      [apply keeps_reclassify, Hd | exact Hd | exact Hd].
  - intros v start H. repeat split.
    + apply (keeps_parseTakeoutFormat hasMessages v (fun c Hc => Hc) start H).
    + apply (keeps_parseGeminiActivityFormat hasMessages v (fun c Hc => Hc) start H).
    + apply (keeps_parseSingleConversation hasMessages v (fun c Hc => Hc) start H).
    + apply (keeps_parseApiFormat hasMessages v (fun c Hc => Hc) start H).
Qed.

End Retention.

Lemma parseConversations_retained_witness :
  exists pushed,
    snd (parseArrayFormat sampleHost (VArr titledAndUntitled)
           (loaded "export.json" (VArr titledAndUntitled)))
    = pushAll pushed (loaded "export.json" (VArr titledAndUntitled))
    /\ Forall2 (keptFrom sampleHost) [(VObj [("title", VStr "Empty")], 0)] pushed.
Proof.
  destruct (parseConversations_retained sampleHost
              (loaded "export.json" (VArr titledAndUntitled))) as [Harray _].
  destruct (Harray titledAndUntitled (loaded "export.json" (VArr titledAndUntitled))
                   (snd (parseArrayFormat sampleHost (VArr titledAndUntitled)
                           (loaded "export.json" (VArr titledAndUntitled))))
                   eq_refl) as (pushed & Hafter & Hall).
  exists pushed. split; [exact Hafter | exact Hall].
Defined.

Example takeout_result :
  map title (conversations
               (snd (parseConversations sampleHost
                       (loaded "takeout.json" (VObj [("chats", takeoutChats)])))))
  = [VStr "Kept"].
Proof. reflexivity. Qed.

(** An array-format record without messages is retained for its title;
    one that has a name only is left out. *)
Example titled_empty_retained :
  conversations (snd (parseConversations sampleHost
                        (loaded "export.json" (VArr titledAndUntitled))))
  = [ {| id := VStr "conversation_1"; title := VStr "Empty"; createTime := None;
         updateTime := None; messages := []; _isChatGPT := false |} ]
  /\ map (passes sampleHost) (indexed titledAndUntitled) = [true; false].
Proof. split; reflexivity. Qed.

(** * Where the pipeline returns normally *)

(** ** Well-typed records *)

Lemma textTyped_string v : textTyped v = true -> truthy v = true -> exists s, v = VStr s.
Proof.
  unfold textTyped. intros H Ht. rewrite Ht in H. simpl in H.
  destruct v; try discriminate. eauto.
Qed.

Lemma mapM_ok {A B} (f : A -> outcome B) (l : list A) :
  Forall (fun x => exists y, f x = Ok y) l -> exists ys, mapM f l = Ok ys.
Proof.
  induction 1 as [|x r [y Hy] _ [ys IH]]; cbn [mapM].
  - eauto.
  - rewrite Hy, IH. cbn [obind]. eauto.
Qed.

(** Values that convert can be joined. *)
Lemma arr_join_converts sep items :
  Forall (fun x => converts x = true) items -> exists s, arr_join sep items = Ok s.
Proof.
  intro H. unfold arr_join.
  assert (E : exists texts,
             traverse (fun x => match x with
                                | VUndef | VNull => Some EmptyString
                                | _ => ToString x
                                end) items = Some texts).
  { induction H as [|x r Hx _ [texts IH]]; cbn [traverse]; [eauto|].
    rewrite IH. unfold converts in Hx.
    destruct x; cbn [ToString] in *; eauto;
      match goal with
      | |- context [match ?o with Some _ => _ | None => _ end] =>
          destruct o; [eauto | discriminate]
      end. }
  destruct E as [texts ->]. eauto.
Qed.

(** The texts of typed entries convert. *)
Lemma entryTexts_convert items :
  forallb entryTyped items = true ->
  exists texts, mapM entryText items = Ok texts
                /\ Forall (fun x => converts x = true) (somes texts).
Proof.
  induction items as [|p r IH]; cbn [forallb mapM]; [intros _; exists []; split; [reflexivity | constructor]|].
  intro H. apply andb_prop in H. destruct H as [Hp Hr].
  destruct (IH Hr) as (texts & -> & Hall).
  unfold entryTyped in Hp. apply andb_prop in Hp. destruct Hp as [Hnn Hconv].
  destruct p; try discriminate; cbn [entryText getp obind].
  - (* a boolean *) exists (None :: texts). split; [reflexivity | exact Hall].
  - (* a number *) exists (None :: texts). split; [reflexivity | exact Hall].
  - (* a string *) eexists. split; [reflexivity|]. cbn [somes flat_map app].
    constructor; [reflexivity | exact Hall].
  - (* an array *)
    destruct (truthy (get (VArr items) "text")); eexists; (split; [reflexivity|]);
      cbn [somes flat_map app]; [constructor; assumption | exact Hall].
  - (* an object *)
    destruct (truthy (get (VObj fields) "text")); eexists; (split; [reflexivity|]);
      cbn [somes flat_map app]; [constructor; assumption | exact Hall].
Qed.

Lemma joinedParts_typed parts :
  partsTyped parts = true -> truthy parts = true -> exists s, joinedParts parts = Ok (VStr s).
Proof.
  unfold partsTyped. intros H Ht. rewrite Ht in H. simpl in H.
  destruct parts; try discriminate.
  unfold joinedParts. cbn [elements obind].
  destruct (entryTexts_convert items H) as (texts & -> & Hall). cbn [obind].
  destruct (arr_join_converts nl _ Hall) as [s ->]. cbn [obind]. eauto.
Qed.

Lemma messageRole_typed msg :
  textTyped (get msg "role") = true ->
  authorTyped (get msg "author") = true ->
  textTyped (get msg "sender") = true ->
  textTyped (get msg "from") = true ->
  exists s, messageRole msg = VStr s.
Proof.
  intros Hr Ha Hs Hf. unfold messageRole.
  destruct (truthy (get msg "role")) eqn:Er; [apply textTyped_string; assumption|].
  destruct (truthy (get msg "author")) eqn:Ea.
  - unfold authorTyped in Ha. rewrite Ea in Ha. simpl in Ha.
    destruct (is_string (get msg "author")) eqn:Es.
    + destruct (get msg "author"); try discriminate. eauto.
    + simpl in Ha. unfold or_.
      destruct (truthy (get (get msg "author") "role")) eqn:Et;
        [apply textTyped_string; assumption | eauto].
  - destruct (truthy (get msg "sender")) eqn:Es; [apply textTyped_string; assumption|].
    destruct (truthy (get msg "from")) eqn:Ef; [apply textTyped_string; assumption|].
    eauto.
Qed.

Lemma messageContent_typed msg :
  contentTyped (get msg "content") = true ->
  partsTyped (get msg "parts") = true ->
  textTyped (get msg "text") = true ->
  exists s, messageContent msg = Ok (VStr s).
Proof.
  intros Hc Hp Ht. rewrite messageContent_precedence.
  unfold contentByPrecedence, contentSources. cbv zeta. cbn [find fst].
  destruct (truthy (get msg "content")) eqn:Ec; cbn [andb].
  - unfold contentTyped in Hc. rewrite Ec in Hc. simpl in Hc.
    destruct (is_string (get msg "content")) eqn:Es.
    + destruct (get msg "content"); try discriminate. eauto.
    + simpl in Hc. apply andb_prop in Hc. destruct Hc as [Hcp Hct].
      destruct (truthy (get (get msg "content") "parts")) eqn:Ep;
        [apply joinedParts_typed; assumption|].
      destruct (truthy (get (get msg "content") "text")) eqn:Et; [|eauto].
      destruct (textTyped_string _ Hct Et) as [s ->]. eauto.
  - destruct (truthy (get msg "parts")) eqn:Ep; [apply joinedParts_typed; assumption|].
    destruct (truthy (get msg "text")) eqn:Et.
    + destruct (textTyped_string _ Ht Et) as [s ->]. eauto.
    + destruct (truthy (get msg "message")); eauto.
Qed.

(** ** Keys that are numbers *)

Lemma string_of_N_parses n :
  NilEmpty.uint_of_string (string_of_N n) = Some (N.to_uint n).
Proof.
  unfold string_of_N.
  assert (E : NilZero.string_of_uint (N.to_uint n) = NilEmpty.string_of_uint (N.to_uint n)).
  { destruct n as [|p]; [reflexivity|]. cbn [N.to_uint].
    pose proof (DecimalPos.Unsigned.to_uint_nonnil p) as H.
    destruct (Pos.to_uint p); [contradiction | reflexivity..]. }
  rewrite E. apply NilEmpty.usu.
Qed.

(** A character that is no decimal digit stands in no numeral. *)
Lemma numeral_chars x s :
  NilEmpty.uint_of_string (String x EmptyString) = None ->
  NilEmpty.uint_of_string s <> None -> ~ In x (chars s).
Proof.
  intros Hx. unfold chars. induction s as [|c r IH]; [intros _ []|].
  cbn [NilEmpty.uint_of_string list_ascii_of_string].
  destruct (NilEmpty.uint_of_string r) as [d|].
  - intros H [<-|Hin]; [|apply IH; [discriminate | exact Hin]].
    apply H. cbn [NilEmpty.uint_of_string] in Hx.
    destruct c as [[] [] [] [] [] [] [] []]; try discriminate Hx; reflexivity.
  - intro H. exfalso. apply H. destruct c as [[] [] [] [] [] [] [] []]; reflexivity.
Qed.

Lemma lower_fixed s :
  Forall (fun c => lower_char c = c) (chars s) -> lower s = s.
Proof.
  unfold chars. induction s as [|c r IH]; [reflexivity|].
  cbn [list_ascii_of_string lower]. intro H. inversion H as [|? ? Hc Hr]; subst.
  rewrite Hc, (IH Hr). reflexivity.
Qed.

Lemma str_includes_head x p s : str_includes (String x p) s = true -> In x (chars s).
Proof.
  unfold chars. induction s as [|c r IH]; cbn [str_includes starts_with list_ascii_of_string].
  - discriminate.
  - intro H. apply orb_prop in H. destruct H as [H|H].
    + apply andb_prop in H. destruct H as [H _].
      left. symmetry. apply Ascii.eqb_eq, H.
    + right. apply IH. destruct r; exact H.
Qed.

(** An index is no key of a conversation list. *)
Lemma conversationKey_index index : conversationKey (string_of_nat index) = false.
Proof.
  unfold string_of_nat.
  set (s := string_of_N (N.of_nat index)).
  assert (Hs : NilEmpty.uint_of_string s <> None)
    by (unfold s; rewrite string_of_N_parses; discriminate).
  assert (Hlower : lower s = s).
  { apply lower_fixed. apply Forall_forall. intros c Hc.
    unfold lower_char. destruct (is_upper c) eqn:Hu; [|reflexivity].
    exfalso. revert Hc. apply numeral_chars; [|exact Hs].
    destruct c as [[] [] [] [] [] [] [] []]; try discriminate Hu; reflexivity. }
  unfold conversationKey. rewrite Hlower.
  assert (Hno : forall x p, NilEmpty.uint_of_string (String x EmptyString) = None ->
                            str_includes (String x p) s = false).
  { intros x p Hx. destruct (str_includes (String x p) s) eqn:E; [|reflexivity].
    exfalso. apply (numeral_chars x s Hx Hs). apply (str_includes_head _ _ _ E). }
  rewrite !Hno by reflexivity. reflexivity.
Qed.

Section Totality.

Variable host : Host.
Hypothesis sorts : rearranges host.

(** [parseMessage] returns, a message or [null], on a well-typed
    record. *)
Lemma parseMessage_typed msg :
  wellTypedMessage msg = true -> exists r, parseMessage host msg = Ok r.
Proof.
  unfold wellTypedMessage, parseMessage.
  destruct (truthy msg); cbn [negb orb]; [|eauto].
  intro H. repeat (apply andb_prop in H; destruct H as [H ?]).
  destruct (messageRole_typed msg) as [r Hr]; try assumption.
  destruct (messageContent_typed msg) as [s Hs]; try assumption.
  rewrite Hr, Hs. cbn [normalizeRole toLowerCase trim obind].
  destruct (trim_string s =? ""); eauto.
Qed.

Lemma parseMessages_typed items :
  forallb wellTypedMessage items = true ->
  exists parsed, mapM (parseMessage host) items = Ok parsed.
Proof.
  intro H. apply mapM_ok. rewrite forallb_forall in H.
  apply Forall_forall. intros msg Hin. apply parseMessage_typed, H, Hin.
Qed.

Lemma messagesTyped_parsed container :
  messagesTyped container = true ->
  exists items parsed,
    elements container = Ok items /\ mapM (parseMessage host) items = Ok parsed.
Proof.
  unfold messagesTyped. destruct container; try discriminate. intro H.
  destruct (parseMessages_typed items H) as [parsed Hp]. exists items, parsed. auto.
Qed.

(** ** Well-typed mappings *)

Lemma lookup_in k fields : In k (map fst fields) -> In (k, lookup k fields) fields.
Proof.
  induction fields as [|[k' v] r IH]; simpl; [contradiction|].
  destruct (String.eqb_spec k' k) as [->|Hne].
  - intros _. left. reflexivity.
  - intros [E|Hin]; [contradiction | right; apply IH, Hin].
Qed.

Lemma lookup_remove_key k k' fields :
  k <> k' -> lookup k (remove_key k' fields) = lookup k fields.
Proof.
  intro Hne. induction fields as [|[k0 v] r IH]; simpl; [reflexivity|].
  destruct (String.eqb_spec k0 k') as [->|H0].
  - rewrite IH. destruct (String.eqb_spec k' k) as [E|_]; [congruence | reflexivity].
  - simpl. rewrite IH. reflexivity.
Qed.

Lemma falsy_get v k : truthy v = false -> truthy (get v k) = false.
Proof.
  destruct v; simpl; try reflexivity; try discriminate.
  intro H. apply negb_false_iff in H. destruct (String.eqb_spec s ""); [subst|discriminate].
  simpl. destruct (k =? "length"); [reflexivity|].
  destruct (index_of_key k) as [[|i]|]; reflexivity.
Qed.

Lemma typed_node_of_key fields k :
  forallb (fun kv => nodeTyped (snd kv)) fields = true ->
  In k (map fst fields) ->
  nodeTyped (lookup k fields) = true.
Proof.
  intros H Hin. rewrite forallb_forall in H.
  apply (H (k, lookup k fields)), lookup_in, Hin.
Qed.

(** What a typed node holds. *)
Lemma nodeTyped_spec node :
  nodeTyped node = true ->
  converts (get node "parent") = true
  /\ (truthy (get node "message") = true ->
      converts (get (get node "message") "create_time") = true
      /\ (truthy (get (get (get node "message") "content") "parts") = true ->
          isArray (get (get (get node "message") "content") "parts") = true)).
Proof.
  unfold nodeTyped. destruct node; try discriminate. cbv zeta.
  intro H. apply andb_prop in H. destruct H as [Hparent H].
  split; [exact Hparent|]. intro Hm. rewrite Hm in H. cbn [negb orb] in H.
  apply andb_prop in H. destruct H as [Htime H].
  split; [exact Htime|]. intro Hp. rewrite Hp in H. exact H.
Qed.

Lemma nodeMessage_typed node :
  nodeTyped node = true -> exists e, nodeMessage host node = Ok e.
Proof.
  intro Hty. destruct (nodeTyped_spec node Hty) as [_ Hmsg].
  unfold nodeMessage. cbv zeta.
  destruct (truthy (get node "message")) eqn:Hm; [|eauto].
  destruct (Hmsg eq_refl) as [_ Hparts].
  unfold chainMessage. cbv zeta.
  assert (Hitems : exists items,
             or_ (get (or_ (get (get node "message") "content") (VObj [])) "parts")
                 (VArr []) = VArr items).
  { unfold or_ at 2.
    destruct (truthy (get (get node "message") "content"));
      [|exists []; reflexivity].
    unfold or_.
    destruct (truthy (get (get (get node "message") "content") "parts"));
      [|eauto].
    specialize (Hparts eq_refl).
    destruct (get (get (get node "message") "content") "parts");
      cbn [isArray] in Hparts; try discriminate. eauto. }
  destruct Hitems as [items ->]. cbn [elements obind].
  rewrite arr_join_strings. cbn [obind].
  match goal with |- exists e, (if ?b then _ else _) = _ => destruct b end; eauto.
Qed.

Lemma mappingTyped_nodes mapping :
  mappingTyped mapping = true -> nodesWellTyped host mapping = true.
Proof.
  unfold mappingTyped, nodesWellTyped. destruct mapping; try discriminate.
  intro H. apply forallb_forall. intros k Hin. cbn [readable_keys keys] in Hin.
  destruct (nodeMessage_typed (get (VObj fields) k)) as [e ->]; [|reflexivity].
  apply typed_node_of_key; assumption.
Qed.

Lemma mappingTyped_parents mapping k :
  mappingTyped mapping = true -> converts (get (get mapping k) "parent") = true.
Proof.
  unfold mappingTyped. destruct mapping; try discriminate. intro H. cbn [get].
  destruct (in_dec string_dec k (map fst fields)) as [Hin|Hout].
  - apply nodeTyped_spec, typed_node_of_key; assumption.
  - rewrite (lookup_unbound _ _ Hout). reflexivity.
Qed.

Lemma get_withId_message id0 fields :
  get (withId id0 (VObj fields)) "message" = get (VObj fields) "message".
Proof.
  unfold withId. cbn [own_fields get lookup].
  change ("id" =? "message") with false. cbv iota.
  apply lookup_remove_key. discriminate.
Qed.

Lemma sortedMessage_typed id0 node :
  nodeTyped node = true -> exists e, sortedMessage host (withId id0 node) = Ok e.
Proof.
  intro Hty. destruct (nodeTyped_spec node Hty) as [_ Hmsg].
  destruct node; try discriminate.
  unfold sortedMessage. cbv zeta. rewrite get_withId_message.
  destruct (truthy (get (VObj fields) "message")) eqn:Hm.
  - destruct (Hmsg eq_refl) as [_ Hparts].
    destruct (truthy (get (get (VObj fields) "message") "author")
              && truthy (get (get (VObj fields) "message") "content"))%bool; [|eauto].
    destruct (truthy (get (get (get (VObj fields) "message") "content") "parts")) eqn:Hp.
    + specialize (Hparts eq_refl).
      destruct (get (get (get (VObj fields) "message") "content") "parts");
        cbn [isArray] in Hparts; try discriminate.
      cbn [elements obind]. rewrite arr_join_strings. cbn [obind].
      match goal with |- exists e, (if ?b then _ else _) = _ => destruct b end; eauto.
    + destruct (get (get (VObj fields) "message") "content"); cbn [obind];
        match goal with |- exists e, (if ?b then _ else _) = _ => destruct b end; eauto.
  - rewrite (falsy_get _ "author" Hm). cbn [andb]. eauto.
Qed.

(** The times of typed nodes convert: the sort does not throw. *)
Lemma sortNodes_typed fields nodes :
  forallb (fun kv => nodeTyped (snd kv)) fields = true ->
  incl nodes (map (fun id => withId id (get (VObj fields) id)) (keys (VObj fields))) ->
  sortNodes host nodes = Ok (sort_by_create_time host nodes).
Proof.
  intros Hty Hincl. unfold sortNodes.
  assert (E : forallb (fun node => converts (sortTime node)) nodes = true).
  { apply forallb_forall. intros node Hin. apply Hincl, in_map_iff in Hin.
    destruct Hin as [id0 [<- Hid]]. cbn [get keys] in *.
    pose proof (typed_node_of_key fields id0 Hty Hid) as Hnode.
    destruct (lookup id0 fields) as [| | | | | |nodeFields] eqn:El; try discriminate.
    destruct (nodeTyped_spec _ Hnode) as [_ Hmsg].
    unfold sortTime. rewrite get_withId_message. unfold or_.
    destruct (truthy (get (get (VObj nodeFields) "message") "create_time")) eqn:Ht;
      [|reflexivity].
    destruct (truthy (get (VObj nodeFields) "message")) eqn:Hm.
    - apply Hmsg. reflexivity.
    - rewrite (falsy_get _ "create_time" Hm) in Ht. discriminate. }
  rewrite E. cbn [negb]. rewrite andb_false_r. reflexivity.
Qed.

Lemma parseMapping_typed mapping currentNode :
  mappingTyped mapping = true ->
  converts currentNode = true ->
  exists chain, parseMapping host mapping currentNode = Ok chain.
Proof.
  intros Hty Hcur. pose proof (mappingTyped_nodes mapping Hty) as Hnodes.
  pose proof (fun k => mappingTyped_parents mapping k Hty) as Hparents.
  unfold parseMapping. cbv zeta.
  set (node := match currentNode with VUndef => VNull | v => v end).
  assert (Hnode : converts node = true)
    by (unfold node; destruct currentNode; try reflexivity; exact Hcur).
  clearbody node.
  destruct mapping as [| | | | | |fields]; try discriminate.
  assert (Hfallback :
            exists found,
              (let* sortedNodes :=
                 sortNodes host
                   (filter (fun n => truthy (get n "message")
                                     && truthy (get (get n "message") "content"))%bool
                           (map (fun id => withId id (get (VObj fields) id))
                                (keys (VObj fields)))) in
               let* found := mapM (sortedMessage host) sortedNodes in
               Ok (somes found)) = Ok found).
  { rewrite (sortNodes_typed fields) by (exact Hty || (intros x Hx; apply filter_In in Hx; apply Hx)).
    cbn [obind].
    destruct (mapM_ok (sortedMessage host)
                (sort_by_create_time host
                   (filter (fun n => truthy (get n "message")
                                     && truthy (get (get n "message") "content"))%bool
                           (map (fun id => withId id (get (VObj fields) id))
                                (keys (VObj fields)))))) as [found ->]; [|cbn [obind]; eauto].
    apply (Permutation_Forall (Permutation_sym (sorts _))).
    apply Forall_forall. intros n Hn. apply filter_In in Hn. destruct Hn as [Hn _].
    apply in_map_iff in Hn. destruct Hn as [id0 [<- Hid]].
    apply sortedMessage_typed. cbn [get]. apply typed_node_of_key; assumption. }
  destruct Hfallback as [found Hfound].
  destruct (truthy node); cbn [obind andb]; [|rewrite Hfound; eauto].
  unfold to_string. unfold converts in Hnode.
  destruct (ToString node) as [key|] eqn:Hkey; [|discriminate]. cbn [getp obind].
  destruct (truthy (get (VObj fields) key)); [|rewrite Hfound; eauto].
  pose proof (leafChain_fuel host (VObj fields) node) as Hfuel.
  assert (Hconv : converts node = true) by (unfold converts; rewrite Hkey; reflexivity).
  pose proof (walk_typed host (VObj fields) Hparents Hnodes (walk_fuel (VObj fields))
                         node Argument [] [] Hconv) as Htyped.
  fold (leafChain host (VObj fields) node) in Htyped.
  destruct (leafChain host (VObj fields) node) as [r| |]; try congruence.
  cbn [obind]. eauto.
Qed.

Lemma firstUserNode_typed fields nodeIds :
  forallb (fun kv => nodeTyped (snd kv)) fields = true ->
  incl nodeIds (map fst fields) ->
  exists found, firstUserNode (VObj fields) nodeIds = Ok found.
Proof.
  intro Hty. induction nodeIds as [|nodeId r IH]; intro Hincl; cbn [firstUserNode].
  - eauto.
  - pose proof (typed_node_of_key fields nodeId Hty (Hincl _ (or_introl eq_refl))) as Hnode.
    cbn [get] in *. destruct (lookup nodeId fields); try discriminate.
    cbn [getp obind].
    match goal with |- exists f, (if ?b then _ else _) = _ => destruct b end; [eauto|].
    apply IH. intros x Hx. apply Hincl. right. exact Hx.
Qed.

Lemma extractConversationIdFromMapping_typed mapping :
  mappingTyped mapping = true ->
  exists found, extractConversationIdFromMapping mapping = Ok found.
Proof.
  unfold mappingTyped, extractConversationIdFromMapping.
  destruct mapping; try discriminate. intro Hty. cbv zeta.
  destruct (firstUserNode_typed fields (keys (VObj fields)) Hty) as [found ->];
    [apply incl_refl|].
  cbn [obind]. destruct found; [eauto|].
  destruct (find _ _); eauto.
Qed.

(** ** Well-typed documents *)

Lemma getp_notNullish v k : notNullish v = true -> getp v k = Ok (get v k).
Proof. destruct v; try discriminate; reflexivity. Qed.

Lemma arrayConversation_typed conv index :
  wellTypedConversation conv = true ->
  exists c, arrayConversation host conv index = Ok c.
Proof.
  unfold wellTypedConversation. intro H.
  apply andb_prop in H. destruct H as [Hnn H].
  unfold arrayConversation. rewrite (getp_notNullish _ "id" Hnn). cbn [obind].
  destruct (truthy (get conv "mapping")) eqn:Hm.
  - apply andb_prop in H. destruct H as [H Hleaf].
    match goal with
    | |- context [if ?b then extractConversationIdFromMapping _ else _] => destruct b
    end.
    + destruct (extractConversationIdFromMapping_typed _ H) as [found ->]. cbn [obind].
      destruct (parseMapping_typed (get conv "mapping") (get conv "current_node") H Hleaf)
        as [chain ->].
      cbn [obind]. eauto.
    + cbn [obind].
      destruct (parseMapping_typed (get conv "mapping") (get conv "current_node") H Hleaf)
        as [chain ->].
      cbn [obind]. eauto.
  - rewrite Bool.andb_false_r. cbn [obind].
    assert (Hor : forall x, or_ (get conv "mapping") x = x)
      by (intro x; unfold or_; rewrite Hm; reflexivity).
    rewrite Hor.
    destruct (or_ (get conv "messages")
                  (or_ (get conv "content") (or_ (get conv "history") (VArr []))));
      eauto.
    destruct (parseMessages_typed items H) as [parsed ->]. cbn [obind]. eauto.
Qed.

Lemma takeoutConversation_typed chat index :
  chatTyped chat = true -> exists c, takeoutConversation host chat index = Ok c.
Proof.
  unfold chatTyped. intro H. apply andb_prop in H. destruct H as [Hnn H].
  unfold takeoutConversation. rewrite (getp_notNullish _ "id" Hnn). cbn [obind].
  destruct (messagesTyped_parsed _ H) as (items & parsed & -> & Hp). cbn [obind].
  rewrite Hp. cbn [obind]. eauto.
Qed.

Lemma singleConversation_typed data :
  notNullish data = true -> singleTyped data = true ->
  exists c, singleConversation host data = Ok c.
Proof.
  unfold singleTyped. intros Hnn H.
  unfold singleConversation. rewrite (getp_notNullish _ "id" Hnn). cbn [obind].
  destruct (messagesTyped_parsed _ H) as (items & parsed & -> & Hp). cbn [obind].
  rewrite Hp. cbn [obind]. eauto.
Qed.

Lemma apiMessages_typed content :
  turnTyped content = true -> exists ms, apiMessages content = Ok ms.
Proof.
  unfold turnTyped. intro H. apply andb_prop in H. destruct H as [Hnn H].
  unfold apiMessages. rewrite (getp_notNullish _ "role" Hnn). cbn [obind].
  destruct (or_ (get content "parts") (VArr [])); try discriminate.
  cbn [elements obind].
  match goal with
  | |- context [mapM ?f items] => destruct (mapM_ok f items) as [found ->]
  end.
  - rewrite forallb_forall in H. apply Forall_forall. intros part Hin.
    rewrite (getp_notNullish _ "text" (H _ Hin)). cbn [obind]. eauto.
  - cbn [obind]. eauto.
Qed.

Lemma apiConversation_typed data :
  notNullish data = true -> apiTyped data = true ->
  exists c, apiConversation host data = Ok c.
Proof.
  unfold apiTyped. intros Hnn H.
  unfold apiConversation. rewrite (getp_notNullish _ "contents" Hnn). cbn [obind].
  destruct (get data "contents"); try discriminate. cbn [elements obind].
  destruct (mapM_ok apiMessages items) as [found ->].
  - rewrite forallb_forall in H. apply Forall_forall. intros content Hin.
    apply apiMessages_typed, H, Hin.
  - cbn [obind]. eauto.
Qed.

Lemma stripHtml_typed html : textTyped html = true -> exists s, stripHtml (or_ html (VStr "")) = Ok s.
Proof.
  intro H. unfold or_. destruct (truthy html) eqn:Ht.
  - destruct (textTyped_string _ H Ht) as [s ->].
    unfold stripHtml. rewrite Ht. cbn [negb]. eauto.
  - unfold stripHtml. cbn [truthy String.eqb negb]. eauto.
Qed.

Lemma get_first first rest : get (VArr (first :: rest)) "0" = first.
Proof.
  cbn [get String.eqb Ascii.eqb Bool.eqb].
  change (index_of_key "0") with (Some 0%N).
  destruct (N.ltb_spec 0 (N.of_nat (S (List.length rest)))) as [_|H]; [reflexivity | lia].
Qed.

Lemma newDate_typed v : converts v = true -> exists date, newDate host v = Ok date.
Proof.
  unfold converts, newDate, to_string.
  destruct v; eauto; (destruct (ToString _); [cbn [obind]; eauto | discriminate]).
Qed.

Lemma activityConversation_typed activity index :
  activityTyped activity = true ->
  exists c, activityConversation host activity index = Ok c.
Proof.
  unfold activityTyped. cbv zeta. intro H.
  apply andb_prop in H. destruct H as [H Htime].
  apply andb_prop in H. destruct H as [H Hitems].
  apply andb_prop in H. destruct H as [Hnn Htitle].
  unfold activityConversation. rewrite (getp_notNullish _ "title" Hnn). cbn [obind].
  assert (Hsent : exists sent,
             (if truthy (get activity "title")
              then startsWith (get activity "title") sentPrefix else Ok false) = Ok sent).
  { destruct (truthy (get activity "title")) eqn:Ht; [|eauto].
    destruct (textTyped_string _ Htitle Ht) as [s ->]. cbn [startsWith]. eauto. }
  destruct Hsent as [sent ->]. cbn [obind].
  assert (Hai : exists aiResponse,
             (let* filled :=
                (if truthy (get activity "safeHtmlItem")
                 then gt_zero host (get (get activity "safeHtmlItem") "length")
                 else Ok false) in
              let* aiResponse :=
                (if filled
                 then
                   let* html := getp (get (get activity "safeHtmlItem") "0") "html" in
                   stripHtml (or_ html (VStr ""))
                 else Ok "") in
              Ok aiResponse) = Ok aiResponse).
  { destruct (truthy (get activity "safeHtmlItem")) eqn:Hs; [|cbn [obind]; eauto].
    cbn [negb orb] in Hitems.
    destruct (get activity "safeHtmlItem") as [| | | | |[|first rest]|]; try discriminate.
    - cbn. eauto.
    - apply andb_prop in Hitems. destruct Hitems as [Hfirst Hhtml].
      rewrite get_first.
      assert (Hlen : gt_zero host (get (VArr (first :: rest)) "length") = Ok true).
      { cbn [get String.eqb Ascii.eqb Bool.eqb]. unfold gt_zero. cbn [ToString].
        destruct rest; reflexivity. }
      rewrite Hlen. cbn [obind].
      rewrite (getp_notNullish _ "html" Hfirst). cbn [obind].
      destruct (stripHtml_typed _ Hhtml) as [s ->]. cbn [obind]. eauto. }
  destruct Hai as [aiResponse Hai].
  destruct (if truthy (get activity "safeHtmlItem") then _ else _) as [filled| |];
    cbn [obind] in Hai |- *; try discriminate.
  match type of Hai with
  | obind ?o _ = _ => destruct o as [ai| |]; cbn [obind] in Hai |- *; try discriminate
  end.
  assert (Hdate : exists stamp,
             (if truthy (get activity "time")
              then let* date := newDate host (get activity "time") in Ok (Some date)
              else Ok None) = Ok stamp).
  { destruct (truthy (get activity "time")); [|eauto].
    destruct (newDate_typed _ Htime) as [date ->]. cbn [obind]. eauto. }
  destruct Hdate as [stamp ->]. cbn [obind]. eauto.
Qed.

Lemma succeeds_ret : succeeds (ret tt).
Proof. intro this. reflexivity. Qed.

Lemma succeeds_push c : succeeds (push c).
Proof. intro this. reflexivity. Qed.

Lemma succeeds_setSource s : succeeds (setSource s).
Proof. intro this. reflexivity. Qed.

Lemma succeeds_seq (m k : M unit) : succeeds m -> succeeds k -> succeeds (bind m (fun _ => k)).
Proof.
  intros Hm Hk this. unfold bind. specialize (Hm this).
  destruct (m this) as [[[]| |] this']; simpl in Hm; try discriminate. apply Hk.
Qed.

Lemma succeeds_lift {A} (o : outcome A) (k : A -> M unit) (a : A) :
  o = Ok a -> succeeds (k a) -> succeeds (bind (lift o) k).
Proof. intros -> Hk this. unfold bind, lift. apply Hk. Qed.

Lemma succeeds_forEach {A} (f : A -> nat -> M unit) (l : list A) :
  Forall (fun x => forall index, succeeds (f x index)) l ->
  forall index, succeeds (forEach f l index).
Proof.
  induction 1 as [|x r Hx _ IH]; intro index; cbn [forEach].
  - apply succeeds_ret.
  - apply succeeds_seq; [apply Hx | apply IH].
Qed.

(** The loop of a parser over typed records. *)
Lemma succeeds_loop (typed : value -> bool) (build : value -> nat -> outcome Conversation)
      (test : value -> Conversation -> bool) (items : list value) (index : nat) :
  (forall x i, typed x = true -> exists c, build x i = Ok c) ->
  forallb typed items = true ->
  succeeds (forEach (fun x i => bind (lift (build x i))
                                     (fun c => if test x c then push c else ret tt))
                    items index).
Proof.
  intros Hbuild H. apply succeeds_forEach. rewrite forallb_forall in H.
  apply Forall_forall. intros x Hin i.
  destruct (Hbuild x i (H _ Hin)) as [c Hc].
  apply (succeeds_lift _ _ c Hc).
  destruct (test x c); [apply succeeds_push | apply succeeds_ret].
Qed.

Lemma parseArrayFormat_typed v :
  wellTypedList v = true -> succeeds (parseArrayFormat host v).
Proof.
  unfold wellTypedList. destruct v; try discriminate. intro H.
  unfold parseArrayFormat. apply (succeeds_lift _ _ items eq_refl).
  apply (succeeds_loop wellTypedConversation (arrayConversation host)
           (fun conv c => (0 <? List.length (messages c))%nat || truthy (get conv "title"))%bool).
  - intros x i. apply arrayConversation_typed.
  - exact H.
Qed.

Lemma parseTakeoutFormat_typed v :
  chatsTyped v = true -> succeeds (parseTakeoutFormat host v).
Proof.
  unfold chatsTyped, parseTakeoutFormat. destruct v; try (intros _; apply succeeds_ret).
  apply (succeeds_loop chatTyped (takeoutConversation host)
           (fun _ c => (0 <? List.length (messages c))%nat)).
  intros x i. apply takeoutConversation_typed.
Qed.

Lemma forallb_rev {A} (f : A -> bool) (l : list A) :
  forallb f l = true -> forallb f (rev l) = true.
Proof.
  intro H. apply forallb_forall. intros x Hx. apply in_rev in Hx.
  rewrite forallb_forall in H. apply H, Hx.
Qed.

Lemma parseGeminiActivityFormat_typed items :
  forallb activityTyped items = true ->
  succeeds (parseGeminiActivityFormat host (VArr items)).
Proof.
  intro H. unfold parseGeminiActivityFormat.
  apply (succeeds_loop activityTyped (activityConversation host)
           (fun _ c => (0 <? List.length (messages c))%nat)).
  - intros x i. apply activityConversation_typed.
  - apply forallb_rev, H.
Qed.

Lemma succeeds_push_if (o : outcome Conversation) :
  (exists c, o = Ok c) ->
  succeeds (bind (lift o)
                 (fun conversation =>
                    if (0 <? List.length (messages conversation))%nat
                    then push conversation else ret tt)).
Proof.
  intros [c ->]. apply (succeeds_lift _ _ c eq_refl).
  destruct (_ <? _)%nat; [apply succeeds_push | apply succeeds_ret].
Qed.

Lemma parseSingleConversation_typed data :
  notNullish data = true -> singleTyped data = true ->
  succeeds (parseSingleConversation host data).
Proof. intros Hnn H. apply succeeds_push_if, singleConversation_typed; assumption. Qed.

Lemma parseApiFormat_typed data :
  notNullish data = true -> apiTyped data = true -> succeeds (parseApiFormat host data).
Proof. intros Hnn H. apply succeeds_push_if, apiConversation_typed; assumption. Qed.

Lemma findConversations_typed obj :
  genericTyped obj = true -> succeeds (findConversations host obj).
Proof.
  induction obj as [| | b | n | s | items IH | fields IH] using value_induction;
    intro Hty; cbn [findConversations]; try apply succeeds_ret.
  - cbn [genericTyped] in Hty.
    destruct (looksLikeConversations items); [apply parseArrayFormat_typed, Hty|].
    generalize 0%nat. revert Hty.
    induction IH as [|x r Hx _ IHr]; intros Hty index; cbn [eachItem].
    + apply succeeds_ret.
    + cbn [forallb] in Hty. apply andb_prop in Hty. destruct Hty as [Htx Htr].
      apply succeeds_seq; [|apply IHr, Htr].
      unfold visitProperty. rewrite conversationKey_index. cbn [andb].
      apply succeeds_seq; [apply succeeds_ret | apply Hx, Htx].
  - cbn [genericTyped] in Hty. revert Hty.
    induction IH as [|[key v] r Hx _ IHr]; intros Hty; cbn [eachField].
    + apply succeeds_ret.
    + cbn [forallb fst snd] in Hty. apply andb_prop in Hty. destruct Hty as [Htx Htr].
      apply andb_prop in Htx. destruct Htx as [Hlist Hgen].
      apply succeeds_seq; [|apply IHr, Htr].
      unfold visitProperty.
      apply succeeds_seq; [|apply Hx, Hgen].
      destruct (conversationKey key && isArray v)%bool;
        [apply parseArrayFormat_typed, Hlist | apply succeeds_ret].
Qed.

Lemma reclassify_succeeds : succeeds reclassify.
Proof.
  intro this. unfold reclassify.
  destruct (detectedSource this); try reflexivity.
  destruct (existsb _isChatGPT (conversations this)); reflexivity.
Qed.

(** The file-name cue returns and leaves the document alone. *)
Lemma detectSourceFromFileName_data this :
  fst (detectSourceFromFileName this) = Ok tt
  /\ jsonData (snd (detectSourceFromFileName this)) = jsonData this.
Proof.
  unfold detectSourceFromFileName.
  destruct (fileName this =? ""); [split; reflexivity|].
  destruct (existsb _ geminiPatterns); [split; reflexivity|].
  destruct (existsb _ chatgptPatterns); split; reflexivity.
Qed.

(** The dispatch on a document that is no array. *)
Lemma dispatch_object_typed d :
  notNullish d = true -> isArray d = false ->
  (if truthy (get d "conversations") then wellTypedList (get d "conversations")
   else if truthy (get d "chats") || truthy (get d "history")
        then chatsTyped (or_ (get d "chats") (get d "history"))
        else if truthy (get d "messages") || truthy (get d "content") then singleTyped d
             else if truthy (get d "contents") then apiTyped d
                  else genericTyped d) = true ->
  succeeds (dispatch host d).
Proof.
  intros Hnn Harr H. unfold dispatch.
  apply (succeeds_lift _ _ false); [destruct d; try reflexivity; discriminate|].
  apply (succeeds_lift _ _ false); [destruct d; try reflexivity; discriminate|].
  rewrite Harr.
  apply (succeeds_lift _ _ (get d "conversations") (getp_notNullish _ _ Hnn)).
  destruct (truthy (get d "conversations")); [apply parseArrayFormat_typed, H|].
  destruct (truthy (get d "chats") || truthy (get d "history"))%bool.
  { apply succeeds_seq; [apply succeeds_setSource | apply parseTakeoutFormat_typed, H]. }
  destruct (truthy (get d "messages") || truthy (get d "content"))%bool.
  { apply parseSingleConversation_typed; assumption. }
  destruct (truthy (get d "contents")).
  { apply succeeds_seq; [apply succeeds_setSource | apply parseApiFormat_typed; assumption]. }
  apply findConversations_typed, H.
Qed.

Lemma dispatch_typed d : wellTypedDocument d = true -> succeeds (dispatch host d).
Proof.
  unfold wellTypedDocument.
  destruct d as [| |b|n|s|items|fields]; try discriminate;
    try (apply dispatch_object_typed; reflexivity).
  destruct items as [|first rest].
  - intros _. unfold dispatch.
    apply (succeeds_lift _ _ false eq_refl).
    apply (succeeds_lift _ _ false eq_refl).
    apply parseArrayFormat_typed. reflexivity.
  - intro H. unfold dispatch.
    destruct (isGeminiActivity (VArr (first :: rest))) as [[|]| |] eqn:Hg; try discriminate.
    + apply (succeeds_lift _ _ true eq_refl).
      apply succeeds_seq; [apply succeeds_setSource|].
      apply parseGeminiActivityFormat_typed, H.
    + apply (succeeds_lift _ _ false eq_refl).
      assert (Hfirst : notNullish first = true).
      { cbn [forallb] in H. apply andb_prop in H.
        destruct H as [Hconv _]. unfold wellTypedConversation in Hconv.
        apply andb_prop in Hconv. apply Hconv. }
      apply (succeeds_lift _ _ (truthy (get first "mapping"))).
      { cbn [isChatGPTExport]. rewrite (getp_notNullish _ _ Hfirst). reflexivity. }
      destruct (truthy (get first "mapping")).
      * apply succeeds_seq; [apply succeeds_setSource | apply parseArrayFormat_typed, H].
      * apply parseArrayFormat_typed, H.
Qed.

Lemma parseConversations_typed (this : AIChatConverter) :
  wellTypedDocument (jsonData this) = true ->
  fst (parseConversations host this) = Ok tt.
Proof.
  intro Hdoc. unfold parseConversations.
  unfold bind at 1. cbn [reset].
  set (start := {| jsonData := jsonData this; fileName := fileName this;
                   conversations := []; detectedSource := AI |}).
  unfold bind at 1.
  destruct (detectSourceFromFileName_data start) as [Hok Hdata].
  destruct (detectSourceFromFileName start) as [o named]. cbn [fst snd] in Hok, Hdata.
  subst o. change (jsonData start) with (jsonData this) in Hdata.
  rewrite <- Hdata in Hdoc.
  unfold bind at 1.
  pose proof (dispatch_typed (jsonData named) Hdoc named) as Hrun.
  destruct (dispatch host (jsonData named) named) as [o final]. cbn [fst] in Hrun.
  subst o. apply reclassify_succeeds.
Qed.

End Totality.

(** * The pipeline ends on every document

    The walk of [parseMapping] is the only loop that is not a traversal
    of an array; it is never cut off, so no call is. *)

Lemma ends_Ok {A} (a : A) : ends (Ok a).
Proof. discriminate. Qed.

Lemma ends_TypeError {A} : ends (@TypeError A).
Proof. discriminate. Qed.

Lemma ends_obind {A B} (o : outcome A) (k : A -> outcome B) :
  ends o -> (forall a, ends (k a)) -> ends (obind o k).
Proof.
  unfold ends. intros Ho Hk. destruct o; cbn [obind]; [apply Hk | discriminate | congruence].
Qed.

Lemma ends_if {A} (b : bool) (x y : outcome A) : ends x -> ends y -> ends (if b then x else y).
Proof. destruct b; auto. Qed.

Lemma ends_mapM {A B} (f : A -> outcome B) (l : list A) :
  (forall x, ends (f x)) -> ends (mapM f l).
Proof. apply mapM_fuel. Qed.

Lemma ends_filterM {A} (f : A -> outcome bool) (l : list A) :
  (forall x, ends (f x)) -> ends (filterM f l).
Proof.
  intro H. induction l as [|x r IH]; cbn [filterM]; [apply ends_Ok|].
  apply ends_obind; [apply H|]. intro b.
  apply ends_obind; [apply IH|]. intro ys. apply ends_Ok.
Qed.

Lemma ends_getp v k : ends (getp v k).
Proof. destruct v; discriminate. Qed.

Lemma ends_elements v : ends (elements v).
Proof. destruct v; discriminate. Qed.

Lemma ends_toLowerCase v : ends (toLowerCase v).
Proof. destruct v; discriminate. Qed.

Lemma ends_trim v : ends (trim v).
Proof. destruct v; discriminate. Qed.

Lemma ends_startsWith v p : ends (startsWith v p).
Proof. destruct v; discriminate. Qed.

Lemma ends_includes v p : ends (includes v p).
Proof. destruct v; discriminate. Qed.

Lemma ends_to_string v : ends (to_string v).
Proof. apply to_string_fuel. Qed.

Lemma ends_arr_join sep items : ends (arr_join sep items).
Proof. apply arr_join_fuel. Qed.

Create HintDb ends.
#[local] Hint Resolve ends_Ok ends_TypeError ends_obind ends_if ends_mapM ends_filterM
  ends_getp ends_elements ends_toLowerCase ends_trim ends_startsWith ends_includes
  ends_to_string ends_arr_join : ends.

Section Ending.

Variable host : Host.

Lemma ends_parseMapping mapping currentNode : ends (parseMapping host mapping currentNode).
Proof. apply parseMapping_fuel. Qed.

Lemma ends_parseMessage msg : ends (parseMessage host msg).
Proof.
  unfold parseMessage, normalizeRole, messageContent, contentPartsText, partsText.
  repeat (first [ apply ends_if | apply ends_obind; [|intro] ]; auto with ends).
Qed.

Lemma ends_firstUserNode mapping nodeIds : ends (firstUserNode mapping nodeIds).
Proof.
  induction nodeIds as [|nodeId r IH]; cbn [firstUserNode]; auto with ends.
Qed.

Lemma ends_extractConversationIdFromMapping mapping :
  ends (extractConversationIdFromMapping mapping).
Proof.
  unfold extractConversationIdFromMapping. cbv zeta.
  apply ends_obind; [apply ends_firstUserNode|]. intros [nodeId|]; [apply ends_Ok|].
  destruct (find _ _); apply ends_Ok.
Qed.

Lemma ends_stripHtml html : ends (stripHtml html).
Proof.
  unfold stripHtml. destruct (negb (truthy html)); [apply ends_Ok|].
  destruct html; auto with ends.
Qed.

Lemma ends_newDate v : ends (newDate host v).
Proof. unfold newDate. destruct v; auto with ends. Qed.

Lemma ends_gt_zero v : ends (gt_zero host v).
Proof. unfold gt_zero. destruct v; auto with ends. Qed.

#[local] Hint Resolve ends_parseMapping ends_parseMessage
  ends_extractConversationIdFromMapping ends_stripHtml ends_newDate ends_gt_zero : ends.

Lemma ends_arrayConversation conv index : ends (arrayConversation host conv index).
Proof.
  unfold arrayConversation.
  apply ends_obind; [auto with ends|]. intro id0. cbv zeta.
  apply ends_obind; [auto with ends|]. intro cid.
  apply ends_if; [auto with ends|].
  destruct (or_ (get conv "messages") _); auto with ends.
Qed.

Lemma ends_takeoutConversation chat index : ends (takeoutConversation host chat index).
Proof. unfold takeoutConversation. auto 10 with ends. Qed.

Lemma ends_activityConversation activity index :
  ends (activityConversation host activity index).
Proof. unfold activityConversation. auto 10 with ends. Qed.

Lemma ends_singleConversation data : ends (singleConversation host data).
Proof. unfold singleConversation. auto 10 with ends. Qed.

Lemma ends_apiConversation data : ends (apiConversation host data).
Proof.
  unfold apiConversation, apiMessages.
  apply ends_obind; [auto with ends|]. intro contents.
  apply ends_obind; [auto with ends|]. intro items.
  apply ends_obind; [|auto with ends].
  apply ends_mapM. intro content. auto 10 with ends.
Qed.

Lemma halts_ret {A} (a : A) : halts (ret a).
Proof. intro this. apply ends_Ok. Qed.

Lemma halts_push c : halts (push c).
Proof. intro this. apply ends_Ok. Qed.

Lemma halts_setSource s : halts (setSource s).
Proof. intro this. apply ends_Ok. Qed.

Lemma halts_lift {A} (o : outcome A) : ends o -> halts (lift o).
Proof. intros H this. exact H. Qed.

Lemma halts_bind {A B} (m : M A) (k : A -> M B) :
  halts m -> (forall a, halts (k a)) -> halts (bind m k).
Proof.
  intros Hm Hk this. unfold bind. specialize (Hm this).
  destruct (m this) as [[a| |] this']; cbn [fst] in *;
    [apply Hk | apply ends_TypeError | exfalso; apply Hm; reflexivity].
Qed.

Lemma halts_if {A} (b : bool) (m1 m2 : M A) : halts m1 -> halts m2 -> halts (if b then m1 else m2).
Proof. destruct b; auto. Qed.

Lemma halts_forEach {A} (f : A -> nat -> M unit) (l : list A) :
  (forall x index, halts (f x index)) -> forall index, halts (forEach f l index).
Proof.
  intro Hf. induction l as [|x r IH]; intro index; cbn [forEach].
  - apply halts_ret.
  - apply halts_bind; [apply Hf | intros _; apply IH].
Qed.

(** The shape of every callback: build a conversation, then push it or
    not. *)
Lemma halts_push_if (o : outcome Conversation) (test : Conversation -> bool) :
  ends o ->
  halts (bind (lift o) (fun conversation =>
                          if test conversation then push conversation else ret tt)).
Proof.
  intro H. apply halts_bind; [apply halts_lift, H|]. intro c.
  apply halts_if; [apply halts_push | apply halts_ret].
Qed.

Lemma halts_parseArrayFormat v : halts (parseArrayFormat host v).
Proof.
  unfold parseArrayFormat. apply halts_bind; [apply halts_lift, ends_elements|].
  intro items. apply halts_forEach. intros conv index.
  apply (halts_push_if _ (fun c => (0 <? List.length (messages c))%nat || truthy (get conv "title"))%bool).
  apply ends_arrayConversation.
Qed.

Lemma halts_parseTakeoutFormat v : halts (parseTakeoutFormat host v).
Proof.
  unfold parseTakeoutFormat. destruct v; try apply halts_ret.
  apply halts_forEach. intros chat index.
  apply (halts_push_if _ (fun c => (0 <? List.length (messages c))%nat)).
  apply ends_takeoutConversation.
Qed.

Lemma halts_parseGeminiActivityFormat v : halts (parseGeminiActivityFormat host v).
Proof.
  unfold parseGeminiActivityFormat. destruct v; try apply halts_ret.
  apply halts_forEach. intros activity index.
  apply (halts_push_if _ (fun c => (0 <? List.length (messages c))%nat)).
  apply ends_activityConversation.
Qed.

Lemma halts_parseSingleConversation v : halts (parseSingleConversation host v).
Proof.
  apply (halts_push_if _ (fun c => (0 <? List.length (messages c))%nat)).
  apply ends_singleConversation.
Qed.

Lemma halts_parseApiFormat v : halts (parseApiFormat host v).
Proof.
  apply (halts_push_if _ (fun c => (0 <? List.length (messages c))%nat)).
  apply ends_apiConversation.
Qed.

Lemma halts_visitProperty key v inner :
  halts inner -> halts (visitProperty host key v inner).
Proof.
  intro H. unfold visitProperty. apply halts_bind; [|intros _; exact H].
  apply halts_if; [apply halts_parseArrayFormat | apply halts_ret].
Qed.

Lemma halts_findConversations obj : halts (findConversations host obj).
Proof.
  induction obj as [| | b | n | s | items IH | fields IH] using value_induction;
    cbn [findConversations]; try apply halts_ret.
  - apply halts_if; [apply halts_parseArrayFormat|].
    generalize 0%nat. induction IH as [|x r Hx _ IHr]; intro index; cbn [eachItem].
    + apply halts_ret.
    + apply halts_bind; [apply halts_visitProperty, Hx | intros _; apply IHr].
  - induction IH as [|[key v] r Hx _ IHr]; cbn [eachField].
    + apply halts_ret.
    + apply halts_bind; [apply halts_visitProperty, Hx | intros _; apply IHr].
Qed.

Lemma ends_isGeminiActivity d : ends (isGeminiActivity d).
Proof.
  unfold isGeminiActivity. destruct d as [| | | | |[|first rest]|]; auto with ends.
Qed.

Lemma ends_isChatGPTExport d : ends (isChatGPTExport d).
Proof.
  unfold isChatGPTExport. destruct d as [| | | | |[|first rest]|]; auto with ends.
Qed.

Lemma halts_dispatch d : halts (dispatch host d).
Proof.
  unfold dispatch.
  apply halts_bind; [apply halts_lift, ends_isGeminiActivity|]. intro gemini.
  apply halts_if.
  { apply halts_bind; [apply halts_setSource|]. intros _.
    apply halts_parseGeminiActivityFormat. }
  apply halts_bind; [apply halts_lift, ends_isChatGPTExport|]. intro chatgpt.
  apply halts_if.
  { apply halts_bind; [apply halts_setSource|]. intros _. apply halts_parseArrayFormat. }
  apply halts_if; [apply halts_parseArrayFormat|].
  apply halts_bind; [apply halts_lift, ends_getp|]. intro convs.
  apply halts_if; [apply halts_parseArrayFormat|].
  apply halts_if.
  { apply halts_bind; [apply halts_setSource|]. intros _. apply halts_parseTakeoutFormat. }
  apply halts_if; [apply halts_parseSingleConversation|].
  apply halts_if.
  { apply halts_bind; [apply halts_setSource|]. intros _. apply halts_parseApiFormat. }
  apply halts_findConversations.
Qed.

Lemma halts_parseConversations : halts (parseConversations host).
Proof.
  unfold parseConversations.
  apply halts_bind; [intro this; apply ends_Ok|]. intros _.
  apply halts_bind.
  { intro this. unfold detectSourceFromFileName.
    destruct (fileName this =? ""); [apply ends_Ok|].
    destruct (existsb _ geminiPatterns); [apply ends_Ok|].
    destruct (existsb _ chatgptPatterns); apply ends_Ok. }
  intros _. apply halts_bind.
  { intro this. apply halts_dispatch. }
  intros _ this. unfold reclassify.
  destruct (detectedSource this); try apply ends_Ok.
  destruct (existsb _isChatGPT (conversations this)); apply ends_Ok.
Qed.

(** C1, amended. [parseConversations] ends on every document: it
    returns or it throws a [TypeError], and its loop is never cut off.
    On a document of any format whose fields have the types that the
    parsers read them at it returns, in every engine whose sort
    rearranges. *)
Theorem parseConversations_returns (this : AIChatConverter) :
  fst (parseConversations host this) <> NoFuel
  /\ (rearranges host ->
      wellTypedDocument (jsonData this) = true ->
      fst (parseConversations host this) = Ok tt).
Proof.
  split; [apply halts_parseConversations | intro Hsort; apply parseConversations_typed, Hsort].
Qed.

End Ending.

Lemma parseConversations_returns_witness :
  (rearranges sampleHost
   /\ wellTypedDocument (jsonData (loaded "conversations.json" typedExport)) = true)
  /\ fst (parseConversations sampleHost (loaded "conversations.json" typedExport)) <> NoFuel
  /\ fst (parseConversations sampleHost (loaded "conversations.json" typedExport)) = Ok tt.
Proof.
  destruct (parseConversations_returns sampleHost (loaded "conversations.json" typedExport))
    as [Hends Hreturns].
  split; [split; [exact insertionSort_perm | reflexivity]|].
  split; [exact Hends | apply Hreturns; [exact insertionSort_perm | reflexivity]].
Defined.

Example typedExport_result :
  map (fun c => (id c, List.length (messages c), _isChatGPT c))
      (conversations (snd (parseConversations sampleHost
                             (loaded "conversations.json" typedExport))))
  = [(VStr "c1", 2%nat, false); (VStr "n4", 3%nat, true); (VStr "n1", 3%nat, true)]
  /\ detectedSource (snd (parseConversations sampleHost
                            (loaded "conversations.json" typedExport)))
     = ChatGPT.
Proof. split; reflexivity. Qed.

(** The other formats return as well, on typed documents. *)
Example typedDocuments_result :
  forallb wellTypedDocument typedDocuments = true
  /\ map (fun d => fst (parseConversations sampleHost (loaded "export.json" d))) typedDocuments
     = map (fun _ => Ok tt) typedDocuments
  /\ map (fun d => List.length (conversations
                                  (snd (parseConversations sampleHost (loaded "export.json" d)))))
         typedDocuments
     = [1; 1; 1; 1; 2; 1; 0; 0; 0]%nat.
Proof. repeat split. Qed.

(** C1 as stated fails: documents that [JSON.parse] accepts make the
    pipeline throw. A top-level [null], a [null] conversation record, a
    role that is a number, a [content] that is a string where the
    single-conversation parser expects an array, and a [text] that is a
    number each end in a [TypeError]; so does each of the documents with
    a field of the wrong type, in every format. *)
Lemma parseConversations_throws_counterexample :
  fst (parseConversations sampleHost (loaded "export.json" VNull)) = TypeError
  /\ fst (parseConversations sampleHost (loaded "export.json" (VArr [VNull]))) = TypeError
  /\ fst (parseConversations sampleHost
            (loaded "export.json"
               (VObj [("messages", VArr [VObj [("role", VNum 5);
                                               ("content", VStr "x")]])])))
     = TypeError
  /\ fst (parseConversations sampleHost
            (loaded "export.json" (VObj [("content", VStr "hello")])))
     = TypeError
  /\ parseMessage sampleHost (VObj [("text", VNum 5)]) = TypeError
  /\ map (fun d => fst (parseConversations sampleHost (loaded "export.json" d)))
         untypedDocuments
     = map (fun _ => TypeError) untypedDocuments
  /\ existsb wellTypedDocument
             ([VNull; VArr [VNull];
               VObj [("messages", VArr [VObj [("role", VNum 5); ("content", VStr "x")]])];
               VObj [("content", VStr "hello")]] ++ untypedDocuments)%list
     = false.
Proof. repeat split. Qed.

(** * White space

    The class of [trim] and of [\s], on the bytes of a string. A
    white-space character is a first byte that continues nothing followed
    by bytes that continue it; whether one stands at the head of a string
    is a matter of the first byte and of the continuation bytes after
    it. *)

Lemma white_space_shape :
  Forall (fun w => exists a t, w = String a t /\ is_cont a = false /\ all_cont t = true)
         white_space.
Proof. repeat constructor; eexists; eexists; repeat split. Qed.

Lemma starts_with_conts t r :
  all_cont t = true -> starts_with t (conts r) = starts_with t r.
Proof.
  revert r. induction t as [|b t IH]; intros r Ht; [destruct r; [reflexivity|]|].
  - cbn [conts]. destruct (is_cont a); reflexivity.
  - cbn [all_cont] in Ht. apply andb_prop in Ht. destruct Ht as [Hb Ht].
    destruct r as [|c r]; [reflexivity|]. cbn [conts].
    destruct (is_cont c) eqn:Hc; cbn [starts_with].
    + rewrite (IH r Ht). reflexivity.
    + destruct (Ascii.eqb_spec b c) as [->|_]; [congruence | reflexivity].
Qed.

Lemma find_ext {A} (f g : A -> bool) (l : list A) :
  Forall (fun x => f x = g x) l -> find f l = find g l.
Proof.
  induction 1 as [|x r Hx _ IH]; cbn [find]; [reflexivity|]. rewrite Hx, IH. reflexivity.
Qed.

(** The width at the head looks at the first byte and at the bytes that
    continue it. *)
Lemma space_width_conts c r : space_width (String c (conts r)) = space_width (String c r).
Proof.
  unfold space_width.
  rewrite (find_ext (fun w => starts_with w (String c (conts r)))
                    (fun w => starts_with w (String c r)) white_space); [reflexivity|].
  apply (Forall_impl _ (P := fun w => exists a t, w = String a t /\ is_cont a = false
                                                   /\ all_cont t = true));
    [|exact white_space_shape].
  intros w (a & t & -> & _ & Ht). cbn [starts_with]. rewrite (starts_with_conts t r Ht).
  reflexivity.
Qed.

Lemma space_width_lead c r : space_lead c = false -> space_width (String c r) = 0.
Proof.
  unfold space_lead, space_width. intro H.
  destruct (find _ white_space) as [w|] eqn:E; [|reflexivity].
  apply find_some in E. destruct E as [Hin Hw].
  exfalso. rewrite <- not_true_iff_false in H. apply H.
  apply existsb_exists. exists w. split; [exact Hin|].
  destruct w as [|a t]; [|cbn [starts_with] in Hw; apply andb_prop in Hw; apply Hw].
  exfalso. revert Hin. clear. cbn. intuition discriminate.
Qed.

Lemma cont_no_lead c : is_cont c = true -> space_lead c = false.
Proof. destruct c as [[] [] [] [] [] [] [] []]; intro H; try discriminate H; reflexivity. Qed.

Lemma space_width_empty : space_width "" = 0.
Proof. reflexivity. Qed.

(** No white space at the head: no white-space character is a prefix. *)
Lemma space_width_zero s :
  space_width s = 0 <-> Forall (fun w => starts_with w s = false) white_space.
Proof.
  unfold space_width. split.
  - destruct (find _ white_space) as [w|] eqn:E.
    + apply find_some in E. destruct E as [Hin _]. intro Hl.
      destruct w; [|discriminate Hl]. exfalso. revert Hin. clear. cbn. intuition discriminate.
    + intros _. apply Forall_forall. intros w Hin. apply (find_none _ _ E _ Hin).
  - intro H. rewrite Forall_forall in H.
    destruct (find _ white_space) as [w|] eqn:E; [|reflexivity].
    apply find_some in E. destruct E as [Hin Hw]. rewrite (H _ Hin) in Hw. discriminate.
Qed.

Lemma starts_with_app w a b : starts_with w a = true -> starts_with w (a ++ b) = true.
Proof.
  revert a. induction w as [|x w IH]; intros a H; [reflexivity|].
  destruct a as [|y a]; [discriminate|]. cbn [starts_with append] in *.
  apply andb_prop in H. destruct H as [-> H]. apply (IH _ H).
Qed.

Lemma space_width_prefix a b : space_width (a ++ b) = 0 -> space_width a = 0.
Proof.
  rewrite !space_width_zero. intro H. apply (Forall_impl _ (P := fun w => starts_with w (a ++ b) = false));
    [|exact H].
  intros w Hw. destruct (starts_with w a) eqn:E; [|reflexivity].
  rewrite (starts_with_app _ _ b E) in Hw. discriminate.
Qed.

(** ** [trimStart] *)

Lemma skip_spaces_width s : forall skip, space_width (skip_spaces skip s) = 0.
Proof.
  induction s as [|c r IH]; intros [|k]; cbn [skip_spaces]; try reflexivity; try apply IH.
  destruct (space_width (String c r)) eqn:E; [exact E | apply IH].
Qed.

Lemma trimStart_width s : space_width (trimStart s) = 0.
Proof. apply skip_spaces_width. Qed.

Lemma trimStart_fixed s : space_width s = 0 -> trimStart s = s.
Proof.
  unfold trimStart. destruct s as [|c r]; [reflexivity|]. cbn [skip_spaces].
  intros ->. reflexivity.
Qed.

Lemma trimStart_idempotent s : trimStart (trimStart s) = trimStart s.
Proof. apply trimStart_fixed, trimStart_width. Qed.

Lemma skip_spaces_suffix s : forall skip, exists p, s = p ++ skip_spaces skip s.
Proof.
  induction s as [|c r IH]; intros [|k]; cbn [skip_spaces]; try (exists ""; reflexivity).
  - destruct (space_width (String c r)); [exists ""; reflexivity|].
    destruct (IH n) as [p Hp]. exists (String c p). cbn [append]. rewrite <- Hp. reflexivity.
  - destruct (IH k) as [p Hp]. exists (String c p). cbn [append]. rewrite <- Hp. reflexivity.
Qed.

Lemma trimStart_suffix s : exists p, s = p ++ trimStart s.
Proof. apply skip_spaces_suffix. Qed.

Lemma skip_spaces_length s : forall skip, String.length (skip_spaces skip s) <= String.length s.
Proof.
  induction s as [|c r IH]; intros [|k]; cbn [skip_spaces String.length]; try lia.
  - destruct (space_width (String c r)); [cbn [String.length]; lia|].
    specialize (IH n). lia.
  - specialize (IH k). lia.
Qed.

(** [\s+] matches where a white-space character stands, and nowhere
    else. *)
Lemma re_spaces_none s : space_width s = 0 -> re_spaces s = None.
Proof.
  intro H. unfold re_spaces, taken. rewrite (trimStart_fixed _ H).
  rewrite Nat.sub_diag. reflexivity.
Qed.

Lemma re_spaces_some s :
  space_width s <> 0 -> exists n, re_spaces s = Some (S n).
Proof.
  intro H. unfold re_spaces, taken, trimStart. destruct s as [|c r]; [destruct H; reflexivity|].
  cbn [skip_spaces]. destruct (space_width (String c r)) as [|n]; [destruct H; reflexivity|].
  pose proof (skip_spaces_length r n) as Hl. cbn [String.length].
  destruct (S (String.length r) - String.length (skip_spaces n r)) as [|k] eqn:E; [lia|].
  exists k. reflexivity.
Qed.

(** ** [trimEnd] *)

Lemma trimEnd_idempotent s : trimEnd (trimEnd s) = trimEnd s.
Proof.
  induction s as [|c r IH]; [reflexivity|].
  cbn [trimEnd]. cbv zeta. destruct (is_white (String c (trimEnd r))) eqn:E; [reflexivity|].
  cbn [trimEnd]. cbv zeta. rewrite IH, E. reflexivity.
Qed.

Lemma trimEnd_prefix s : exists w, s = trimEnd s ++ w.
Proof.
  induction s as [|c r [w IH]]; [exists ""; reflexivity|].
  cbn [trimEnd]. cbv zeta. destruct (is_white (String c (trimEnd r))).
  - exists (String c r). reflexivity.
  - exists w. cbn [append]. rewrite <- IH. reflexivity.
Qed.

Lemma trim_string_idempotent s : trim_string (trim_string s) = trim_string s.
Proof.
  unfold trim_string.
  rewrite (trimStart_fixed (trimEnd (trimStart s))), trimEnd_idempotent; [reflexivity|].
  destruct (trimEnd_prefix (trimStart s)) as [w Hw].
  apply (space_width_prefix _ w). rewrite <- Hw. apply trimStart_width.
Qed.

(** * The content of a message

    ** Where it is not blank

    The paths that test the trimmed text emit no blank content:
    [parseMessage], both modes of [parseMapping], and the assistant
    message of the activity parser. *)

Lemma nonblank_trimmed r s t :
  trim_string s <> "" ->
  nonblank {| role := r; content := VStr (trim_string s); timestamp := t |}.
Proof.
  intro H. exists (trim_string s). cbn [content trim].
  rewrite trim_string_idempotent. auto.
Qed.

Section Nonblank.

Variable host : Host.

Lemma parseMessage_nonblank msg m : parseMessage host msg = Ok (Some m) -> nonblank m.
Proof.
  unfold parseMessage.
  destruct (truthy msg); cbn [negb]; [|discriminate].
  destruct (normalizeRole (messageRole msg)) as [r| |]; cbn [obind]; try discriminate.
  destruct (messageContent msg) as [c| |]; cbn [obind]; try discriminate.
  destruct c; cbn [trim obind]; try discriminate.
  destruct (String.eqb_spec (trim_string s) ""); [discriminate|].
  intro E. injection E as <-. apply nonblank_trimmed. assumption.
Qed.

Lemma chainMessage_nonblank msg m : chainMessage host msg = Ok (Some m) -> nonblank m.
Proof.
  unfold chainMessage. cbv zeta.
  destruct (elements _) as [items| |]; cbn [obind]; try discriminate.
  destruct (arr_join nl (filter is_string items)) as [joined| |]; cbn [obind]; try discriminate.
  destruct (is_str "user" _ || is_str "assistant" _)%bool; cbn [andb]; [|discriminate].
  destruct (String.eqb_spec (trim_string joined) "");
    cbn [negb]; [discriminate|].
  intro E. injection E as <-. apply nonblank_trimmed. assumption.
Qed.

Lemma nodeMessage_nonblank node m : nodeMessage host node = Ok (Some m) -> nonblank m.
Proof.
  unfold nodeMessage. cbv zeta.
  destruct (truthy _); [apply chainMessage_nonblank | discriminate].
Qed.

Lemma sortedMessage_nonblank node m : sortedMessage host node = Ok (Some m) -> nonblank m.
Proof.
  unfold sortedMessage. cbv zeta.
  destruct (_ && _)%bool; [|discriminate].
  match goal with
  | |- obind ?o _ = _ -> _ => destruct o as [text| |]; cbn [obind]; try discriminate
  end.
  destruct (String.eqb_spec (trim_string text) ""); cbn [negb andb]; [discriminate|].
  destruct (negb _); [|discriminate].
  intro E. injection E as <-. apply nonblank_trimmed. assumption.
Qed.

Lemma walk_nonblank mapping :
  forall fuel current from seen chain chain' seen',
    Forall nonblank chain ->
    walk host fuel mapping current from seen chain = Ok (chain', seen') ->
    Forall nonblank chain'.
Proof.
  induction fuel as [|fuel IH]; intros current from seen chain chain' seen' Hchain;
    rewrite walk_unfold; destruct (truthy current);
    try (intro E; injection E as <- <-; exact Hchain);
    (destruct (ToString current) as [key|]; [|discriminate]);
    destruct (_ && _)%bool; try discriminate;
    try (intro E; injection E as <- <-; exact Hchain).
  destruct (nodeMessage host (get mapping key)) as [m| |] eqn:Hm;
    cbn [obind]; try discriminate.
  apply IH. destruct m as [x|]; [|exact Hchain].
  apply Forall_app. split; [exact Hchain|].
  constructor; [apply (nodeMessage_nonblank _ _ Hm) | constructor].
Qed.

Lemma somes_nonblank {A} (f : A -> outcome (option Message)) (l : list A) found :
  (forall x m, f x = Ok (Some m) -> nonblank m) ->
  mapM f l = Ok found -> Forall nonblank (somes found).
Proof.
  intro Hf. revert found. induction l as [|x r IH]; intro found; cbn [mapM].
  - intro E. injection E as <-. constructor.
  - destruct (f x) as [e| |] eqn:Hx; cbn [obind]; try discriminate.
    destruct (mapM f r) as [es| |]; cbn [obind]; try discriminate.
    intro E. injection E as <-.
    destruct e as [m|]; cbn [somes flat_map app]; [|apply IH; reflexivity].
    constructor; [apply (Hf _ _ Hx) | apply IH; reflexivity].
Qed.

(** Every message of [parseMapping], in either mode, and every message
    of [parseMessage] has a content that is not blank. *)
Lemma parseMapping_nonblank mapping currentNode chain :
  parseMapping host mapping currentNode = Ok chain -> Forall nonblank chain.
Proof.
  unfold parseMapping. cbv zeta.
  destruct (if truthy _ then _ else Ok _) as [leaf| |];
    cbn [obind]; try discriminate.
  destruct (_ && _)%bool.
  - destruct (leafChain host mapping _) as [[ms seen]| |] eqn:Hwalk;
      cbn [obind fst]; try discriminate.
    intro E. injection E as <-. apply Forall_rev.
    apply (walk_nonblank _ _ _ _ _ _ _ _ (Forall_nil _) Hwalk).
  - destruct mapping; try discriminate;
      (destruct (sortNodes host _) as [sortedNodes| |]; cbn [obind]; try discriminate;
       destruct (mapM (sortedMessage host) _) as [found| |] eqn:Hfound;
       cbn [obind]; try discriminate;
       intro E; injection E as <-;
       apply (somes_nonblank _ _ _ sortedMessage_nonblank Hfound)).
Qed.

Lemma activityConversation_nonblank activity index c :
  activityConversation host activity index = Ok c ->
  Forall (fun m => role m = VStr "assistant" -> nonblank m) (messages c).
Proof.
  unfold activityConversation.
  destruct (getp activity "title") as [title0| |]; cbn [obind]; try discriminate.
  match goal with
  | |- obind ?o _ = _ -> _ => destruct o as [sent| |]; cbn [obind]; try discriminate
  end.
  match goal with
  | |- obind ?o _ = _ -> _ => destruct o as [filled| |]; cbn [obind]; try discriminate
  end.
  match goal with
  | |- obind ?o _ = _ -> _ => destruct o as [aiResponse| |]; cbn [obind]; try discriminate
  end.
  match goal with
  | |- obind ?o _ = _ -> _ => destruct o as [stamp| |]; cbn [obind]; try discriminate
  end.
  cbv zeta. intro E. injection E as <-. cbn [messages].
  apply Forall_app. split.
  - destruct (negb _); repeat constructor. discriminate.
  - destruct (String.eqb_spec (trim_string aiResponse) ""); cbn [negb]; repeat constructor.
    intros _. apply nonblank_trimmed. assumption.
Qed.

End Nonblank.

(** ** And where it is blank *)

(** C9, at the failing input. An activity whose [title] is three spaces
    passes the test [if (userMessage)]: the Gemini activity parser emits
    a user message whose content is blank, although the claim has every
    message with a content that trims to nothing dropped. *)
Theorem activity_blank_title_emitted :
  conversations
    (snd (parseConversations sampleHost
            (loaded "MyActivity.json"
               (VArr [VObj [("header", VStr "Gemini Apps"); ("title", VStr "   ")]]))))
  = [ {| id := VStr "gemini_activity_1"; title := VStr "   ";
         createTime := None; updateTime := None;
         messages := [ {| role := VStr "user"; content := VStr "   "; timestamp := None |} ];
         _isChatGPT := false |} ]
  /\ trim (VStr "   ") = Ok "".
Proof. split; reflexivity. Qed.

(** The API parser tests [part.text] untrimmed as well. *)
Example api_blank_text :
  map messages
      (conversations
         (snd (parseConversations sampleHost
                 (loaded "chat.json"
                    (VObj [("contents",
                            VArr [VObj [("role", VStr "user");
                                        ("parts", VArr [VObj [("text", VStr "  ")]])]])])))))
  = [[ {| role := VStr "user"; content := VStr "  "; timestamp := None |} ]].
Proof. reflexivity. Qed.

(** * Further properties of the parsers *)

(** ** Parsers that only push *)

Lemma writes_ret {A} (a : A) : writes (ret a).
Proof. exists (Ok a), []. intro this. rewrite pushAll_nil. reflexivity. Qed.

Lemma writes_lift {A} (o : outcome A) : writes (lift o).
Proof. exists o, []. intro this. rewrite pushAll_nil. reflexivity. Qed.

Lemma writes_push c : writes (push c).
Proof. exists (Ok tt), [c]. intro this. reflexivity. Qed.

Lemma writes_bind {A B} (m : M A) (k : A -> M B) :
  writes m -> (forall a, writes (k a)) -> writes (bind m k).
Proof.
  intros (o & cs & Hm) Hk. destruct o as [a| |].
  - destruct (Hk a) as (o' & cs' & Ha). exists o', (cs ++ cs')%list.
    intro this. unfold bind. rewrite Hm, Ha, pushAll_pushAll. reflexivity.
  - exists TypeError, cs. intro this. unfold bind. rewrite Hm. reflexivity.
  - exists NoFuel, cs. intro this. unfold bind. rewrite Hm. reflexivity.
Qed.

Lemma writes_if {A} (b : bool) (m1 m2 : M A) :
  writes m1 -> writes m2 -> writes (if b then m1 else m2).
Proof. destruct b; auto. Qed.

Lemma writes_forEach {A} (f : A -> nat -> M unit) (l : list A) :
  (forall x index, writes (f x index)) -> forall index, writes (forEach f l index).
Proof.
  intro Hf. induction l as [|x r IH]; intro index; cbn [forEach].
  - apply writes_ret.
  - apply writes_bind; [apply Hf | intros _; apply IH].
Qed.

Lemma writes_push_if (o : outcome Conversation) (test : Conversation -> bool) :
  writes (bind (lift o) (fun conversation =>
                           if test conversation then push conversation else ret tt)).
Proof.
  apply writes_bind; [apply writes_lift|]. intro c.
  apply writes_if; [apply writes_push | apply writes_ret].
Qed.

Section Writers.

Variable host : Host.

Lemma writes_parseArrayFormat v : writes (parseArrayFormat host v).
Proof.
  unfold parseArrayFormat. apply writes_bind; [apply writes_lift|]. intro items.
  apply writes_forEach. intros conv index.
  apply (writes_push_if _ (fun c => (0 <? List.length (messages c))%nat || truthy (get conv "title"))%bool).
Qed.

Lemma writes_parseTakeoutFormat v : writes (parseTakeoutFormat host v).
Proof.
  unfold parseTakeoutFormat. destruct v; try apply writes_ret.
  apply writes_forEach. intros chat index.
  apply (writes_push_if _ (fun c => (0 <? List.length (messages c))%nat)).
Qed.

Lemma writes_parseGeminiActivityFormat v : writes (parseGeminiActivityFormat host v).
Proof.
  unfold parseGeminiActivityFormat. destruct v; try apply writes_ret.
  apply writes_forEach. intros activity index.
  apply (writes_push_if _ (fun c => (0 <? List.length (messages c))%nat)).
Qed.

Lemma writes_parseSingleConversation v : writes (parseSingleConversation host v).
Proof. apply (writes_push_if _ (fun c => (0 <? List.length (messages c))%nat)). Qed.

Lemma writes_parseApiFormat v : writes (parseApiFormat host v).
Proof. apply (writes_push_if _ (fun c => (0 <? List.length (messages c))%nat)). Qed.

Lemma writes_visitProperty key v inner :
  writes inner -> writes (visitProperty host key v inner).
Proof.
  intro H. unfold visitProperty. apply writes_bind; [|intros _; exact H].
  apply writes_if; [apply writes_parseArrayFormat | apply writes_ret].
Qed.

Lemma writes_findConversations obj : writes (findConversations host obj).
Proof.
  induction obj as [| | b | n | s | items IH | fields IH] using value_induction;
    cbn [findConversations]; try apply writes_ret.
  - apply writes_if; [apply writes_parseArrayFormat|].
    generalize 0%nat. induction IH as [|x r Hx _ IHr]; intro index; cbn [eachItem].
    + apply writes_ret.
    + apply writes_bind; [apply writes_visitProperty, Hx | intros _; apply IHr].
  - induction IH as [|[key v] r Hx _ IHr]; cbn [eachField].
    + apply writes_ret.
    + apply writes_bind; [apply writes_visitProperty, Hx | intros _; apply IHr].
Qed.

(** X1. The format parsers only push. How a call of one of them ends and
    which conversations it pushes depend on its argument alone, not on
    the converter; the conversations already in the list stay as they
    are, in their places, and [jsonData], [fileName] and [detectedSource]
    are not written, whether the call returns or throws. *)
Theorem parsers_only_push (v : value) :
  writes (parseArrayFormat host v)
  /\ writes (parseTakeoutFormat host v)
  /\ writes (parseGeminiActivityFormat host v)
  /\ writes (parseSingleConversation host v)
  /\ writes (parseApiFormat host v)
  /\ writes (parseGenericFormat host v).
Proof.
  repeat split.
  - apply writes_parseArrayFormat.
  - apply writes_parseTakeoutFormat.
  - apply writes_parseGeminiActivityFormat.
  - apply writes_parseSingleConversation.
  - apply writes_parseApiFormat.
  - apply writes_findConversations.
Qed.

(** ** A throw in the middle *)

Lemma forEach_app {A} (f : A -> nat -> M unit) (l1 l2 : list A) :
  forall index this,
    forEach f (l1 ++ l2) index this
    = bind (forEach f l1 index) (fun _ => forEach f l2 (index + List.length l1)) this.
Proof.
  induction l1 as [|x r IH]; intros index this; cbn [forEach app List.length].
  - unfold bind, ret. rewrite Nat.add_0_r. reflexivity.
  - unfold bind. destruct (f x index this) as [[[]| |] this'] eqn:E; try reflexivity.
    rewrite IH. unfold bind.
    replace (S index + List.length r)%nat with (index + S (List.length r))%nat by lia.
    reflexivity.
Qed.

(** X2. A throw does not undo what was pushed. When the records before
    a record make [parseArrayFormat] return and the callback throws on
    that record, the call on the whole array throws and leaves the
    converter as the call on the records before it leaves it: their
    conversations stay in the list, the records after are not read. *)
Theorem parseArrayFormat_no_rollback (before after : list value) (bad : value)
        (this : AIChatConverter) :
  fst (parseArrayFormat host (VArr before) this) = Ok tt ->
  arrayConversation host bad (List.length before) = TypeError ->
  parseArrayFormat host (VArr (before ++ bad :: after)) this
  = (TypeError, snd (parseArrayFormat host (VArr before) this)).
Proof.
  unfold parseArrayFormat.
  match goal with |- context [forEach ?f _ _] => set (F := f) end.
  change (fst (forEach F before 0 this) = Ok tt ->
          arrayConversation host bad (List.length before) = TypeError ->
          forEach F (before ++ bad :: after) 0 this
          = (TypeError, snd (forEach F before 0 this))).
  intros Hbefore Hbad. rewrite forEach_app. unfold bind at 1.
  destruct (forEach F before 0 this) as [[[]| |] this'] eqn:E; cbn [fst] in Hbefore;
    try discriminate.
  cbn [snd forEach Nat.add]. unfold bind at 1. subst F. cbv beta.
  unfold bind, lift. rewrite Hbad. reflexivity.
Qed.

End Writers.

Lemma parseArrayFormat_no_rollback_witness :
  fst (parseArrayFormat sampleHost (VArr [keptRecord]) (loaded "export.json" VNull)) = Ok tt
  /\ arrayConversation sampleHost VNull 1 = TypeError
  /\ parseArrayFormat sampleHost (VArr [keptRecord; VNull; lostRecord])
                      (loaded "export.json" VNull)
     = (TypeError, snd (parseArrayFormat sampleHost (VArr [keptRecord])
                                         (loaded "export.json" VNull))).
Proof.
  split; [reflexivity|]. split; [reflexivity|].
  apply (parseArrayFormat_no_rollback sampleHost [keptRecord] [lostRecord] VNull);
    reflexivity.
Defined.

Section Generic.

Variable host : Host.

(** X3. The generic scan parses an array twice when the array sits
    under a key that names conversations (it holds [conversation],
    [chat], [message] or [history]) and its first item looks like a
    conversation: once for the key, once more when the scan descends
    into the array. Every conversation of the array is pushed twice. *)
Theorem parseGenericFormat_parses_twice (key : string) (items : list value)
        (this : AIChatConverter) :
  conversationKey key = true ->
  looksLikeConversations items = true ->
  exists cs,
    snd (parseArrayFormat host (VArr items) this) = pushAll cs this
    /\ (fst (parseArrayFormat host (VArr items) this) = Ok tt ->
        parseGenericFormat host (VObj [(key, VArr items)]) this
        = (Ok tt, pushAll (cs ++ cs) this)).
Proof.
  intros Hkey Hlooks.
  destruct (writes_parseArrayFormat host (VArr items)) as (o & cs & Hw).
  exists cs. rewrite Hw. split; [reflexivity|]. cbn [fst]. intros ->.
  unfold parseGenericFormat. cbn [findConversations eachField].
  unfold visitProperty. rewrite Hkey, Hlooks. cbn [isArray andb].
  unfold bind, ret. rewrite !Hw, pushAll_pushAll. reflexivity.
Qed.

End Generic.

Lemma parseGenericFormat_parses_twice_witness :
  conversationKey "chat_log" = true
  /\ looksLikeConversations [keptRecord] = true
  /\ exists cs,
       snd (parseArrayFormat sampleHost (VArr [keptRecord]) (loaded "log.json" chatLog))
       = pushAll cs (loaded "log.json" chatLog)
       /\ (fst (parseArrayFormat sampleHost (VArr [keptRecord]) (loaded "log.json" chatLog))
           = Ok tt ->
           parseGenericFormat sampleHost chatLog (loaded "log.json" chatLog)
           = (Ok tt, pushAll (cs ++ cs) (loaded "log.json" chatLog))).
Proof.
  split; [reflexivity|]. split; [reflexivity|].
  apply (parseGenericFormat_parses_twice sampleHost "chat_log" [keptRecord]); reflexivity.
Defined.

(** ** Who built a conversation *)

Section Builders.

Variable host : Host.
Variable Q : Conversation -> Prop.

Lemma keeps_push_if (o : outcome Conversation) (test : Conversation -> bool) :
  (forall c, o = Ok c -> Q c) ->
  keeps Q (bind (lift o) (fun conversation =>
                            if test conversation then push conversation else ret tt)).
Proof.
  intro HQ. apply keeps_bind_lift. intros c Hc.
  apply keeps_if; [apply keeps_push, HQ, Hc | apply keeps_ret].
Qed.

Lemma keeps_array v :
  (forall conv index c, arrayConversation host conv index = Ok c -> Q c) ->
  keeps Q (parseArrayFormat host v).
Proof.
  intro HQ. unfold parseArrayFormat. apply keeps_bind_lift. intros items _.
  apply keeps_forEach. intros conv index.
  apply (keeps_push_if _ (fun c => (0 <? List.length (messages c))%nat || truthy (get conv "title"))%bool).
  apply HQ.
Qed.

Lemma keeps_takeout v :
  (forall chat index c, takeoutConversation host chat index = Ok c -> Q c) ->
  keeps Q (parseTakeoutFormat host v).
Proof.
  intro HQ. unfold parseTakeoutFormat. destruct v; try apply keeps_ret.
  apply keeps_forEach. intros chat index.
  apply (keeps_push_if _ (fun c => (0 <? List.length (messages c))%nat)), HQ.
Qed.

Lemma keeps_activity v :
  (forall activity index c, activityConversation host activity index = Ok c -> Q c) ->
  keeps Q (parseGeminiActivityFormat host v).
Proof.
  intro HQ. unfold parseGeminiActivityFormat. destruct v; try apply keeps_ret.
  apply keeps_forEach. intros activity index.
  apply (keeps_push_if _ (fun c => (0 <? List.length (messages c))%nat)), HQ.
Qed.

Lemma keeps_single v :
  (forall data c, singleConversation host data = Ok c -> Q c) ->
  keeps Q (parseSingleConversation host v).
Proof.
  intro HQ. apply (keeps_push_if _ (fun c => (0 <? List.length (messages c))%nat)), HQ.
Qed.

Lemma keeps_api v :
  (forall data c, apiConversation host data = Ok c -> Q c) ->
  keeps Q (parseApiFormat host v).
Proof.
  intro HQ. apply (keeps_push_if _ (fun c => (0 <? List.length (messages c))%nat)), HQ.
Qed.

Lemma keeps_generic obj :
  (forall conv index c, arrayConversation host conv index = Ok c -> Q c) ->
  keeps Q (findConversations host obj).
Proof.
  intro HQ.
  assert (Hvisit : forall key v inner, keeps Q inner -> keeps Q (visitProperty host key v inner)).
  { intros key v inner H. unfold visitProperty. apply keeps_bind; [|intros _; exact H].
    apply keeps_if; [apply keeps_array, HQ | apply keeps_ret]. }
  induction obj as [| | b | n | s | items IH | fields IH] using value_induction;
    cbn [findConversations]; try apply keeps_ret.
  - apply keeps_if; [apply keeps_array, HQ|].
    generalize 0%nat. induction IH as [|x r Hx _ IHr]; intro index; cbn [eachItem].
    + apply keeps_ret.
    + apply keeps_bind; [apply Hvisit, Hx | intros _; apply IHr].
  - induction IH as [|[key v] r Hx _ IHr]; cbn [eachField].
    + apply keeps_ret.
    + apply keeps_bind; [apply Hvisit, Hx | intros _; apply IHr].
Qed.

End Builders.

Section Built.

Variable host : Host.

Lemma keeps_dispatch_built d : keeps (built host) (dispatch host d).
Proof.
  unfold dispatch.
  apply keeps_bind_lift. intros gemini _. apply keeps_if.
  { apply keeps_bind; [apply keeps_setSource|]. intros _.
    apply keeps_activity. intros a i c H. right; right; left. eauto. }
  apply keeps_bind_lift. intros chatgpt _. apply keeps_if.
  { apply keeps_bind; [apply keeps_setSource|]. intros _.
    apply keeps_array. intros a i c H. left. eauto. }
  apply keeps_if; [apply keeps_array; intros a i c H; left; eauto|].
  apply keeps_bind_lift. intros convs _.
  apply keeps_if; [apply keeps_array; intros a i c H; left; eauto|].
  apply keeps_if.
  { apply keeps_bind; [apply keeps_setSource|]. intros _.
    apply keeps_takeout. intros a i c H. right; left. eauto. }
  apply keeps_if; [apply keeps_single; intros a c H; right; right; right; left; eauto|].
  apply keeps_if.
  { apply keeps_bind; [apply keeps_setSource|]. intros _.
    apply keeps_api. intros a c H. right; right; right; right. eauto. }
  apply keeps_generic. intros a i c H. left. eauto.
Qed.

(** Whatever the document and however the parse ends, every conversation
    in the list was built by one of the callbacks. *)
Lemma parseConversations_built (this : AIChatConverter) :
  Forall (built host) (conversations (snd (parseConversations host this))).
Proof.
  unfold parseConversations.
  assert (Hrest : forall k : M unit, keeps (built host) k ->
                    Forall (built host) (conversations (snd (bind reset (fun _ => k) this)))).
  { intros k Hk. unfold bind, reset. apply Hk. constructor. }
  apply Hrest.
  apply keeps_bind; [apply keeps_detectSourceFromFileName|]. intros _.
  apply keeps_bind; [|intros _; apply keeps_reclassify].
  intros start H. apply (keeps_dispatch_built (jsonData start) start H).
Qed.

End Built.

(** ** What every conversation holds *)

Lemma or_truthy a b : truthy b = true -> truthy (or_ a b) = true.
Proof. intro H. unfold or_. destruct (truthy a) eqn:E; assumption. Qed.

Ltac step_obind :=
  match goal with
  | |- obind ?o _ = _ -> _ => destruct o eqn:?; cbn [obind]; try discriminate
  end.

Section Named.

Variable host : Host.

Lemma arrayConversation_named conv index c :
  arrayConversation host conv index = Ok c -> named c.
Proof.
  unfold arrayConversation. step_obind. cbv zeta. step_obind.
  destruct (truthy (get conv "mapping")).
  - step_obind. intro E. injection E as <-. split; cbn [id title].
    + apply or_truthy. reflexivity.
    + apply or_truthy, or_truthy. reflexivity.
  - destruct (or_ (get conv "messages") _); try step_obind;
      (intro E; injection E as <-; split; cbn [id title];
       [apply or_truthy; reflexivity | apply or_truthy, or_truthy; reflexivity]).
Qed.

Lemma takeoutConversation_named chat index c :
  takeoutConversation host chat index = Ok c -> named c.
Proof.
  unfold takeoutConversation. step_obind. cbv zeta. step_obind. step_obind.
  intro E. injection E as <-. split; cbn [id title].
  - apply or_truthy. reflexivity.
  - apply or_truthy, or_truthy. reflexivity.
Qed.

Lemma activityConversation_named activity index c :
  activityConversation host activity index = Ok c -> named c.
Proof.
  unfold activityConversation. do 5 step_obind.
  cbv zeta. intro E. injection E as <-. split; cbn [id title]; [reflexivity|].
  match goal with |- truthy (VStr (if ?b then _ else _)) = true => destruct b eqn:Hb end.
  - reflexivity.
  - cbn [truthy]. rewrite Hb. reflexivity.
Qed.

Lemma singleConversation_named data c : singleConversation host data = Ok c -> named c.
Proof.
  unfold singleConversation. step_obind. cbv zeta. step_obind. step_obind.
  intro E. injection E as <-. split; cbn [id title].
  - apply or_truthy. reflexivity.
  - apply or_truthy, or_truthy. reflexivity.
Qed.

Lemma apiConversation_named data c : apiConversation host data = Ok c -> named c.
Proof.
  unfold apiConversation. step_obind. step_obind. step_obind.
  intro E. injection E as <-. split; reflexivity.
Qed.

Lemma built_named c : built host c -> named c.
Proof.
  intros [(conv & index & H) | [(chat & index & H) | [(a & index & H) | [(d & H) | (d & H)]]]].
  - apply (arrayConversation_named _ _ _ H).
  - apply (takeoutConversation_named _ _ _ H).
  - apply (activityConversation_named _ _ _ H).
  - apply (singleConversation_named _ _ H).
  - apply (apiConversation_named _ _ H).
Qed.

(** X4. Whatever the document and however the parse ends, every
    conversation in the list has a truthy [id] and a truthy [title]:
    each parser closes both with a default text. *)
Theorem conversations_named (this : AIChatConverter) :
  Forall (fun c => truthy (id c) = true /\ truthy (title c) = true)
         (conversations (snd (parseConversations host this))).
Proof.
  apply (Forall_impl _ built_named), parseConversations_built.
Qed.

End Named.

Section Labelling.

Variable host : Host.

Lemma takeoutConversation_plain chat index c :
  takeoutConversation host chat index = Ok c -> _isChatGPT c = false.
Proof.
  unfold takeoutConversation. step_obind. cbv zeta. step_obind. step_obind.
  intro E. injection E as <-. reflexivity.
Qed.

Lemma activityConversation_plain activity index c :
  activityConversation host activity index = Ok c -> _isChatGPT c = false.
Proof.
  unfold activityConversation. do 5 step_obind.
  cbv zeta. intro E. injection E as <-. reflexivity.
Qed.

Lemma singleConversation_plain data c : singleConversation host data = Ok c -> _isChatGPT c = false.
Proof.
  unfold singleConversation. step_obind. cbv zeta. step_obind. step_obind.
  intro E. injection E as <-. reflexivity.
Qed.

Lemma apiConversation_plain data c : apiConversation host data = Ok c -> _isChatGPT c = false.
Proof.
  unfold apiConversation. step_obind. step_obind. step_obind.
  intro E. injection E as <-. reflexivity.
Qed.

Lemma writes_source {A} (m : M A) this :
  writes m -> detectedSource (snd (m this)) = detectedSource this.
Proof. intros (o & cs & H). rewrite H. reflexivity. Qed.

Lemma keeps_from_empty {A} Q (m : M A) this :
  keeps Q m -> conversations this = [] -> Forall Q (conversations (snd (m this))).
Proof. intros H E. apply H. rewrite E. constructor. Qed.

Lemma snd_bind_lift {A B} (o : outcome A) (k : A -> M B) this :
  snd (bind (lift o) k this) = match o with Ok a => snd (k a this) | _ => this end.
Proof. unfold bind, lift. destruct o; reflexivity. Qed.

Lemma snd_bind_setSource {B} s (k : unit -> M B) this :
  snd (bind (setSource s) k this) = snd (k tt (snd (setSource s this))).
Proof. reflexivity. Qed.

(** What the dispatch leaves, from an empty list: conversations without a
    mapping only, or the source [ChatGPT], or the source it found. *)
Lemma dispatch_source d this :
  conversations this = [] ->
  Forall (fun c => _isChatGPT c = false) (conversations (snd (dispatch host d this)))
  \/ detectedSource (snd (dispatch host d this)) = ChatGPT
  \/ detectedSource (snd (dispatch host d this)) = detectedSource this.
Proof.
  intro Hempty. unfold dispatch. rewrite snd_bind_lift.
  destruct (isGeminiActivity d) as [[|]| |]; [| |right; right; reflexivity..].
  { left. rewrite snd_bind_setSource.
    apply keeps_from_empty;
      [apply keeps_activity; intros a i c; apply activityConversation_plain | exact Hempty]. }
  rewrite snd_bind_lift.
  destruct (isChatGPTExport d) as [[|]| |]; [| |right; right; reflexivity..].
  { right; left. rewrite snd_bind_setSource.
    rewrite (writes_source _ _ (writes_parseArrayFormat host d)). reflexivity. }
  destruct (isArray d).
  { right; right. apply writes_source, writes_parseArrayFormat. }
  rewrite snd_bind_lift.
  destruct (getp d "conversations") as [convs| |]; [|right; right; reflexivity..].
  destruct (truthy convs).
  { right; right. apply writes_source, writes_parseArrayFormat. }
  destruct (truthy (get d "chats") || truthy (get d "history"))%bool.
  { left. rewrite snd_bind_setSource.
    apply keeps_from_empty;
      [apply keeps_takeout; intros a i c; apply takeoutConversation_plain | exact Hempty]. }
  destruct (truthy (get d "messages") || truthy (get d "content"))%bool.
  { left.
    apply keeps_from_empty;
      [apply keeps_single; intros a c; apply singleConversation_plain | exact Hempty]. }
  destruct (truthy (get d "contents")).
  { left. rewrite snd_bind_setSource.
    apply keeps_from_empty;
      [apply keeps_api; intros a c; apply apiConversation_plain | exact Hempty]. }
  right; right. apply writes_source, writes_findConversations.
Qed.

Lemma parseConversations_detected this :
  parseConversations host this
  = bind (fun start => dispatch host (jsonData start) start) (fun _ => reclassify)
         (detected this).
Proof.
  unfold parseConversations, detected. unfold bind at 1 2. cbn [reset snd].
  unfold detectSourceFromFileName.
  destruct (_ =? ""); [reflexivity|].
  destruct (existsb _ geminiPatterns); [reflexivity|].
  destruct (existsb _ chatgptPatterns); reflexivity.
Qed.

Lemma detected_source this :
  conversations (detected this) = []
  /\ (detectedSource (detected this) = Gemini -> namedGemini (fileName this) = true).
Proof.
  unfold detected, detectSourceFromFileName, namedGemini. cbn [reset snd fileName].
  destruct (_ =? ""); [split; [reflexivity | discriminate]|].
  destruct (existsb _ geminiPatterns); [split; [reflexivity | reflexivity]|].
  destruct (existsb _ chatgptPatterns); split; try reflexivity; discriminate.
Qed.

Lemma existsb_plain (l : list Conversation) :
  Forall (fun c => _isChatGPT c = false) l -> existsb _isChatGPT l = false.
Proof.
  induction 1 as [|c r Hc _ IH]; [reflexivity|]. cbn [existsb]. rewrite Hc, IH. reflexivity.
Qed.

(** X5. When the parse returns and the list holds a conversation that
    was built from a mapping, the converter does not name the source
    [AI]: it names [ChatGPT], unless the file name holds a Gemini
    pattern. *)
Theorem mapping_conversation_source (this : AIChatConverter) :
  fst (parseConversations host this) = Ok tt ->
  existsb _isChatGPT (conversations (snd (parseConversations host this))) = true ->
  detectedSource (snd (parseConversations host this)) <> AI
  /\ (namedGemini (fileName this) = false ->
      detectedSource (snd (parseConversations host this)) = ChatGPT).
Proof.
  rewrite parseConversations_detected.
  destruct (detected_source this) as [Hempty Hgemini].
  pose proof (dispatch_source (jsonData (detected this)) (detected this) Hempty) as Hd.
  unfold bind.
  destruct (dispatch host (jsonData (detected this)) (detected this)) as [[[]| |] left_]; cbn [fst snd] in *;
    try discriminate.
  intros _ Hsome. unfold reclassify in *.
  destruct (detectedSource left_) eqn:Hs.
  - unfold ret in *. cbn [snd] in *. rewrite Hs. split; [discriminate|].
    intro Hname. destruct Hd as [Hd | [Hd | Hd]].
    + rewrite (existsb_plain _ Hd) in Hsome. discriminate.
    + discriminate.
    + rewrite <- Hd in Hgemini. rewrite (Hgemini eq_refl) in Hname. discriminate.
  - unfold ret. cbn [snd]. rewrite Hs. split; [discriminate | reflexivity].
  - destruct (existsb _isChatGPT (conversations left_)) eqn:He.
    + unfold setSource. cbn [snd detectedSource]. split; [discriminate | reflexivity].
    + unfold ret in Hsome. cbn [snd] in Hsome. rewrite He in Hsome. discriminate.
Qed.

End Labelling.

Lemma mapping_conversation_source_witness :
  fst (parseConversations sampleHost (loaded "export.json" typedExport)) = Ok tt
  /\ existsb _isChatGPT
             (conversations (snd (parseConversations sampleHost
                                    (loaded "export.json" typedExport)))) = true
  /\ detectedSource (snd (parseConversations sampleHost (loaded "export.json" typedExport)))
     <> AI
  /\ (namedGemini "export.json" = false ->
      detectedSource (snd (parseConversations sampleHost (loaded "export.json" typedExport)))
      = ChatGPT).
Proof.
  split; [reflexivity|]. split; [reflexivity|].
  apply (mapping_conversation_source sampleHost (loaded "export.json" typedExport));
    reflexivity.
Defined.

(** ** Messages *)

Section Messages.

Variable host : Host.

Lemma arrayConversation_nonblank conv index c :
  arrayConversation host conv index = Ok c -> Forall nonblank (messages c).
Proof.
  unfold arrayConversation. step_obind. cbv zeta. step_obind.
  destruct (truthy (get conv "mapping")).
  - step_obind. intro E. injection E as <-. cbn [messages].
    eapply parseMapping_nonblank; eassumption.
  - destruct (or_ (get conv "messages") _); try step_obind;
      (intro E; injection E as <-; cbn [messages]; try constructor).
    eapply somes_nonblank; [apply parseMessage_nonblank | eassumption].
Qed.

Lemma takeoutConversation_nonblank chat index c :
  takeoutConversation host chat index = Ok c -> Forall nonblank (messages c).
Proof.
  unfold takeoutConversation. step_obind. cbv zeta. step_obind. step_obind.
  intro E. injection E as <-. cbn [messages].
  eapply somes_nonblank; [apply parseMessage_nonblank | eassumption].
Qed.

Lemma singleConversation_nonblank data c :
  singleConversation host data = Ok c -> Forall nonblank (messages c).
Proof.
  unfold singleConversation. step_obind. cbv zeta. step_obind. step_obind.
  intro E. injection E as <-. cbn [messages].
  eapply somes_nonblank; [apply parseMessage_nonblank | eassumption].
Qed.

(** X6. The parsers that read messages through [parseMessage] and
    [parseMapping] (the array format, Takeout, the single conversation
    and the generic scan) push only conversations whose messages have a
    content that is a string, is trimmed and is not empty, whether they
    return or throw. *)
Theorem message_parsers_nonblank (v : value) (this : AIChatConverter) :
  Forall (fun c => Forall nonblank (messages c)) (conversations this) ->
  Forall (fun c => Forall nonblank (messages c))
         (conversations (snd (parseArrayFormat host v this)))
  /\ Forall (fun c => Forall nonblank (messages c))
            (conversations (snd (parseTakeoutFormat host v this)))
  /\ Forall (fun c => Forall nonblank (messages c))
            (conversations (snd (parseSingleConversation host v this)))
  /\ Forall (fun c => Forall nonblank (messages c))
            (conversations (snd (parseGenericFormat host v this))).
Proof.
  intro H. repeat split.
  - apply (keeps_array host _ v arrayConversation_nonblank this H).
  - apply (keeps_takeout host _ v takeoutConversation_nonblank this H).
  - apply (keeps_single host _ v singleConversation_nonblank this H).
  - apply (keeps_generic host _ v arrayConversation_nonblank this H).
Qed.

(** ** The roles of a mapping *)

Lemma chainMessage_turn msg m : chainMessage host msg = Ok (Some m) -> turn m.
Proof.
  unfold chainMessage. cbv zeta. step_obind. step_obind.
  destruct (_ && _)%bool; [|discriminate].
  intro E. injection E as <-. unfold turn. cbn [role].
  destruct (is_str "assistant" _); [right | left]; reflexivity.
Qed.

Lemma nodeMessage_turn node m : nodeMessage host node = Ok (Some m) -> turn m.
Proof.
  unfold nodeMessage. cbv zeta.
  destruct (truthy _); [apply chainMessage_turn | discriminate].
Qed.

Lemma walk_turns mapping :
  forall fuel current from seen chain chain' seen',
    Forall turn chain ->
    walk host fuel mapping current from seen chain = Ok (chain', seen') ->
    Forall turn chain'.
Proof.
  induction fuel as [|fuel IH]; intros current from seen chain chain' seen' Hchain;
    rewrite walk_unfold; destruct (truthy current);
    try (intro E; injection E as <- <-; exact Hchain);
    (destruct (ToString current) as [key|]; [|discriminate]);
    destruct (_ && _)%bool; try discriminate;
    try (intro E; injection E as <- <-; exact Hchain).
  destruct (nodeMessage host (get mapping key)) as [m| |] eqn:Hm;
    cbn [obind]; try discriminate.
  apply IH. destruct m as [x|]; [|exact Hchain].
  apply Forall_app. split; [exact Hchain|].
  constructor; [apply (nodeMessage_turn _ _ Hm) | constructor].
Qed.

Lemma is_str_false lit v : is_str lit v = false -> v <> VStr lit.
Proof.
  intros H ->. cbn [is_str] in H. rewrite String.eqb_refl in H. discriminate.
Qed.

Lemma sortedMessage_role node m : sortedMessage host node = Ok (Some m) -> sortedRole m.
Proof.
  unfold sortedMessage. cbv zeta.
  destruct (_ && _)%bool; [|discriminate].
  step_obind.
  destruct (negb (trim_string _ =? "")); cbn [andb]; [|discriminate].
  destruct (is_str "system" _) eqn:Hsys; cbn [negb]; [discriminate|].
  intro E. injection E as <-. unfold sortedRole. cbn [role].
  destruct (is_str "assistant" _) eqn:Ha; cbn [orb]; [split; discriminate|].
  destruct (is_str "model" _) eqn:Hm; [split; discriminate|].
  split; apply is_str_false; assumption.
Qed.

Lemma somes_all {A} (P : Message -> Prop) (f : A -> outcome (option Message)) (l : list A) found :
  (forall x m, f x = Ok (Some m) -> P m) ->
  mapM f l = Ok found -> Forall P (somes found).
Proof.
  intro Hf. revert found. induction l as [|x r IH]; intro found; cbn [mapM].
  - intro E. injection E as <-. constructor.
  - destruct (f x) as [e| |] eqn:Hx; cbn [obind]; try discriminate.
    destruct (mapM f r) as [es| |]; cbn [obind]; try discriminate.
    intro E. injection E as <-.
    destruct e as [m|]; cbn [somes flat_map app]; [|apply IH; reflexivity].
    constructor; [apply (Hf _ _ Hx) | apply IH; reflexivity].
Qed.

(** X7. The roles that [parseMapping] returns. On the walk from the
    leaf every message has the role [user] or [assistant]; in the sorted
    mode the roles [system] and [model] do not occur, and any other
    role passes. *)
Theorem parseMapping_roles (mapping currentNode : value) (chain : list Message) :
  parseMapping host mapping currentNode = Ok chain ->
  if leafResolves mapping currentNode
  then Forall (fun m => role m = VStr "user" \/ role m = VStr "assistant") chain
  else Forall (fun m => role m <> VStr "system" /\ role m <> VStr "model") chain.
Proof.
  unfold parseMapping, leafResolves. cbv zeta.
  assert (Hleaf : truthy (match currentNode with VUndef => VNull | v => v end) = truthy currentNode
                  /\ (truthy currentNode = true ->
                      match currentNode with VUndef => VNull | v => v end = currentNode)).
  { destruct currentNode; split; try reflexivity; discriminate. }
  destruct Hleaf as [Ht Hv]. rewrite Ht.
  destruct (truthy currentNode) eqn:Hc.
  - rewrite (Hv eq_refl). unfold to_string.
    destruct (ToString currentNode) as [key|]; cbn [obind andb]; [|discriminate].
    destruct mapping; cbn [getp obind andb]; try discriminate;
      match goal with
      | |- (if truthy ?x then _ else _) = _ -> _ => destruct (truthy x) eqn:Hx
      end;
      try (step_obind; intro E; injection E as <-; apply Forall_rev;
           match goal with
           | H : leafChain _ _ _ = Ok ?p |- _ =>
               destruct p as [ms seen]; cbn [fst];
               apply (walk_turns _ _ _ _ _ _ _ _ (Forall_nil _) H)
           end);
      try (step_obind; step_obind; intro E; injection E as <-;
           eapply (somes_all sortedRole); [apply sortedMessage_role | eassumption]).
  - cbn [obind andb]. destruct mapping; try discriminate;
      (step_obind; step_obind; intro E; injection E as <-;
       eapply (somes_all sortedRole); [apply sortedMessage_role | eassumption]).
Qed.

End Messages.

Lemma message_parsers_nonblank_witness :
  Forall (fun c => Forall nonblank (messages c)) (conversations (loaded "export.json" VNull))
  /\ Forall (fun c => Forall nonblank (messages c))
            (conversations (snd (parseArrayFormat sampleHost typedExport
                                   (loaded "export.json" VNull)))).
Proof.
  split; [constructor|].
  apply (message_parsers_nonblank sampleHost typedExport (loaded "export.json" VNull)).
  constructor.
Defined.

Lemma parseMapping_roles_witness :
  leafResolves linearMapping (VStr "n4") = true
  /\ exists chain,
       parseMapping sampleHost linearMapping (VStr "n4") = Ok chain
       /\ Forall (fun m => role m = VStr "user" \/ role m = VStr "assistant") chain.
Proof.
  split; [reflexivity|]. eexists. split; [reflexivity|].
  exact (parseMapping_roles sampleHost linearMapping (VStr "n4") _ eq_refl).
Defined.

(** ** The id taken from a mapping *)

Lemma firstUserNode_found mapping nodeIds :
  forall found, firstUserNode mapping nodeIds = Ok found ->
    match found with
    | Some k => In k nodeIds /\ userTextNode (get mapping k) = true
    | None => forall k, In k nodeIds -> userTextNode (get mapping k) = false
    end.
Proof.
  induction nodeIds as [|nodeId r IH]; intros found; cbn [firstUserNode].
  - intro E. injection E as <-. intros k [].
  - destruct (getp (get mapping nodeId) "message") as [message| |] eqn:Hm;
      cbn [obind]; try discriminate.
    assert (Hmsg : message = get (get mapping nodeId) "message").
    { destruct (get mapping nodeId); cbn [getp] in Hm; try discriminate;
        injection Hm as <-; reflexivity. }
    destruct (_ && _ && _ && _ && _)%bool eqn:Htest.
    + intro E. injection E as <-. split; [left; reflexivity|].
      unfold userTextNode. cbv zeta. rewrite <- Hmsg. exact Htest.
    + intro E. specialize (IH _ E). destruct found as [k|].
      * destruct IH as [Hin Hk]. split; [right; exact Hin | exact Hk].
      * intros k [<- | Hin]; [|apply IH, Hin].
        unfold userTextNode. cbv zeta. rewrite <- Hmsg. exact Htest.
Qed.

(** X8. What [extractConversationIdFromMapping] returns, when it
    returns: a key of the mapping whose node holds a user text message
    or which does not start with [client-]; or [null], and then no node
    holds a user text message and every key starts with [client-]. *)
Theorem extractConversationIdFromMapping_result (mapping r : value) :
  extractConversationIdFromMapping mapping = Ok r ->
  (exists k, r = VStr k /\ In k (keys mapping)
             /\ (userTextNode (get mapping k) = true \/ starts_with "client-" k = false))
  \/ (r = VNull
      /\ forall k, In k (keys mapping) ->
                   userTextNode (get mapping k) = false /\ starts_with "client-" k = true).
Proof.
  unfold extractConversationIdFromMapping. cbv zeta.
  destruct (firstUserNode mapping (keys mapping)) as [found| |] eqn:Hfirst;
    cbn [obind]; try discriminate.
  pose proof (firstUserNode_found _ _ _ Hfirst) as Hfound.
  destruct found as [k|].
  - intro E. injection E as <-. left. exists k. destruct Hfound. auto.
  - destruct (find _ (keys mapping)) as [k|] eqn:Hfind.
    + intro E. injection E as <-. left. exists k.
      apply find_some in Hfind. destruct Hfind as [Hin Hk].
      apply andb_prop in Hk. destruct Hk as [_ Hk].
      split; [reflexivity|]. split; [exact Hin|]. right.
      destruct (starts_with "client-" k); [discriminate | reflexivity].
    + intro E. injection E as <-. right. split; [reflexivity|].
      intros k Hin. split; [apply Hfound, Hin|].
      pose proof (find_none _ _ Hfind k Hin) as Hk. cbv beta in Hk.
      destruct (String.eqb_spec k "client-created-root") as [->|_]; [reflexivity|].
      cbn [negb andb] in Hk. destruct (starts_with "client-" k); [reflexivity | discriminate].
Qed.

Lemma extractConversationIdFromMapping_result_witness :
  extractConversationIdFromMapping linearMapping = Ok (VStr "n1")
  /\ ((exists k, VStr "n1" = VStr k /\ In k (keys linearMapping)
                 /\ (userTextNode (get linearMapping k) = true
                     \/ starts_with "client-" k = false))
      \/ (VStr "n1" = VNull
          /\ forall k, In k (keys linearMapping) ->
                       userTextNode (get linearMapping k) = false
                       /\ starts_with "client-" k = true)).
Proof.
  split; [reflexivity|].
  apply (extractConversationIdFromMapping_result linearMapping (VStr "n1")). reflexivity.
Defined.

(** ** The messages of the API format *)

Section Api.

Variable host : Host.

Lemma apiMessages_all content ms :
  apiMessages content = Ok ms -> Forall apiMessage ms.
Proof.
  unfold apiMessages. step_obind. cbv zeta. step_obind.
  match goal with |- obind (mapM ?f ?l) _ = _ -> _ => set (F := f); set (items := l) end.
  assert (H : forall found, mapM F items = Ok found -> Forall apiMessage (somes found)).
  { clear. induction items as [|part r IH]; intro found; cbn [mapM].
    - intro E. injection E as <-. constructor.
    - destruct (F part) as [e| |] eqn:Hpart; cbn [obind]; try discriminate.
      destruct (mapM F r) as [es| |]; cbn [obind]; try discriminate.
      intro E. injection E as <-. specialize (IH _ eq_refl).
      destruct e as [m|]; cbn [somes flat_map app]; [|exact IH].
      constructor; [|exact IH].
      subst F. cbv beta in Hpart. destruct (getp part "text") as [text| |]; cbn [obind] in Hpart;
        try discriminate.
      destruct (truthy text) eqn:Htext; [|discriminate].
      injection Hpart as <-. unfold apiMessage. cbn [timestamp role content].
      split; [reflexivity|].
      destruct (is_str "model" _) eqn:Hmodel.
      + split; [discriminate|]. split; [reflexivity | exact Htext].
      + split; [apply is_str_false, Hmodel|]. split; [apply or_truthy; reflexivity | exact Htext]. }
  destruct (mapM F items) as [found| |] eqn:Hfound; cbn [obind]; try discriminate.
  intro E. injection E as <-. apply H. reflexivity.
Qed.

Lemma concat_all {A B} (P : B -> Prop) (f : A -> outcome (list B)) (l : list A) found :
  (forall x ys, f x = Ok ys -> Forall P ys) ->
  mapM f l = Ok found -> Forall P (List.concat found).
Proof.
  intro Hf. revert found. induction l as [|x r IH]; intros found; cbn [mapM].
  - intro E. injection E as <-. constructor.
  - destruct (f x) as [ys| |] eqn:Hx; cbn [obind]; try discriminate.
    destruct (mapM f r) as [yss| |]; cbn [obind]; try discriminate.
    intro E. injection E as <-. cbn [List.concat]. apply Forall_app. split.
    + apply (Hf _ _ Hx).
    + apply IH. reflexivity.
Qed.

(** X9. The conversation of the API format has the id
    [api_conversation_1], and each of its messages has no timestamp, a
    truthy role that is not [model], and a truthy content. *)
Theorem apiConversation_messages (data : value) (c : Conversation) :
  apiConversation host data = Ok c ->
  id c = VStr "api_conversation_1"
  /\ Forall (fun m => timestamp m = None /\ role m <> VStr "model" /\ truthy (role m) = true
                      /\ truthy (content m) = true)
            (messages c).
Proof.
  unfold apiConversation. step_obind. step_obind. step_obind.
  intro E. injection E as <-. cbn [id messages]. split; [reflexivity|].
  eapply (concat_all apiMessage); [apply apiMessages_all | eassumption].
Qed.

End Api.

Lemma apiConversation_messages_witness :
  exists c,
    apiConversation sampleHost apiDocument = Ok c
    /\ id c = VStr "api_conversation_1"
    /\ Forall (fun m => timestamp m = None /\ role m <> VStr "model"
                        /\ truthy (role m) = true /\ truthy (content m) = true)
              (messages c).
Proof.
  eexists. split; [reflexivity|].
  apply (apiConversation_messages sampleHost apiDocument). reflexivity.
Defined.

(** ** stripHtml *)

Lemma replace_all_plain m by_ s :
  at_markup m -> markupFree s -> replace_all m by_ 0 s = s.
Proof.
  intros Hm. induction s as [|c r IH]; intro Hs; [reflexivity|].
  cbn [replace_all].
  destruct (m (String c r)) as [n|] eqn:E.
  - exfalso. destruct (Hm _ _ E) as (c' & r' & Heq & Hc). injection Heq as <- <-.
    destruct (Hs c (or_introl eq_refl)) as [H1 H2]. destruct Hc; contradiction.
  - f_equal. apply IH. intros x Hx. apply Hs. right. exact Hx.
Qed.

Lemma ci_lt c : ci_eqb "<" c = true -> c = "<"%char.
Proof.
  destruct c as [[] [] [] [] [] [] [] []]; cbv; intro H; try reflexivity; discriminate H.
Qed.

Lemma eat_ci_lt p s r : eat_ci (String "<" p) s = Some r -> exists s', s = String "<" s'.
Proof.
  destruct s as [|c s']; cbn [eat_ci]; [discriminate|].
  destruct (ci_eqb "<" c) eqn:E; [|discriminate].
  intros _. apply ci_lt in E. subst c. eauto.
Qed.

Lemma at_markup_eat (m : string -> option nat) p :
  (forall s n, m s = Some n -> exists r, eat_ci (String "<" p) s = Some r) -> at_markup m.
Proof.
  intros H s n E. destruct (H _ _ E) as [r Hr].
  destruct (eat_ci_lt _ _ _ Hr) as [s' ->]. eauto.
Qed.

Lemma at_markup_void tag : at_markup (re_void (String "<" tag)).
Proof.
  apply (at_markup_eat _ tag). intros s n. unfold re_void.
  destruct (eat_ci _ s); [eauto | discriminate].
Qed.

Lemma at_markup_open tag : at_markup (re_open (String "<" tag)).
Proof.
  apply (at_markup_eat _ tag). intros s n. unfold re_open.
  destruct (eat_ci _ s); [eauto | discriminate].
Qed.

Lemma at_markup_lit_ci lit : at_markup (re_lit_ci (String "<" lit)).
Proof.
  apply (at_markup_eat _ lit). intros s n. unfold re_lit_ci.
  destruct (eat_ci _ s); [eauto | discriminate].
Qed.

Lemma at_markup_heading_open : at_markup re_heading_open.
Proof.
  apply (at_markup_eat _ "h"). intros s n. unfold re_heading_open.
  destruct (eat_ci _ s); [eauto | discriminate].
Qed.

Lemma at_markup_heading_close : at_markup re_heading_close.
Proof.
  apply (at_markup_eat _ "/h"). intros s n. unfold re_heading_close.
  destruct (eat_ci _ s); [eauto | discriminate].
Qed.

Lemma at_markup_tag : at_markup re_tag.
Proof.
  intros s n. unfold re_tag. destruct s as [|c r]; [discriminate|].
  destruct (Ascii.eqb_spec c "<"); [subst; eauto|].
  destruct c as [[] [] [] [] [] [] [] []]; try discriminate; contradiction.
Qed.

Lemma at_markup_lit lit : at_markup (re_lit (String "&" lit)).
Proof.
  intros s n. unfold re_lit. destruct s as [|c r]; cbn [starts_with]; [discriminate|].
  destruct (Ascii.eqb_spec "&" c); [subst; eauto | discriminate].
Qed.

Lemma skip_while_length f s : String.length (skip_while f s) <= String.length s.
Proof.
  induction s as [|c r IH]; cbn [skip_while String.length]; [lia|].
  destruct (f c); cbn [String.length]; lia.
Qed.

Lemma taken_run f s : taken s (skip_while f s) = run f s.
Proof.
  unfold taken. induction s as [|c r IH]; cbn [skip_while run String.length]; [reflexivity|].
  destruct (f c); cbn [String.length]; [|lia].
  pose proof (skip_while_length f r). lia.
Qed.

Lemma re_newlines_run s :
  re_newlines s = if (3 <=? run is_nl s)%nat then Some (run is_nl s) else None.
Proof. unfold re_newlines. cbv zeta. rewrite taken_run. reflexivity. Qed.

Lemma run_blankLines s : (3 <=? run is_nl s)%nat = starts_with blankLines s.
Proof.
  change blankLines
    with (String (ascii_of_nat 10) (String (ascii_of_nat 10) (String (ascii_of_nat 10) ""))).
  unfold is_nl.
  destruct s as [|c1 [|c2 [|c3 r]]]; cbn [run starts_with];
    repeat match goal with
           | |- context [Ascii.eqb ?a ?b] => destruct (Ascii.eqb a b); cbn [andb run]
           end; reflexivity.
Qed.

Lemma replace_newlines_none s :
  str_includes blankLines s = false -> replace_all re_newlines (nl ++ nl) 0 s = s.
Proof.
  induction s as [|c r IH]; [reflexivity|].
  cbn [str_includes replace_all]. intro H. apply orb_false_elim in H. destruct H as [H1 H2].
  rewrite re_newlines_run, run_blankLines, H1. f_equal. apply IH.
  destruct r; exact H2.
Qed.

(** X10. Text without mark-up passes [stripHtml] but for its blank
    lines and its ends: when the text holds neither [<] nor [&], the
    result is the text with every run of three or more line feeds made
    two, trimmed; the trimmed text itself when it has no such run. *)
Theorem stripHtml_plain_text (s : string) :
  markupFree s ->
  stripHtml (VStr s) = Ok (trim_string (replace_all re_newlines (nl ++ nl) 0 s))
  /\ (str_includes blankLines s = false -> stripHtml (VStr s) = Ok (trim_string s)).
Proof.
  intro Hs.
  assert (E : stripHtml (VStr s) = Ok (trim_string (replace_all re_newlines (nl ++ nl) 0 s))).
  { unfold stripHtml. destruct s as [|c r]; [reflexivity|].
    cbn [truthy negb String.eqb]. cbv zeta.
    rewrite (replace_all_plain _ _ _ (at_markup_void "br") Hs).
    rewrite (replace_all_plain _ _ _ (at_markup_open "p") Hs).
    rewrite (replace_all_plain _ _ _ (at_markup_lit_ci "/p>") Hs).
    rewrite (replace_all_plain _ _ _ (at_markup_open "li") Hs).
    rewrite (replace_all_plain _ _ _ (at_markup_lit_ci "/li>") Hs).
    rewrite (replace_all_plain _ _ _ at_markup_heading_open Hs).
    rewrite (replace_all_plain _ _ _ at_markup_heading_close Hs).
    rewrite (replace_all_plain _ _ _ (at_markup_void "hr") Hs).
    rewrite (replace_all_plain _ _ _ at_markup_tag Hs).
    rewrite (replace_all_plain _ _ _ (at_markup_lit "lt;") Hs).
    rewrite (replace_all_plain _ _ _ (at_markup_lit "gt;") Hs).
    rewrite (replace_all_plain _ _ _ (at_markup_lit "amp;") Hs).
    rewrite (replace_all_plain _ _ _ (at_markup_lit "quot;") Hs).
    rewrite (replace_all_plain _ _ _ (at_markup_lit "#39;") Hs).
    reflexivity. }
  split; [exact E|]. intro Hn. rewrite E, (replace_newlines_none _ Hn). reflexivity.
Qed.

Lemma stripHtml_plain_text_witness :
  markupFree "a b "
  /\ stripHtml (VStr "a b ") = Ok "a b".
Proof.
  assert (H : markupFree "a b ").
  { intros c Hc. cbn in Hc.
    repeat (destruct Hc as [<- | Hc]; [split; discriminate|]). destruct Hc. }
  split; [exact H|].
  apply (stripHtml_plain_text "a b " H). reflexivity.
Defined.

(** *** The shape of the result *)

Lemma run_drop_run f s : run f (drop (run f s) s) = 0.
Proof.
  induction s as [|c r IH]; [reflexivity|].
  cbn [run]. destruct (f c) eqn:E; cbn [drop]; [exact IH|].
  cbn [run]. rewrite E. reflexivity.
Qed.

Lemma run_head f s : run f s = 0 -> forall p c, f c = true -> starts_with (String c p) s = false.
Proof.
  destruct s as [|c' r]; intros H p c Hc; cbn [starts_with]; [reflexivity|].
  cbn [run] in H. destruct (Ascii.eqb_spec c c') as [<-|]; [|reflexivity].
  rewrite Hc in H. discriminate.
Qed.

Lemma str_includes_cons p c r :
  str_includes p (String c r) = starts_with p (String c r) || str_includes p r.
Proof. reflexivity. Qed.

Lemma collapse_shape s :
  forall skip,
    str_includes blankLines (replace_all re_newlines (nl ++ nl) skip s) = false
    /\ run is_nl (replace_all re_newlines (nl ++ nl) skip s) <= run is_nl (drop skip s)
    /\ run is_nl (replace_all re_newlines (nl ++ nl) skip s) <= 2.
Proof.
  induction s as [|c r IH]; intro skip.
  - cbn [replace_all]. repeat split; cbn; lia || reflexivity.
  - destruct skip as [|k]; cbn [replace_all drop]; [|apply IH].
    rewrite re_newlines_run.
    destruct (3 <=? run is_nl (String c r))%nat eqn:E3.
    + apply Nat.leb_le in E3.
      assert (Hc : is_nl c = true /\ run is_nl (String c r) = S (run is_nl r)).
      { cbn [run] in *. destruct (is_nl c); [auto | lia]. }
      destruct Hc as [Hc ->].
      destruct (IH (run is_nl r)) as (Hin & Hrun & _).
      rewrite run_drop_run in Hrun.
      set (out := replace_all re_newlines (nl ++ nl) (run is_nl r) r) in *.
      assert (Hout : run is_nl out = 0) by lia.
      assert (Hnl : is_nl (ascii_of_nat 10) = true) by reflexivity.
      change ((nl ++ nl) ++ out) with (String (ascii_of_nat 10) (String (ascii_of_nat 10) out)).
      repeat split.
      * rewrite !str_includes_cons, <- !run_blankLines. cbn [run].
        rewrite Hnl, Hout, Hin. reflexivity.
      * cbn [run]. rewrite Hnl, Hout. cbn [run] in E3. rewrite Hc in E3. lia.
      * cbn [run]. rewrite Hnl, Hout. lia.
    + apply Nat.leb_gt in E3.
      destruct (IH 0) as (Hin & Hrun & Htwo). cbn [drop] in Hrun.
      set (out := replace_all re_newlines (nl ++ nl) 0 r) in *.
      repeat split.
      * rewrite str_includes_cons, <- run_blankLines, Hin, orb_false_r.
        apply Nat.leb_gt. cbn [run] in *. destruct (is_nl c); lia.
      * cbn [run]. destruct (is_nl c); lia.
      * cbn [run] in *. destruct (is_nl c); lia.
Qed.

(** A prefix or a suffix holds no more than the string. *)
Lemma str_includes_app p a w : str_includes p a = true -> str_includes p (a ++ w) = true.
Proof.
  induction a as [|c a IH].
  - cbn [str_includes append]. rewrite orb_false_r. intro H.
    destruct p; [|discriminate]. destruct w; reflexivity.
  - rewrite str_includes_cons. cbn [append]. rewrite str_includes_cons.
    intro H. apply orb_prop in H. destruct H as [H|H].
    + pose proof (starts_with_app _ (String c a) w H) as H'. cbn [append] in H'.
      rewrite H'. reflexivity.
    + rewrite (IH H). apply orb_true_r.
Qed.

Lemma str_includes_suffix p a s :
  str_includes p (a ++ s) = false -> str_includes p s = false.
Proof.
  induction a as [|c a IH]; [auto|].
  cbn [append]. rewrite str_includes_cons. intro H. apply orb_false_elim in H. apply IH, H.
Qed.

Lemma str_includes_trimStart p s :
  str_includes p s = false -> str_includes p (trimStart s) = false.
Proof.
  destruct (trimStart_suffix s) as [a Ha]. intro H. rewrite Ha in H.
  apply (str_includes_suffix _ _ _ H).
Qed.

Lemma str_includes_trim p s :
  str_includes p s = false -> str_includes p (trim_string s) = false.
Proof.
  intro H. unfold trim_string. apply str_includes_trimStart in H.
  destruct (trimEnd_prefix (trimStart s)) as [w Hw].
  destruct (str_includes p (trimEnd (trimStart s))) eqn:E; [|reflexivity].
  apply (str_includes_app _ _ w) in E. rewrite <- Hw in E. congruence.
Qed.

(** X11. Whatever [stripHtml] returns is trimmed and holds no three
    line feeds in a row. *)
Theorem stripHtml_shape (html : value) (s : string) :
  stripHtml html = Ok s ->
  trim_string s = s /\ str_includes blankLines s = false.
Proof.
  unfold stripHtml. destruct (negb (truthy html)).
  - intro E. injection E as <-. split; reflexivity.
  - destruct html; try discriminate. cbv zeta. intro E. injection E as <-. split.
    + apply trim_string_idempotent.
    + apply str_includes_trim. apply collapse_shape.
Qed.

Lemma stripHtml_shape_witness :
  exists s,
    stripHtml (VStr "<p>Hi</p><br><br/><BR >there ") = Ok s
    /\ trim_string s = s /\ str_includes blankLines s = false.
Proof.
  eexists. split; [reflexivity|].
  apply (stripHtml_shape (VStr "<p>Hi</p><br><br/><BR >there ")). reflexivity.
Defined.

(** * The export

    ** The run time of the export at work *)

(** [YearFromTime] is what ECMA-262 defines: the largest year that
    starts on or before the day of the time value. *)
Lemma YearFromTime_spec t :
  (DayFromYear (YearFromTime t) <= Day t < DayFromYear (YearFromTime t + 1))%Z.
Proof.
  unfold YearFromTime. cbv zeta.
  generalize (Day t). intro d.
  destruct (Z.ltb_spec d (DayFromYear (1970 + d * 400 / 146097))) as [H1|H1].
  - unfold DayFromYear in *. Z.div_mod_to_equations. lia.
  - destruct (Z.leb_spec (DayFromYear (1970 + d * 400 / 146097 + 1)) d) as [H2|H2].
    + unfold DayFromYear in *. Z.div_mod_to_equations. lia.
    + split; [exact H1 | exact H2].
Qed.

Example toISOString_ex :
  map toISOString [MkDate (Some 0%Z); MkDate (Some (-1)%Z); MkDate (Some 1709210096789%Z);
                   MkDate (Some 8640000000000000%Z); MkDate (Some (-62198755200000)%Z);
                   MkDate None]
  = [Returns "1970-01-01T00:00:00.000Z"; Returns "1969-12-31T23:59:59.999Z";
     Returns "2024-02-29T12:34:56.789Z"; Returns "+275760-09-13T00:00:00.000Z";
     Returns "-000001-01-01T00:00:00.000Z"; ThrowsRangeError].
Proof. reflexivity. Qed.

Example uuidPattern_ex :
  map uuidPattern ["124db277-22cf-49ae-bd3d-00d67e4d6ea5"; "124DB277-22CF-49AE-BD3D-00D67E4D6EA5";
                   "124db277-22cf-49ae-bd3d-00d67e4d6ea5x"; "124db27g-22cf-49ae-bd3d-00d67e4d6ea5"]
  = [true; true; false; false].
Proof. reflexivity. Qed.

Example sanitizeFilename_ex :
  sanitizeFilename (VStr "a/b: c   d?") = Returns "a_b__c_d_".
Proof. reflexivity. Qed.

(** The names of the three files of [notebook], one per conversation:
    the first conversation is named by its title, the second by its
    index, the third by its title again. *)
Example per_chat_names :
  match generateMarkdownFiles sampleHost japan notebook "per_chat" with
  | Returns files => map fst files
  | _ => []
  end
  = ["Notes.md"; "ai_chat_conversation_002.md"; "Notes.md"].
Proof. reflexivity. Qed.

(** A name from the date, in local time: midnight UTC is nine o'clock in
    Japan. *)
Example dated_name :
  generateFilename japan (untitled 0 (Some newYear2024)) 0 "gemini"
  = Returns "gemini_20240101_0900_001".
Proof. reflexivity. Qed.

(** The file of a month. *)
Example per_month_files :
  generateMarkdownFiles sampleHost japan
    {| jsonData := VNull; fileName := "notes.json";
       conversations := [note (Some newYear2024)]; detectedSource := Gemini |}
    "per_month"
  = Returns [("gemini_2024-01.md",
              "# Gemini 会話履歴 - 2024-01

**会話数**: 1

---

## 1. Notes

- gemini_conversation_id: n
- Created (UTC): 2024-01-01T00:00:00.000Z

### User

Hi

---

")].
Proof. reflexivity. Qed.

(** ** sanitizeFilename *)

(** *** The code unit that a cut leaves *)

(** A surrogate takes three bytes: the first, [0xED] or [0xEE], starts
    no white-space character, and the other two continue it. *)
Lemma surrogate_shape high s :
  surrogate high s = ""
  \/ exists a b c,
       surrogate high s = String a (String b (String c ""))
       /\ (a = ascii_of_N 237 \/ a = ascii_of_N 238)
       /\ is_cont b = true /\ is_cont c = true.
Proof.
  destruct s as [|c1 [|c2 [|c3 [|c4 r]]]]; try (left; reflexivity). right.
  unfold surrogate.
  set (v := (code4 c1 c2 c3 c4 - 65536)%N).
  set (code := (if high then 55296 + v / 1024 else 56320 + v mod 1024)%N).
  assert (Hv : (v / 1024 < 4357)%N).
  { apply N.Div0.div_lt_upper_bound. unfold v, code4.
    pose proof (N_ascii_bounded c1) as H1. pose proof (N_ascii_bounded c2) as H2.
    pose proof (N_ascii_bounded c3) as H3. pose proof (N_ascii_bounded c4) as H4.
    revert H1 H2 H3 H4.
    generalize (N_of_ascii c1) (N_of_ascii c2) (N_of_ascii c3) (N_of_ascii c4).
    intros. change (1024 * 4357)%N with 4461568%N. lia. }
  assert (Hm : (v mod 1024 < 1024)%N) by (apply N.mod_lt; discriminate).
  assert (Hcode : (55296 <= code < 61440)%N).
  { unfold code. revert Hv Hm. generalize (v / 1024)%N (v mod 1024)%N.
    intros q m Hq Hm. destruct high; lia. }
  clearbody code. clear Hv Hm v.
  unfold utf8.
  destruct (N.ltb_spec code 128) as [H|_]; [lia|].
  destruct (N.ltb_spec code 2048) as [H|_]; [lia|].
  destruct (N.ltb_spec code 65536) as [_|H]; [|lia].
  assert (Hcont : forall x, is_cont (ascii_of_N (128 + x mod 64)) = true).
  { intro x. unfold is_cont. cbv zeta.
    assert (Hx : (x mod 64 < 64)%N) by (apply N.mod_lt; discriminate).
    revert Hx. generalize (x mod 64)%N. intros m Hm.
    rewrite N_ascii_embedding by lia.
    apply andb_true_intro. split; [apply N.leb_le | apply N.ltb_lt]; lia. }
  eexists. eexists. eexists. split; [reflexivity|].
  split; [|split; apply Hcont].
  assert (Hq : (13 <= code / 4096 < 15)%N).
  { split; [apply N.div_le_lower_bound | apply N.Div0.div_lt_upper_bound]; lia. }
  assert (E : (code / 4096 = 13 \/ code / 4096 = 14)%N) by lia.
  destruct E as [-> | ->]; [left | right]; reflexivity.
Qed.

Lemma cont_unreserved c : is_cont c = true -> is_reserved c = false.
Proof. destruct c as [[] [] [] [] [] [] [] []]; intro H; try discriminate H; reflexivity. Qed.

Lemma surrogate_units high s : units (surrogate high s) <= 1.
Proof.
  destruct (surrogate_shape high s) as [-> | (a & b & c & -> & Ha & Hb & Hc)]; [cbn; lia|].
  cbn [units]. rewrite Hb, Hc. destruct Ha as [-> | ->]; cbn; lia.
Qed.

Lemma surrogate_conts high s : conts (surrogate high s) = "".
Proof.
  destruct (surrogate_shape high s) as [-> | (a & b & c & -> & Ha & _)]; [reflexivity|].
  destruct Ha as [-> | ->]; reflexivity.
Qed.

Lemma surrogate_unreserved high s : unreserved (surrogate high s) = true.
Proof.
  destruct (surrogate_shape high s) as [-> | (a & b & c & -> & Ha & Hb & Hc)]; [reflexivity|].
  unfold unreserved. cbn [chars list_ascii_of_string forallb].
  rewrite (cont_unreserved _ Hb), (cont_unreserved _ Hc).
  destruct Ha as [-> | ->]; reflexivity.
Qed.

Lemma surrogate_spaceless high s : spaceless (surrogate high s) = true.
Proof.
  destruct (surrogate_shape high s) as [-> | (a & b & c & -> & Ha & Hb & Hc)]; [reflexivity|].
  cbn [spaceless].
  rewrite (space_width_lead b _ (cont_no_lead _ Hb)), (space_width_lead c _ (cont_no_lead _ Hc)).
  rewrite (space_width_lead a); [reflexivity|].
  destruct Ha as [-> | ->]; reflexivity.
Qed.

(** *** The first [n] code units *)

Lemma substring0_units s : forall n, units (substring0 n s) <= n.
Proof.
  induction s as [|c r IH]; intro n; cbn [substring0]; [cbn; lia|].
  destruct (is_cont c) eqn:Hc.
  - cbn [units]. rewrite Hc. apply IH.
  - destruct n as [|k]; [cbn; lia|].
    destruct (is_lead4 c) eqn:Hl.
    + destruct k as [|k']; [apply surrogate_units|].
      cbn [units]. rewrite Hc, Hl. specialize (IH k'). lia.
    + cbn [units]. rewrite Hc, Hl. specialize (IH k). lia.
Qed.

Lemma substring0_short s : forall n, units s <= n -> substring0 n s = s.
Proof.
  induction s as [|c r IH]; intros n H; cbn [substring0]; [reflexivity|].
  cbn [units] in H. destruct (is_cont c).
  - rewrite (IH n) by exact H. reflexivity.
  - destruct (is_lead4 c).
    + destruct n as [|[|k']]; try lia. rewrite (IH k') by lia. reflexivity.
    + destruct n as [|k]; try lia. rewrite (IH k) by lia. reflexivity.
Qed.

Lemma substring0_conts s : forall n, conts (substring0 n s) = conts s.
Proof.
  induction s as [|c r IH]; intro n; cbn [substring0]; [reflexivity|].
  destruct (is_cont c) eqn:Hc.
  - cbn [conts]. rewrite Hc, IH. reflexivity.
  - cbn [conts]. rewrite Hc. destruct n as [|k]; [reflexivity|].
    destruct (is_lead4 c).
    + destruct k as [|k']; [apply surrogate_conts|]. cbn [conts]. rewrite Hc. reflexivity.
    + cbn [conts]. rewrite Hc. reflexivity.
Qed.

Lemma spaceless_cons c r :
  spaceless (String c r) = true <-> space_width (String c r) = 0 /\ spaceless r = true.
Proof.
  cbn [spaceless]. rewrite andb_true_iff, Nat.eqb_eq. reflexivity.
Qed.

(** What stands before a string is seen through the bytes that continue
    it only. *)
Lemma space_width_same c r r' :
  conts r' = conts r -> space_width (String c r) = 0 -> space_width (String c r') = 0.
Proof. intros E H. rewrite <- space_width_conts, E, space_width_conts. exact H. Qed.

Lemma substring0_spaceless s :
  spaceless s = true -> forall n, spaceless (substring0 n s) = true.
Proof.
  induction s as [|c r IH]; intros H n; cbn [substring0]; [reflexivity|].
  apply spaceless_cons in H. destruct H as [Hw Hr].
  destruct (is_cont c) eqn:Hc.
  - apply spaceless_cons. split; [apply space_width_lead, cont_no_lead, Hc | apply IH, Hr].
  - destruct n as [|k]; [reflexivity|].
    destruct (is_lead4 c).
    + destruct k as [|k']; [apply surrogate_spaceless|].
      apply spaceless_cons.
      split; [apply (space_width_same c r _ (substring0_conts r k') Hw) | apply IH, Hr].
    + apply spaceless_cons.
      split; [apply (space_width_same c r _ (substring0_conts r k) Hw) | apply IH, Hr].
Qed.

Lemma unreserved_cons c r :
  unreserved (String c r) = true <-> is_reserved c = false /\ unreserved r = true.
Proof.
  unfold unreserved. cbn [chars list_ascii_of_string forallb].
  rewrite andb_true_iff, negb_true_iff. reflexivity.
Qed.

Lemma substring0_unreserved s :
  unreserved s = true -> forall n, unreserved (substring0 n s) = true.
Proof.
  induction s as [|c r IH]; intros H n; cbn [substring0]; [reflexivity|].
  apply unreserved_cons in H. destruct H as [Hc Hr].
  destruct (is_cont c).
  - apply unreserved_cons. split; [exact Hc | apply IH, Hr].
  - destruct n as [|k]; [reflexivity|].
    destruct (is_lead4 c).
    + destruct k as [|k']; [apply surrogate_unreserved|].
      apply unreserved_cons. split; [exact Hc | apply IH, Hr].
    + apply unreserved_cons. split; [exact Hc | apply IH, Hr].
Qed.

(** *** The two passes *)

(** The first pass maps the string character by character. *)
Lemma replace_class_chars f s :
  chars (replace_all (re_class f) "_" 0 s)
  = map (fun c => if f c then "_"%char else c) (chars s).
Proof.
  induction s as [|c r IH]; [reflexivity|].
  cbn [replace_all re_class]. destruct (f c) eqn:E.
  - cbn [append chars list_ascii_of_string map]. rewrite E. f_equal. exact IH.
  - cbn [chars list_ascii_of_string map]. rewrite E. f_equal. exact IH.
Qed.

Lemma replace_class_unreserved s :
  unreserved (replace_all (re_class is_reserved) "_" 0 s) = true.
Proof.
  unfold unreserved. rewrite replace_class_chars. apply forallb_forall.
  intros c Hc. apply in_map_iff in Hc. destruct Hc as (x & <- & _).
  destruct (is_reserved x) eqn:E; [reflexivity | rewrite E; reflexivity].
Qed.

(** The second pass writes underscores and keeps bytes. *)
Lemma replace_spaces_unreserved s :
  unreserved s = true -> forall skip, unreserved (replace_all re_spaces "_" skip s) = true.
Proof.
  induction s as [|c r IH]; intros H skip; cbn [replace_all]; [reflexivity|].
  apply unreserved_cons in H. destruct H as [Hc Hr].
  destruct skip as [|k]; [|apply IH, Hr].
  destruct (re_spaces (String c r)) as [[|n]|].
  - apply unreserved_cons. split; [exact Hc | apply IH, Hr].
  - change ("_" ++ replace_all re_spaces "_" n r)
      with (String "_" (replace_all re_spaces "_" n r)).
    apply unreserved_cons. split; [reflexivity | apply IH, Hr].
  - apply unreserved_cons. split; [exact Hc | apply IH, Hr].
Qed.

Lemma replace_spaces_conts s : conts (replace_all re_spaces "_" 0 s) = conts s.
Proof.
  induction s as [|c r IH]; [reflexivity|]. cbn [replace_all conts].
  destruct (is_cont c) eqn:Hc.
  - rewrite (re_spaces_none _ (space_width_lead c r (cont_no_lead _ Hc))).
    cbn [conts]. rewrite Hc, IH. reflexivity.
  - destruct (re_spaces (String c r)) as [[|n]|]; cbn [append conts]; rewrite ?Hc; reflexivity.
Qed.

Lemma replace_spaces_spaceless s :
  forall skip, spaceless (replace_all re_spaces "_" skip s) = true.
Proof.
  induction s as [|c r IH]; intros skip; cbn [replace_all]; [reflexivity|].
  destruct skip as [|k]; [|apply IH].
  destruct (Nat.eq_dec (space_width (String c r)) 0) as [Hw|Hw].
  - rewrite (re_spaces_none _ Hw). apply spaceless_cons.
    split; [apply (space_width_same c r _ (replace_spaces_conts r) Hw) | apply IH].
  - destruct (re_spaces_some _ Hw) as [n ->].
    change ("_" ++ replace_all re_spaces "_" n r)
      with (String "_" (replace_all re_spaces "_" n r)).
    apply spaceless_cons. split; [apply space_width_lead; reflexivity | apply IH].
Qed.

Lemma replace_class_fixed s :
  unreserved s = true -> replace_all (re_class is_reserved) "_" 0 s = s.
Proof.
  induction s as [|c r IH]; [reflexivity|]. intro H.
  apply unreserved_cons in H. destruct H as [Hc Hr].
  cbn [replace_all re_class]. rewrite Hc, (IH Hr). reflexivity.
Qed.

Lemma replace_spaces_fixed s :
  spaceless s = true -> replace_all re_spaces "_" 0 s = s.
Proof.
  induction s as [|c r IH]; [reflexivity|]. intro H.
  apply spaceless_cons in H. destruct H as [Hw Hr].
  cbn [replace_all]. rewrite (re_spaces_none _ Hw), (IH Hr). reflexivity.
Qed.

Lemma sanitize_safe name :
  safeName (substring0 100
              (replace_all re_spaces "_" 0
                 (replace_all (re_class is_reserved) "_" 0 name))) = true.
Proof.
  unfold safeName. rewrite !andb_true_iff. repeat split.
  - apply Nat.leb_le, substring0_units.
  - apply substring0_unreserved, replace_spaces_unreserved, replace_class_unreserved.
  - apply substring0_spaceless, replace_spaces_spaceless.
Qed.

Lemma sanitize_fixed name :
  safeName name = true -> sanitizeFilename (VStr name) = Returns name.
Proof.
  unfold safeName. rewrite !andb_true_iff. intros [[Hunits Hclass] Hspace].
  unfold sanitizeFilename. cbn [asString cbind].
  rewrite (replace_class_fixed _ Hclass), (replace_spaces_fixed _ Hspace).
  rewrite (substring0_short _ _ (proj1 (Nat.leb_le _ _) Hunits)). reflexivity.
Qed.

(** X12. [sanitizeFilename] returns, for every string, a name of at
    most 100 code units that holds no character of the reserved class
    and no white space, of the whole class of [\s]. *)
Theorem sanitizeFilename_safe (name : string) :
  exists s, sanitizeFilename (VStr name) = Returns s
            /\ units s <= 100
            /\ unreserved s = true
            /\ spaceless s = true.
Proof.
  eexists. split; [reflexivity|].
  pose proof (sanitize_safe name) as H. unfold safeName in H.
  rewrite !andb_true_iff in H. destruct H as [[Hunits Hclass] Hspace].
  split; [apply Nat.leb_le, Hunits | split; assumption].
Qed.

(** X13. The names that [sanitizeFilename] returns unchanged are the
    names of at most 100 code units without a reserved character and
    without white space; and sanitizing a sanitized name changes
    nothing. *)
Theorem sanitizeFilename_fixed_points (name : string) :
  (sanitizeFilename (VStr name) = Returns name <-> safeName name = true)
  /\ (forall s, sanitizeFilename (VStr name) = Returns s ->
                sanitizeFilename (VStr s) = Returns s).
Proof.
  split; [split|].
  - intro H. injection H as H. rewrite <- H. apply sanitize_safe.
  - apply sanitize_fixed.
  - intros s H. injection H as <-. apply sanitize_fixed, sanitize_safe.
Qed.

(** A title in Japanese: the ideographic space is white space, a
    character of the basic plane is one code unit, one outside it is
    two, and a cut inside it leaves its first half. *)
Example sanitizeFilename_wide :
  sanitizeFilename (VStr "会話　の/記録") = Returns "会話_の_記録"
  /\ units "会話　の/記録" = 7
  /\ String.length "会話　の/記録" = 19
  /\ substring0 3 "会話😀" = "会話" ++ utf8 55357
  /\ units (substring0 3 "会話😀") = 3.
Proof. repeat split. Qed.

(** ** generateFilename *)

Lemma string_of_N_digits n : digits_value (string_of_N n) = Some n.
Proof.
  unfold digits_value, string_of_N.
  assert (E : NilZero.string_of_uint (N.to_uint n) = NilEmpty.string_of_uint (N.to_uint n)).
  { destruct n as [|p]; [reflexivity|]. cbn [N.to_uint].
    pose proof (DecimalPos.Unsigned.to_uint_nonnil p) as H.
    destruct (Pos.to_uint p); [contradiction | reflexivity..]. }
  rewrite E, NilEmpty.usu. cbn [option_map]. f_equal. apply DecimalN.Unsigned.of_to.
Qed.

Lemma digits_value_zero s n : digits_value s = Some n -> digits_value (String "0" s) = Some n.
Proof.
  unfold digits_value. cbn [NilEmpty.uint_of_string].
  destruct (NilEmpty.uint_of_string s) as [d|]; [|discriminate].
  cbn. auto.
Qed.

Lemma padStart_digits k n :
  digits_value (padStart k zero (string_of_N n)) = Some n.
Proof.
  unfold padStart. induction (k - units (string_of_N n)) as [|j IH].
  - apply string_of_N_digits.
  - cbn [repeat_char append]. apply digits_value_zero, IH.
Qed.

Lemma padStart_index_inj a b :
  padStart 3 zero (string_of_nat (a + 1)) = padStart 3 zero (string_of_nat (b + 1)) -> a = b.
Proof.
  intro H. unfold string_of_nat in H.
  pose proof (padStart_digits 3 (N.of_nat (a + 1))) as Ha.
  pose proof (padStart_digits 3 (N.of_nat (b + 1))) as Hb.
  rewrite H in Ha. rewrite Ha in Hb. injection Hb as Hb. lia.
Qed.

Lemma digits_no_underscore s :
  NilEmpty.uint_of_string s <> None -> existsb (Ascii.eqb "_") (chars s) = false.
Proof.
  unfold chars. induction s as [|c r IH]; [reflexivity|].
  cbn [NilEmpty.uint_of_string list_ascii_of_string existsb].
  destruct (NilEmpty.uint_of_string r) as [d|].
  - intro H. rewrite IH by discriminate. rewrite orb_false_r.
    destruct (Ascii.eqb_spec "_" c) as [<-|]; [|reflexivity].
    exfalso. apply H. reflexivity.
  - intro H. exfalso. apply H. destruct c as [[] [] [] [] [] [] [] []]; reflexivity.
Qed.

Lemma padStart_no_underscore k n :
  existsb (Ascii.eqb "_") (chars (padStart k zero (string_of_N n))) = false.
Proof.
  apply digits_no_underscore. pose proof (padStart_digits k n) as H.
  unfold digits_value in H. destruct (NilEmpty.uint_of_string _); discriminate.
Qed.

Lemma afterLast_app x d :
  existsb (Ascii.eqb "_") (chars d) = false -> afterLast (x ++ "_" ++ d) = d.
Proof.
  intro Hd. induction x as [|c r IH].
  - cbn [append afterLast]. rewrite Hd. reflexivity.
  - cbn [append afterLast].
    assert (E : existsb (Ascii.eqb "_") (chars (r ++ String "_" d)) = true).
    { clear. unfold chars.
      induction r as [|y r IH]; cbn [append list_ascii_of_string existsb].
      - reflexivity.
      - rewrite IH. apply orb_true_r. }
    rewrite E. exact IH.
Qed.

Lemma string_append_assoc (a b c : string) : ((a ++ b) ++ c = a ++ b ++ c)%string.
Proof. induction a as [|x a IH]; [reflexivity|]. cbn [append]. f_equal. exact IH. Qed.

Section FileNames.

Variable zone : Zone.

(** A name that is not taken from the title ends with the number of the
    conversation. *)
Lemma generateFilename_fallback conv index prefix :
  isValidTitle (title conv) index = Returns false ->
  exists stem,
    generateFilename zone conv index prefix
    = Returns (stem ++ "_" ++ padStart 3 zero (string_of_nat (index + 1))).
Proof.
  intro H. unfold generateFilename. cbv zeta. rewrite H. cbn [cbind].
  destruct (createTime conv) as [date|].
  - match goal with
    | |- context [prefix ++ "_" ++ ?d ++ "_" ++ ?t ++ "_" ++ _] =>
        exists (prefix ++ "_" ++ d ++ "_" ++ t)
    end.
    rewrite !string_append_assoc. reflexivity.
  - exists (prefix ++ "_conversation").
    rewrite string_append_assoc. reflexivity.
Qed.

(** X14. File names that are not taken from the title differ from one
    conversation to the next: when neither title is valid, the names
    generated for two different indices are different, whatever the
    prefixes and the dates. *)
Theorem generateFilename_fallback_distinct
        (conv conv' : Conversation) (index index' : nat) (prefix prefix' : string) :
  isValidTitle (title conv) index = Returns false ->
  isValidTitle (title conv') index' = Returns false ->
  index <> index' ->
  exists name name',
    generateFilename zone conv index prefix = Returns name
    /\ generateFilename zone conv' index' prefix' = Returns name'
    /\ name <> name'.
Proof.
  intros H H' Hne.
  destruct (generateFilename_fallback conv index prefix H) as [stem E].
  destruct (generateFilename_fallback conv' index' prefix' H') as [stem' E'].
  eexists. eexists. split; [exact E|]. split; [exact E'|].
  intro Heq. apply Hne. apply padStart_index_inj.
  apply (f_equal afterLast) in Heq.
  unfold string_of_nat in *.
  rewrite !afterLast_app in Heq by apply padStart_no_underscore.
  exact Heq.
Qed.

End FileNames.

Lemma generateFilename_fallback_distinct_witness :
  isValidTitle (title (untitled 0 (Some newYear2024))) 0 = Returns false
  /\ isValidTitle (title (untitled 1 None)) 1 = Returns false
  /\ exists name name',
       generateFilename japan (untitled 0 (Some newYear2024)) 0 "gemini" = Returns name
       /\ generateFilename japan (untitled 1 None) 1 "gemini" = Returns name'
       /\ name <> name'.
Proof.
  split; [reflexivity|]. split; [reflexivity|].
  apply (generateFilename_fallback_distinct japan (untitled 0 (Some newYear2024))
           (untitled 1 None) 0 1 "gemini" "gemini"); [reflexivity | reflexivity | discriminate].
Defined.

(** ** generateMarkdownFiles, one file per conversation *)

Lemma mapMi_nth {A B} (f : A -> nat -> completion B) (l : list A) :
  forall index ys,
    mapMi f l index = Returns ys ->
    List.length ys = List.length l
    /\ forall i x, nth_error l i = Some x ->
                   exists y, f x (index + i) = Returns y /\ nth_error ys i = Some y.
Proof.
  induction l as [|x r IH]; intros index ys; cbn [mapMi].
  - intro E. injection E as <-. split; [reflexivity|]. intros [|i] y; discriminate.
  - destruct (f x index) as [y| |] eqn:Hx; cbn [cbind]; try discriminate.
    destruct (mapMi f r (S index)) as [ys'| |] eqn:Hr; cbn [cbind]; try discriminate.
    intro E. injection E as <-. destruct (IH _ _ Hr) as [Hlen Hnth].
    split; [cbn [List.length]; rewrite Hlen; reflexivity|].
    intros [|i] x' Hi; cbn [nth_error] in *.
    + injection Hi as <-. exists y. rewrite Nat.add_0_r. auto.
    + destruct (Hnth _ _ Hi) as (y' & Hf & Hy). exists y'.
      replace (index + S i) with (S index + i) by lia. auto.
Qed.

Section PerChat.

Variable host : Host.
Variable zone : Zone.

(** X15. File names that are taken from the title are not unique: when
    the export of one file per conversation returns and two conversations
    have the same valid title, their two files have the same name. *)
Theorem generateMarkdownFiles_same_title
        (this : AIChatConverter) (files : list (string * string))
        (i j : nat) (ci cj : Conversation) :
  generateMarkdownFiles host zone this "per_chat" = Returns files ->
  nth_error (conversations this) i = Some ci ->
  nth_error (conversations this) j = Some cj ->
  title ci = title cj ->
  isValidTitle (title ci) i = Returns true ->
  isValidTitle (title cj) j = Returns true ->
  exists name content content',
    nth_error files i = Some (name, content)
    /\ nth_error files j = Some (name, content').
Proof.
  unfold generateMarkdownFiles. cbv zeta. cbn [String.eqb Ascii.eqb Bool.eqb].
  intros Hfiles Hi Hj Htitle Hvi Hvj.
  destruct (mapMi_nth _ _ _ _ Hfiles) as [_ Hnth].
  destruct (Hnth _ _ Hi) as ([ni xi] & Hfi & Hni).
  destruct (Hnth _ _ Hj) as ([nj xj] & Hfj & Hnj).
  cbn [Nat.add] in Hfi, Hfj. unfold generateFilename in Hfi, Hfj. cbv zeta in Hfi, Hfj.
  rewrite Hvi in Hfi. rewrite Hvj in Hfj. cbn [cbind] in Hfi, Hfj.
  rewrite <- Htitle in Hfj.
  destruct (sanitizeFilename (title ci)) as [name| |]; cbn [cbind] in Hfi, Hfj; try discriminate.
  destruct (conversationToMarkdown this ci); cbn [cbind] in Hfi; try discriminate.
  destruct (conversationToMarkdown this cj); cbn [cbind] in Hfj; try discriminate.
  injection Hfi as <- <-. injection Hfj as <- <-.
  eauto.
Qed.

End PerChat.

Lemma generateMarkdownFiles_same_title_witness :
  exists files,
    generateMarkdownFiles sampleHost japan notebook "per_chat" = Returns files
    /\ nth_error (conversations notebook) 0 = Some (note (Some newYear2024))
    /\ nth_error (conversations notebook) 2 = Some (note None)
    /\ exists name content content',
         nth_error files 0 = Some (name, content)
         /\ nth_error files 2 = Some (name, content').
Proof.
  eexists. split; [reflexivity|]. split; [reflexivity|]. split; [reflexivity|].
  apply (generateMarkdownFiles_same_title sampleHost japan notebook _ 0 2
           (note (Some newYear2024)) (note None)); reflexivity.
Defined.

(** ** When the Markdown can be written *)

Lemma dateLine_completion md label date tail :
  match dateLine md label date tail with
  | Returns _ => validDate date = true
  | ThrowsRangeError => validDate date = false
  | ThrowsTypeError => False
  end.
Proof.
  unfold dateLine, formatISODate, toISOString, validDate.
  destruct date as [[[t|]]|]; cbn; reflexivity.
Qed.

Lemma stringOf_completion v :
  match stringOf v with
  | Returns _ => converts v = true
  | ThrowsTypeError => converts v = false
  | ThrowsRangeError => False
  end.
Proof. unfold stringOf, converts. destruct (ToString v); reflexivity. Qed.

(** One message: the date is written first, the content converted
    after it. *)
Lemma messageToMarkdown_completion heading md msg :
  match messageToMarkdown heading md msg with
  | Returns _ => validDate (timestamp msg) = true /\ converts (content msg) = true
  | ThrowsRangeError => validDate (timestamp msg) = false
  | ThrowsTypeError => validDate (timestamp msg) = true /\ converts (content msg) = false
  end.
Proof.
  unfold messageToMarkdown. cbv zeta.
  pose proof (dateLine_completion
                (md ++ heading ++ (if is_str "user" (role msg) then "User" else "Assistant") ++ nl)
                "*Time (UTC): " (timestamp msg) "*") as H.
  destruct (dateLine _ _ _ _); cbn [cbind]; [|contradiction|exact H].
  pose proof (stringOf_completion (content msg)) as Hc.
  destruct (stringOf (content msg)); cbn [cbind]; [auto | auto | contradiction].
Qed.

Lemma foldM_messages heading msgs :
  forall md,
    match foldM (messageToMarkdown heading) msgs md with
    | Returns _ => forallb (fun msg => validDate (timestamp msg)) msgs = true
                   /\ forallb (fun msg => converts (content msg)) msgs = true
    | ThrowsRangeError => forallb (fun msg => validDate (timestamp msg)) msgs = false
    | ThrowsTypeError => forallb (fun msg => converts (content msg)) msgs = false
    end.
Proof.
  induction msgs as [|msg r IH]; intro md; cbn [foldM forallb]; [split; reflexivity|].
  pose proof (messageToMarkdown_completion heading md msg) as H.
  destruct (messageToMarkdown heading md msg) as [md'| |]; cbn [cbind].
  - destruct H as [-> ->]. cbn [andb]. apply IH.
  - destruct H as [_ ->]. reflexivity.
  - rewrite H. reflexivity.
Qed.

Lemma dateLine_valid md label date tail :
  validDate date = true -> exists md', dateLine md label date tail = Returns md'.
Proof.
  intro H. pose proof (dateLine_completion md label date tail) as Hd.
  destruct (dateLine md label date tail); [eauto | contradiction | congruence].
Qed.

Lemma dateLine_invalid md label date tail :
  validDate date = false -> dateLine md label date tail = ThrowsRangeError.
Proof.
  intro H. pose proof (dateLine_completion md label date tail) as Hd.
  destruct (dateLine md label date tail); [congruence | contradiction | reflexivity].
Qed.

Ltac date_ok H :=
  match goal with
  | |- context [cbind (dateLine ?md ?label ?date ?tail) _] =>
      let E := fresh "E" in
      destruct (dateLine_valid md label date tail H) as [? E]; rewrite E; clear E; cbn [cbind]
  end.

Lemma title_completion (title : value) :
  match asString (or_ title (VStr "会話")) with
  | Returns _ => stringOrFalsy title = true
  | ThrowsTypeError => stringOrFalsy title = false
  | ThrowsRangeError => False
  end.
Proof.
  unfold or_, stringOrFalsy. destruct title as [| |[]|n|s|l|l]; cbn; try reflexivity.
  - destruct (n =? 0)%Z; reflexivity.
  - destruct (s =? ""); reflexivity.
Qed.

(** The heading of a title that is falsy or a string. *)
Lemma heading_string (title : value) :
  stringOrFalsy title = true -> exists s, stringOf (or_ title (VStr "会話")) = Returns s.
Proof.
  unfold or_, stringOrFalsy, stringOf.
  destruct title as [| |[]|n|s|l|l]; cbn [truthy is_string negb orb];
    try discriminate; try (intros _; cbn; eauto; fail).
  - destruct (n =? 0)%Z; cbn; [eauto | discriminate].
  - destruct (s =? ""); cbn; eauto.
Qed.

(** The heading of any title: what is falsy gives way to a string. *)
Lemma heading_completion (title : value) :
  match stringOf (or_ title (VStr "会話")) with
  | Returns _ => converts title = true
  | ThrowsTypeError => converts title = false
  | ThrowsRangeError => False
  end.
Proof.
  unfold or_. destruct (truthy title) eqn:Ht; [apply stringOf_completion|].
  cbn. apply falsy_converts, Ht.
Qed.

(** X16. How [conversationToMarkdown] ends. It returns exactly when the
    title is falsy or a string, the id and every content convert to a
    string, and [createTime], [updateTime] and the timestamps are valid
    dates. A [TypeError] comes from the title, from the id or from a
    content; a [RangeError] from a date, behind a title and an id that
    passed. *)
Theorem conversationToMarkdown_completion (this : AIChatConverter) (conv : Conversation) :
  match conversationToMarkdown this conv with
  | Returns _ => exportable conv = true
  | ThrowsTypeError =>
      stringOrFalsy (title conv) = false \/ converts (id conv) = false
      \/ contentsConvert conv = false
  | ThrowsRangeError =>
      stringOrFalsy (title conv) = true /\ converts (id conv) = true
      /\ datesValid conv = false
  end.
Proof.
  unfold conversationToMarkdown, exportable, datesValid, contentsConvert. cbv zeta.
  pose proof (title_completion (title conv)) as Ht.
  destruct (asString (or_ (title conv) (VStr "会話"))) as [shown| |]; cbn [cbind];
    [|left; exact Ht|contradiction].
  rewrite Ht.
  pose proof (stringOf_completion (id conv)) as Hi.
  destruct (stringOf (id conv)) as [idText| |]; cbn [cbind];
    [|right; left; exact Hi|contradiction].
  rewrite Hi. cbn [andb].
  destruct (heading_string _ Ht) as [heading Hheading].
  destruct (validDate (createTime conv)) eqn:Hc.
  - date_ok Hc. destruct (validDate (updateTime conv)) eqn:Hu.
    + date_ok Hu. rewrite Hheading. cbn [cbind]. date_ok Hc. date_ok Hu. cbn [andb].
      match goal with
      | |- context [foldM ?f ?l ?md] =>
          pose proof (foldM_messages "## " l md) as Hm; destruct (foldM f l md)
      end.
      * destruct Hm as [-> ->]. reflexivity.
      * right; right. exact Hm.
      * rewrite Hm. repeat split.
    + rewrite (dateLine_invalid _ _ _ _ Hu). repeat split.
  - rewrite (dateLine_invalid _ _ _ _ Hc). repeat split.
Qed.

Lemma id_completion (v : value) :
  match (if truthy v
         then let! s := asString v in Returns (negb (starts_with "conversation_" s))
         else Returns false) with
  | Returns named => stringOrFalsy v = true
                     /\ (named = true -> exists s, v = VStr s)
  | ThrowsTypeError => stringOrFalsy v = false
  | ThrowsRangeError => False
  end.
Proof.
  unfold stringOrFalsy. destruct v as [| |[]|n|s|l|l]; cbn; try reflexivity;
    try (split; [reflexivity | discriminate]).
  - destruct (n =? 0)%Z; [split; [reflexivity | discriminate] | reflexivity].
  - destruct (s =? ""); (split; [reflexivity | eauto]).
Qed.

Lemma sectionToMarkdown_completion this md conv index :
  match sectionToMarkdown this md conv index with
  | Returns _ => exportableInPeriod conv = true
  | ThrowsTypeError =>
      converts (title conv) = false \/ stringOrFalsy (id conv) = false
      \/ contentsConvert conv = false
  | ThrowsRangeError => datesValid conv = false
  end.
Proof.
  unfold sectionToMarkdown, exportableInPeriod, datesValid, contentsConvert. cbv zeta.
  pose proof (heading_completion (title conv)) as Ht.
  destruct (stringOf (or_ (title conv) (VStr "会話"))) as [heading| |]; cbn [cbind];
    [|left; exact Ht|contradiction].
  rewrite Ht.
  pose proof (id_completion (id conv)) as Hi.
  match goal with
  | |- context [cbind (if truthy (id conv) then ?a else ?b) _] =>
      destruct (if truthy (id conv) then a else b) as [named| |]; cbn [cbind];
        [|right; left; exact Hi|contradiction]
  end.
  destruct Hi as [Hi Hnamed]. rewrite Hi. cbn [andb].
  match goal with
  | |- context [cbind (if named then ?a else ?b) _] =>
      assert (Hline : exists md', (if named then a else b) = Returns md')
  end.
  { destruct named; [|eauto]. destruct (Hnamed eq_refl) as [s ->]. cbn. eauto. }
  destruct Hline as [md' ->]. cbn [cbind].
  destruct (validDate (createTime conv)) eqn:Hc.
  - date_ok Hc. destruct (validDate (updateTime conv)) eqn:Hu.
    + date_ok Hu. cbn [andb].
      match goal with
      | |- context [foldM ?f ?l ?md] =>
          pose proof (foldM_messages "### " l md) as Hm; destruct (foldM f l md)
      end; cbn [cbind].
      * destruct Hm as [-> ->]. reflexivity.
      * right; right. exact Hm.
      * rewrite Hm. reflexivity.
    + rewrite (dateLine_invalid _ _ _ _ Hu). reflexivity.
  - rewrite (dateLine_invalid _ _ _ _ Hc). reflexivity.
Qed.

(** X17. [multiConversationsToMarkdown] returns exactly when every
    conversation has a title and contents that convert to a string, an
    [id] that is falsy or a string, and valid dates throughout. *)
Theorem multiConversationsToMarkdown_returns
        (this : AIChatConverter) (convs : list Conversation) (periodKey : string) :
  (exists md, multiConversationsToMarkdown this convs periodKey = Returns md)
  <-> forallb exportableInPeriod convs = true.
Proof.
  unfold multiConversationsToMarkdown. cbv zeta.
  match goal with |- context [foldMi _ _ 0 ?md] => generalize md end.
  generalize 0. induction convs as [|conv r IH]; intros index md; cbn [foldMi forallb].
  - split; eauto.
  - pose proof (sectionToMarkdown_completion this md conv index) as Hs.
    destruct (sectionToMarkdown this md conv index) as [md'| |]; cbn [cbind].
    + rewrite Hs. cbn [andb]. apply IH.
    + assert (E : exportableInPeriod conv = false).
      { unfold exportableInPeriod. destruct Hs as [-> | [-> | ->]];
          rewrite ?andb_false_r; reflexivity. }
      rewrite E. cbn [andb]. split; [intros [? ?]; discriminate | discriminate].
    + assert (E : exportableInPeriod conv = false).
      { unfold exportableInPeriod. rewrite Hs, ?andb_false_r. reflexivity. }
      rewrite E. cbn [andb]. split; [intros [? ?]; discriminate | discriminate].
Qed.

(** A content that hides [toString] stops both renderers; a conversation
    of strings passes both. *)
Example hidden_content_throws :
  let hidden := {| id := VStr "c"; title := VStr "T"; createTime := None; updateTime := None;
                   messages := [ {| role := VStr "user";
                                    content := VObj [("toString", VNum 1)];
                                    timestamp := None |} ];
                   _isChatGPT := false |} in
  conversationToMarkdown (loaded "export.json" VNull) hidden = ThrowsTypeError
  /\ multiConversationsToMarkdown (loaded "export.json" VNull) [hidden] "2024-01"
     = ThrowsTypeError
  /\ exportable hidden = false
  /\ exportable (note None) = true
  /\ exportableInPeriod (note None) = true.
Proof. repeat split. Qed.

(** ** Dates that cannot be written *)

Section Dates.

Variable host : Host.

(** X18. A timestamp that [parseTimestamp] read can be written by
    [formatISODate], unless it was read from a number beyond the range
    of [Date] (more than 8.64e15 milliseconds from the epoch, after the
    scaling of seconds): then, and only then, [formatISODate] throws a
    [RangeError]. It throws no [TypeError]. *)
Theorem formatISODate_parseTimestamp (v : value) :
  (formatISODate (parseTimestamp host v) = ThrowsRangeError
   <-> exists n, v = VNum n
                 /\ (8640000000000000 < Z.abs (if (n >? 9999999999)%Z then n else n * 1000))%Z)
  /\ formatISODate (parseTimestamp host v) <> ThrowsTypeError.
Proof.
  unfold parseTimestamp, formatISODate, toISOString.
  destruct v as [| |b|n|s|l|l]; cbn [truthy negb].
  1-2, 6-7: split; [split; [discriminate | intros (n & E & _); discriminate] | discriminate].
  - destruct b; cbn [negb];
      (split; [split; [discriminate | intros (n & E & _); discriminate] | discriminate]).
  - destruct (Z.eqb_spec n 0) as [->|Hn]; cbn [negb].
    + split; [|discriminate]. split; [discriminate|].
      intros (n & E & H). injection E as <-. cbn in H. lia.
    + cbn [getTime]. unfold time_clip.
      destruct (Z.leb_spec (Z.abs (if (n >? 9999999999)%Z then n else (n * 1000)%Z))
                           8640000000000000) as [Hle|Hgt].
      * split; [|discriminate]. split; [discriminate|].
        intros (m & E & H). injection E as <-. lia.
      * split; [|discriminate]. split; [|reflexivity]. intros _. exists n. auto.
  - destruct (s =? ""); cbn [negb].
    + split; [split; [discriminate | intros (n & E & _); discriminate] | discriminate].
    + cbn [getTime]. destruct (Date_parse host s) as [t|]; cbn [getTime];
        (split; [split; [discriminate | intros (n & E & _); discriminate] | discriminate]).
Qed.

(** X19. The activity parser does not test the date it builds: an
    activity whose [time] is a string that [Date] cannot parse yields a
    conversation with an invalid [createTime], and
    [conversationToMarkdown] throws a [RangeError] on it. *)
Theorem activity_time_unparsed
        (this : AIChatConverter) (activity : value) (index : nat) (c : Conversation) (s : string) :
  activityConversation host activity index = Ok c ->
  get activity "time" = VStr s ->
  s <> "" ->
  Date_parse host s = None ->
  createTime c = Some (MkDate None)
  /\ conversationToMarkdown this c = ThrowsRangeError.
Proof.
  intros Hc Htime Hs Hparse. revert Hc. unfold activityConversation.
  destruct (getp activity "title") as [title0| |]; cbn [obind]; try discriminate.
  match goal with
  | |- obind ?o _ = _ -> _ => destruct o as [sent| |]; cbn [obind]; try discriminate
  end.
  match goal with
  | |- obind ?o _ = _ -> _ => destruct o as [filled| |]; cbn [obind]; try discriminate
  end.
  match goal with
  | |- obind ?o _ = _ -> _ => destruct o as [aiResponse| |]; cbn [obind]; try discriminate
  end.
  cbv zeta. rewrite Htime. cbn [truthy newDate]. rewrite Hparse.
  destruct (String.eqb_spec s ""); [contradiction|]. cbn [negb obind].
  intro E. injection E as <-. split; [reflexivity|].
  unfold conversationToMarkdown. cbv zeta. cbn [title createTime].
  match goal with
  | |- context [asString (or_ (VStr ?t) ?d)] =>
      assert (Ht : exists shown, asString (or_ (VStr t) d) = Returns shown)
        by (unfold or_; destruct (truthy (VStr t)); cbn; eauto);
      destruct Ht as [shown ->]
  end.
  cbn [cbind id]. unfold stringOf at 1. cbn [ToString cbind].
  rewrite dateLine_invalid by reflexivity. reflexivity.
Qed.

End Dates.

Lemma activity_time_unparsed_witness :
  exists c,
    activityConversation sampleHost undatedActivity 0 = Ok c
    /\ get undatedActivity "time" = VStr "yesterday"
    /\ Date_parse sampleHost "yesterday" = None
    /\ createTime c = Some (MkDate None)
    /\ conversationToMarkdown (loaded "MyActivity.json" VNull) c = ThrowsRangeError.
Proof.
  eexists. split; [reflexivity|]. split; [reflexivity|]. split; [reflexivity|].
  apply (activity_time_unparsed sampleHost (loaded "MyActivity.json" VNull)
                                undatedActivity 0 _ "yesterday");
    [reflexivity | reflexivity | discriminate | reflexivity].
Defined.

(** ** Groups *)

Section Grouping.

Variable key : Conversation -> string.

Lemma map_has_keys {V} k (groups : list (string * V)) :
  map_has k groups = existsb (String.eqb k) (map fst groups).
Proof.
  unfold map_has. induction groups as [|e r IH]; [reflexivity|].
  cbn [existsb map]. rewrite IH, String.eqb_sym. reflexivity.
Qed.

Lemma map_has_in {V} k (groups : list (string * V)) :
  map_has k groups = true <-> In k (map fst groups).
Proof.
  rewrite map_has_keys. rewrite existsb_exists. split.
  - intros (x & Hin & E). apply String.eqb_eq in E. subst. exact Hin.
  - intro H. exists k. split; [exact H | apply String.eqb_refl].
Qed.

Lemma map_push_keys {V} k (x : V) groups : map fst (map_push k x groups) = map fst groups.
Proof.
  unfold map_push. rewrite map_map. apply map_ext. intro e. destruct (fst e =? k); reflexivity.
Qed.

Lemma map_push_absent {V} k (x : V) groups :
  ~ In k (map fst groups) -> map_push k x groups = groups.
Proof.
  intro H. unfold map_push. induction groups as [|e r IH]; [reflexivity|].
  cbn [map]. destruct (String.eqb_spec (fst e) k) as [E|E].
  - exfalso. apply H. left. exact E.
  - f_equal. apply IH. intro Hin. apply H. right. exact Hin.
Qed.

(** A new key opens a group at the end; a known key makes its group
    grow. *)
Lemma addToGroup_new groups k conv :
  ~ In k (map fst groups) -> addToGroup groups k conv = (groups ++ [(k, [conv])])%list.
Proof.
  intro H. unfold addToGroup, map_set.
  assert (E : map_has k groups = false).
  { destruct (map_has k groups) eqn:E; [|reflexivity]. apply map_has_in in E. contradiction. }
  rewrite E. cbn [negb]. unfold map_push. rewrite map_app.
  fold (map_push k conv groups). rewrite (map_push_absent _ _ _ H).
  cbn [map fst snd]. rewrite String.eqb_refl. reflexivity.
Qed.

Lemma addToGroup_known groups k conv :
  In k (map fst groups) -> addToGroup groups k conv = map_push k conv groups.
Proof.
  intro H. unfold addToGroup. apply map_has_in in H. rewrite H. reflexivity.
Qed.

Lemma addToGroup_keys groups k conv :
  map fst (addToGroup groups k conv) = set_add k (map fst groups).
Proof.
  unfold set_add. rewrite <- map_has_keys.
  destruct (map_has k groups) eqn:E.
  - rewrite addToGroup_known by (apply map_has_in, E). apply map_push_keys.
  - rewrite addToGroup_new.
    + rewrite map_app. reflexivity.
    + intro H. apply map_has_in in H. congruence.
Qed.

Lemma filter_snoc {A} (f : A -> bool) l x :
  filter f (l ++ [x]) = (filter f l ++ (if f x then [x] else []))%list.
Proof. rewrite filter_app. reflexivity. Qed.

Lemma step_partitions convs groups conv :
  partitions key convs groups -> partitions key (convs ++ [conv]) (groupStep key groups conv).
Proof.
  intros (Hnd & Hall & Hin). unfold groupStep.
  destruct (in_dec string_dec (key conv) (map fst groups)) as [Hk|Hk].
  - rewrite (addToGroup_known _ _ _ Hk). repeat split.
    + rewrite map_push_keys. exact Hnd.
    + unfold map_push. apply Forall_map. apply (Forall_impl _ (P := fun g =>
        snd g = filter (fun c => key c =? fst g) convs /\ snd g <> [])); [|exact Hall].
      intros g [Hg Hne]. destruct (String.eqb_spec (fst g) (key conv)) as [E|E]; cbn [fst snd].
      * rewrite filter_snoc, <- E, String.eqb_refl, Hg. rewrite E. split; [reflexivity|].
        intro H. apply app_eq_nil in H. destruct H; discriminate.
      * rewrite filter_snoc.
        destruct (String.eqb_spec (key conv) (fst g)) as [E'|_]; [congruence|].
        rewrite app_nil_r. auto.
    + rewrite map_push_keys. intros c Hc. apply in_app_or in Hc.
      destruct Hc as [Hc | [<- | []]]; [apply Hin, Hc | exact Hk].
  - rewrite (addToGroup_new _ _ _ Hk). repeat split.
    + rewrite map_app. cbn [map fst]. apply NoDup_app; [exact Hnd | repeat constructor; intros [] |].
      intros x Hx [<- | []]. contradiction.
    + apply Forall_app. split.
      * apply (Forall_impl _ (P := fun g =>
          snd g = filter (fun c => key c =? fst g) convs /\ snd g <> [])); [|exact Hall].
        intros g [Hg Hne]. rewrite filter_snoc.
        destruct (String.eqb_spec (key conv) (fst g)) as [E|_]; [|rewrite app_nil_r; auto].
        exfalso. apply Hk. rewrite E.
        destruct (snd g) as [|c r] eqn:Es; [contradiction|].
        assert (Hc : In c (filter (fun c => key c =? fst g) convs))
          by (rewrite <- Hg; left; reflexivity).
        apply filter_In in Hc. destruct Hc as [Hc Hkey]. apply String.eqb_eq in Hkey.
        rewrite <- Hkey. apply Hin, Hc.
      * constructor; [|constructor]. cbn [fst snd]. split; [|discriminate].
        rewrite filter_snoc, String.eqb_refl.
        assert (E : filter (fun c => key c =? key conv) convs = []).
        { destruct (filter _ convs) as [|c r] eqn:Ef; [reflexivity|].
          assert (Hc : In c (filter (fun c => key c =? key conv) convs))
            by (rewrite Ef; left; reflexivity).
          apply filter_In in Hc. destruct Hc as [Hc Hkey]. apply String.eqb_eq in Hkey.
          exfalso. apply Hk. rewrite <- Hkey. apply Hin, Hc. }
        rewrite E. reflexivity.
    + rewrite map_app. intros c Hc. apply in_or_app. apply in_app_or in Hc.
      destruct Hc as [Hc | [<- | []]]; [left; apply Hin, Hc | right; left; reflexivity].
Qed.

Lemma fold_partitions convs :
  forall done groups,
    partitions key done groups ->
    partitions key (done ++ convs) (fold_left (groupStep key) convs groups).
Proof.
  induction convs as [|conv r IH]; intros done groups H; cbn [fold_left].
  - rewrite app_nil_r. exact H.
  - replace (done ++ conv :: r)%list with ((done ++ [conv]) ++ r)%list
      by (rewrite <- app_assoc; reflexivity).
    apply IH, step_partitions, H.
Qed.

Lemma fold_keys convs :
  forall groups,
    map fst (fold_left (groupStep key) convs groups)
    = fold_left (fun keys conv => set_add (key conv) keys) convs (map fst groups).
Proof.
  induction convs as [|conv r IH]; intro groups; cbn [fold_left]; [reflexivity|].
  rewrite IH. unfold groupStep. rewrite addToGroup_keys. reflexivity.
Qed.

End Grouping.

Lemma insertEntry_perm {V} (x : string * list V) l : Permutation (insertEntry x l) (x :: l).
Proof.
  induction l as [|y r IH]; cbn [insertEntry]; [reflexivity|].
  destruct (String.ltb _ _); [|reflexivity].
  rewrite IH. apply perm_swap.
Qed.

Lemma sortEntries_perm {V} (l : list (string * list V)) : Permutation (sortEntries l) l.
Proof.
  induction l as [|x r IH]; cbn [sortEntries]; [reflexivity|].
  rewrite insertEntry_perm. constructor. exact IH.
Qed.

Lemma new_Map_from {V} (entries : list (string * V)) :
  forall acc, NoDup (map fst (acc ++ entries)) ->
              fold_left (fun map e => map_set (fst e) (snd e) map) entries acc
              = (acc ++ entries)%list.
Proof.
  induction entries as [|[k v] r IH]; intros acc H; cbn [fold_left].
  - rewrite app_nil_r. reflexivity.
  - cbn [fst snd]. unfold map_set.
    assert (E : map_has k acc = false).
    { destruct (map_has k acc) eqn:E; [|reflexivity]. exfalso.
      apply map_has_in in E. rewrite map_app in H. cbn [map fst] in H.
      apply NoDup_remove_2 in H. apply H, in_or_app. left. exact E. }
    rewrite E. rewrite IH; rewrite <- app_assoc; [reflexivity | exact H].
Qed.

Lemma new_Map_distinct {V} (entries : list (string * V)) :
  NoDup (map fst entries) -> new_Map entries = entries.
Proof. intro H. unfold new_Map. apply (new_Map_from entries [] H). Qed.

Lemma partitions_perm key convs groups groups' :
  Permutation groups groups' -> partitions key convs groups -> partitions key convs groups'.
Proof.
  intros Hp (Hnd & Hall & Hin). repeat split.
  - apply (Permutation_NoDup (Permutation_map fst Hp) Hnd).
  - apply (Permutation_Forall Hp Hall).
  - intros c Hc. apply (Permutation_in _ (Permutation_map fst Hp)), Hin, Hc.
Qed.

Lemma partitions_nil key : partitions key [] [].
Proof. repeat split; [constructor | constructor | intros c []]. Qed.

Lemma grouped key convs :
  let groups := fold_left (groupStep key) convs [] in
  partitions key convs (new_Map (sortEntries groups))
  /\ List.length (new_Map (sortEntries groups))
     = List.length (fold_left (fun keys conv => set_add (key conv) keys) convs []).
Proof.
  cbv zeta.
  pose proof (fold_partitions key convs [] [] (partitions_nil key)) as H. cbn [app] in H.
  pose proof (sortEntries_perm (fold_left (groupStep key) convs [])) as Hp.
  assert (Hs : partitions key convs (sortEntries (fold_left (groupStep key) convs [])))
    by (apply (partitions_perm _ _ _ _ (Permutation_sym Hp) H)).
  rewrite new_Map_distinct by apply Hs.
  split; [exact Hs|].
  pose proof (fold_keys key convs []) as Hk. cbn [map] in Hk.
  rewrite (Permutation_length Hp), <- Hk. symmetry. apply length_map.
Qed.

Section Periods.

Variable host : Host.
Variable zone : Zone.

(** X20. [groupByMonth] and [groupByYear] partition the list of
    conversations: the keys of the groups are distinct, each group holds
    exactly the conversations of its month (of its year), in the order
    of the list, and is not empty, and every conversation has its
    group. *)
Theorem groups_partition (this : AIChatConverter) :
  partitions (monthOf host zone) (conversations this) (groupByMonth host zone this)
  /\ partitions (yearOf host zone) (conversations this) (groupByYear host zone this).
Proof.
  split.
  - apply (grouped (monthOf host zone) (conversations this)).
  - apply (grouped (yearOf host zone) (conversations this)).
Qed.

(** X21. The number of files that [updateOutputFileCount] announces is
    the number of files that [generateMarkdownFiles] returns, for every
    export type. *)
Theorem updateOutputFileCount_matches
        (this : AIChatConverter) (exportType : string) (files : list (string * string)) :
  generateMarkdownFiles host zone this exportType = Returns files ->
  List.length files = updateOutputFileCount host zone this exportType.
Proof.
  unfold generateMarkdownFiles, updateOutputFileCount. cbv zeta.
  destruct (exportType =? "per_chat").
  { intro H. apply mapMi_nth in H. apply H. }
  destruct (exportType =? "per_month").
  { intro H. apply mapMi_nth in H. destruct H as [-> _].
    apply (grouped (monthOf host zone) (conversations this)). }
  destruct (exportType =? "per_year").
  { intro H. apply mapMi_nth in H. destruct H as [-> _].
    apply (grouped (yearOf host zone) (conversations this)). }
  intro H. injection H as <-. reflexivity.
Qed.

End Periods.

Lemma updateOutputFileCount_matches_witness :
  exists files,
    generateMarkdownFiles sampleHost japan notebook "per_month" = Returns files
    /\ List.length files = updateOutputFileCount sampleHost japan notebook "per_month".
Proof.
  eexists. split; [reflexivity|].
  apply (updateOutputFileCount_matches sampleHost japan notebook "per_month"). reflexivity.
Defined.
